(** * Session and authentication core of the college-admissions portal

    A shallow embedding of the session code of [server/index.js] (token
    issuance, the two validation middlewares, the session registry, the
    login throttle, the auth and user-management routes, the periodic
    sweep) and of the idle tracker of the client's [AuthProvider].

    Conventions.
    - JavaScript numbers that hold integers (timestamps in milliseconds,
      counters, HTTP statuses) are [Z].
    - A request handler runs atomically: the server state goes in, the new
      state and the response come out.  Values the handler draws from its
      environment ([Date.now()], [uuidv4()]) are explicit arguments.
    - The sanitisation middleware runs in front of every route.  [login]
      and [register] are the handlers: their arguments are the fields of
      [req.body] as the handler reads them.  The routes that come with a
      [_handler] definition are the middleware followed by the handler:
      their arguments are the fields as the client sent them.
    - The client's event loop is a timer table and a clock; a request
      the client awaits settles [latency] milliseconds after it is sent.
    - Strings are ASCII. *)

From Stdlib Require Import Ascii String.
From stdpp Require Import gmap strings list pretty.

#[local] Open Scope string_scope.
#[local] Open Scope list_scope.
#[local] Open Scope Z_scope.

(** ** JavaScript values *)

(** [v || d] on a number that may be [undefined]: [undefined], and [0],
    are falsy. *)
Definition js_or (v : option Z) (d : Z) : Z :=
  match v with
  | Some n => if bool_decide (n = 0) then d else n
  | None => d
  end.

(** [!s] for a string that may be [undefined]. *)
Definition str_falsy (s : option string) : bool :=
  match s with
  | Some s => bool_decide (s = "")
  | None => true
  end.

(** [Math.ceil(x / d)] for an integer [x] and a positive integer [d].  The
    source divides in floating point ([x / 1000 / 60]); for the magnitudes
    of a timestamp difference the rounding never crosses an integer. *)
Definition js_ceil_div (x d : Z) : Z := - ((- x) `div` d).

(** ** The token codec (the [jsonwebtoken] package)

    The payload that [generateToken] signs, with the registered claims
    [iat], [exp] and [jti] that [jwt.sign] adds. *)
Record payload := {
  pl_id : string;
  pl_email : string;
  pl_name : string;
  pl_role : option string;
  pl_sessionVersion : Z;
  pl_iat : Z;
  pl_exp : Z;
  pl_jti : string
}.

(** One space-separated piece of an [Authorization] header.  It is either
    text that is no well-formed JWT, or the compact serialisation of a
    payload signed with some key.  Signatures are ideal: a token verifies
    under a secret exactly when it was signed with it. *)
Inductive token :=
  | Opaque (text : string)
  | Jwt (key : string) (claims : payload).

#[global] Instance payload_eq_dec : EqDecision payload.
Proof. solve_decision. Defined.

#[global] Instance token_eq_dec : EqDecision token.
Proof. solve_decision. Defined.

Inductive jwt_error := TokenExpiredError | JsonWebTokenError.

(** [jwt.verify(token, secret)] at [Date.now() = now]: the structure and
    the signature are checked first, then [exp] against the clock in whole
    seconds. *)
Definition jwt_verify (now : Z) (t : token) (secret : string)
  : jwt_error + payload :=
  match t with
  | Opaque _ => inl JsonWebTokenError
  | Jwt key claims =>
      if bool_decide (key = secret) then
        if bool_decide (pl_exp claims ≤ now `div` 1000)
        then inl TokenExpiredError
        else inr claims
      else inl JsonWebTokenError
  end.

(** [!token] for [token = authHeader && authHeader.split(' ')[1]]. *)
Definition token_falsy (t : option token) : bool :=
  match t with
  | None => true
  | Some (Opaque text) => bool_decide (text = "")
  | Some (Jwt _ _) => false
  end.

(** ** Insertion-ordered sets (JavaScript [Set]) *)

Definition set_add (t : token) (s : list token) : list token :=
  if bool_decide (t ∈ s) then s else s ++ [t].

Definition set_delete (t : token) (s : list token) : list token :=
  filter (λ x, x ≠ t) s.

(** [s.values().next().value] *)
Definition set_first (s : list token) : option token := head s.

(** ** Server state *)

(** The object [{ id, email, name, role }] the routes pass around.  A
    role is a string or [null] ([None]): the [role] column has no
    [NOT NULL]. *)
Record user_info := {
  u_id : string;
  u_email : string;
  u_name : string;
  u_role : option string
}.

(** A row of the [users] table; [created_at] in whole seconds. *)
Record user_row := {
  r_id : string;
  r_email : string;
  r_password_hash : string;
  r_name : string;
  r_role : option string;
  r_created_at : Z
}.

Definition info_of_row (r : user_row) : user_info :=
  {| u_id := r_id r; u_email := r_email r; u_name := r_name r;
     u_role := r_role r |}.

(** An entry of [loginAttempts]. *)
Record attempt := { count : Z; resetTime : Z }.

Record server := {
  activeSessions : gmap string (list token);
  sessionTokenVersions : gmap string Z;
  loginAttempts : gmap (option string) attempt;
  users : list user_row
}.

Definition with_activeSessions (m : gmap string (list token)) (s : server) :=
  {| activeSessions := m;
     sessionTokenVersions := sessionTokenVersions s;
     loginAttempts := loginAttempts s;
     users := users s |}.

Definition with_sessionTokenVersions (m : gmap string Z) (s : server) :=
  {| activeSessions := activeSessions s;
     sessionTokenVersions := m;
     loginAttempts := loginAttempts s;
     users := users s |}.

Definition with_loginAttempts (m : gmap (option string) attempt) (s : server) :=
  {| activeSessions := activeSessions s;
     sessionTokenVersions := sessionTokenVersions s;
     loginAttempts := m;
     users := users s |}.

Definition with_users (l : list user_row) (s : server) :=
  {| activeSessions := activeSessions s;
     sessionTokenVersions := sessionTokenVersions s;
     loginAttempts := loginAttempts s;
     users := l |}.

(** ** Responses *)

Inductive json :=
  | JMessage (message : string)
  | JRateLimit (message : string) (retryAfter : Z)
  | JAuth (message : string) (user : user_info) (tok : token)
  | JUser (user : user_info)
  | JUsers (rows : list user_info).

Record response := { status : Z; body : json }.

Definition reply (code : Z) (message : string) : response :=
  {| status := code; body := JMessage message |}.

(** A login request as the route sees it: the time it arrives, the
    [uuidv4()] the route will draw for the token's [jti], and the two
    fields of the body. *)
Record login_req := {
  lr_now : Z;
  lr_jti : string;
  lr_email : option string;
  lr_password : option string
}.

Definition mk_login (now : Z) (jti : string) (email password : option string)
  : login_req :=
  {| lr_now := now; lr_jti := jti; lr_email := email;
     lr_password := password |}.

(** The [role] field of a registration body: absent, [null], or a
    string.  [role_or_default] is the value that
    [const { role = 'applicant' } = req.body] binds. *)
Inductive role_field :=
  | RoleAbsent
  | RoleNull
  | RoleText (role : string).

Definition role_or_default (role : role_field) : option string :=
  match role with
  | RoleAbsent => Some "applicant"
  | RoleNull => None
  | RoleText role => Some role
  end.

(** ** The [users] table *)

(** [queryOne('SELECT ... FROM users WHERE email = ?')] *)
Definition user_by_email (db : list user_row) (email : string)
  : option user_row :=
  list_find (λ r, r_email r = email) db ≫= λ p, Some p.2.

(** [queryOne('SELECT ... FROM users WHERE id = ?')] *)
Definition user_by_id (db : list user_row) (id : string) : option user_row :=
  list_find (λ r, r_id r = id) db ≫= λ p, Some p.2.

Definition valid_roles : list string := ["admin"; "officer"; "applicant"].

(** [CHECK(role IN ('admin', 'officer', 'applicant'))]: a [CHECK] fails
    only when its expression is false, and for a [NULL] role it is
    [NULL]. *)
Definition check_role (role : option string) : bool :=
  match role with
  | Some role => bool_decide (role ∈ valid_roles)
  | None => true
  end.

(** [INSERT INTO users]: the statement throws when the row breaks the
    table's constraints ([id] primary key, [email] unique, the [CHECK] on
    [role]). *)
Definition insert_user (db : list user_row) (r : user_row)
  : option (list user_row) :=
  if bool_decide (is_Some (user_by_id db (r_id r))
                  ∨ is_Some (user_by_email db (r_email r))
                  ∨ check_role (r_role r) = false)
  then None
  else Some (db ++ [r]).

(** [ORDER BY created_at DESC]: the newest rows first.  Rows of the same
    second are kept in table order here; SQLite leaves their order
    open. *)
Fixpoint insert_newest (r : user_row) (l : list user_row) : list user_row :=
  match l with
  | [] => [r]
  | x :: rest =>
      if bool_decide (r_created_at x ≤ r_created_at r) then r :: l
      else x :: insert_newest r rest
  end.

Definition newest_first (db : list user_row) : list user_row :=
  foldr insert_newest [] db.

(** [UPDATE users SET role = ? WHERE id = ?] *)
Definition update_role (db : list user_row) (id role : string)
  : list user_row :=
  (λ r, if bool_decide (r_id r = id)
        then {| r_id := r_id r; r_email := r_email r;
                r_password_hash := r_password_hash r; r_name := r_name r;
                r_role := Some role; r_created_at := r_created_at r |}
        else r) <$> db.

(** ** The e-mail pattern of the registration route:
    [/^[^\s@]+@[^\s@]+\.[^\s@]+$/] *)

Definition is_space (c : ascii) : bool :=
  bool_decide (nat_of_ascii c ∈ [9; 10; 11; 12; 13; 32]%nat).

Definition email_char (c : ascii) : bool :=
  negb (is_space c) && negb (Ascii.eqb c "@"%char).

(** Some ["."] of the list has a character before it and one after it. *)
Fixpoint has_inner_dot (seen : bool) (l : list ascii) : bool :=
  match l with
  | [] => false
  | c :: rest =>
      (seen && Ascii.eqb c "."%char && negb (bool_decide (rest = [])))
      || has_inner_dot true rest
  end.

Fixpoint split_at_sign (l : list ascii) : list ascii * option (list ascii) :=
  match l with
  | [] => ([], None)
  | c :: rest =>
      if Ascii.eqb c "@"%char then ([], Some rest)
      else let '(a, b) := split_at_sign rest in (c :: a, b)
  end.

Definition emailRegex_test (s : string) : bool :=
  match split_at_sign (list_ascii_of_string s) with
  | (loc, Some dom) =>
      negb (bool_decide (loc = []))
      && forallb email_char loc && forallb email_char dom
      && has_inner_dot false dom
  | (_, None) => false
  end.

(** ** The client's idle tracker ([AuthProvider])

    The browser side is one thread: a clock, a table of pending tasks,
    [localStorage], the component's state and its refs.  A timer fires at
    its due time; timers due at the same instant fire in the order of
    their creation.  The table also holds the request that [logout] has
    sent and awaits: it settles [latency] milliseconds after it was sent,
    in a turn of its own after the timers due by then, under an id that
    no ref holds, so nothing the component does can cancel it. *)

Definition SESSION_TIMEOUT : Z := 30 * 60 * 1000.
Definition WARNING_BEFORE_TIMEOUT : Z := 2 * 60 * 1000.

(** The three closures the component hands to [setTimeout] and
    [setInterval], and what is left of [logout] after its [await]. *)
Inductive callback :=
  | WarningCb
  | LogoutCb
  | CountdownCb (endTime : Z)
  | LogoutDoneCb.

Record timer := {
  tm_id : positive;
  tm_due : Z;
  tm_period : option Z;
  tm_cb : callback
}.

Record client := {
  clock : Z;
  next_timer : positive;
  timers : list timer;
  authToken : option token;
  user : option user_info;
  showTimeoutWarning : bool;
  remainingTime : Z;
  timeoutRef : option positive;
  warningTimeoutRef : option positive;
  countdownIntervalRef : option positive;
  lastActivityRef : Z
}.

Definition set_clock (v : Z) (c : client) : client :=
  {| clock := v; next_timer := next_timer c; timers := timers c;
     authToken := authToken c; user := user c;
     showTimeoutWarning := showTimeoutWarning c;
     remainingTime := remainingTime c; timeoutRef := timeoutRef c;
     warningTimeoutRef := warningTimeoutRef c;
     countdownIntervalRef := countdownIntervalRef c;
     lastActivityRef := lastActivityRef c |}.

Definition set_timers (n : positive) (v : list timer) (c : client) : client :=
  {| clock := clock c; next_timer := n; timers := v;
     authToken := authToken c; user := user c;
     showTimeoutWarning := showTimeoutWarning c;
     remainingTime := remainingTime c; timeoutRef := timeoutRef c;
     warningTimeoutRef := warningTimeoutRef c;
     countdownIntervalRef := countdownIntervalRef c;
     lastActivityRef := lastActivityRef c |}.

Definition set_credentials (t : option token) (u : option user_info)
    (c : client) : client :=
  {| clock := clock c; next_timer := next_timer c; timers := timers c;
     authToken := t; user := u;
     showTimeoutWarning := showTimeoutWarning c;
     remainingTime := remainingTime c; timeoutRef := timeoutRef c;
     warningTimeoutRef := warningTimeoutRef c;
     countdownIntervalRef := countdownIntervalRef c;
     lastActivityRef := lastActivityRef c |}.

Definition setShowTimeoutWarning (v : bool) (c : client) : client :=
  {| clock := clock c; next_timer := next_timer c; timers := timers c;
     authToken := authToken c; user := user c;
     showTimeoutWarning := v;
     remainingTime := remainingTime c; timeoutRef := timeoutRef c;
     warningTimeoutRef := warningTimeoutRef c;
     countdownIntervalRef := countdownIntervalRef c;
     lastActivityRef := lastActivityRef c |}.

Definition setRemainingTime (v : Z) (c : client) : client :=
  {| clock := clock c; next_timer := next_timer c; timers := timers c;
     authToken := authToken c; user := user c;
     showTimeoutWarning := showTimeoutWarning c;
     remainingTime := v; timeoutRef := timeoutRef c;
     warningTimeoutRef := warningTimeoutRef c;
     countdownIntervalRef := countdownIntervalRef c;
     lastActivityRef := lastActivityRef c |}.

Definition set_timeoutRef (v : option positive) (c : client) : client :=
  {| clock := clock c; next_timer := next_timer c; timers := timers c;
     authToken := authToken c; user := user c;
     showTimeoutWarning := showTimeoutWarning c;
     remainingTime := remainingTime c; timeoutRef := v;
     warningTimeoutRef := warningTimeoutRef c;
     countdownIntervalRef := countdownIntervalRef c;
     lastActivityRef := lastActivityRef c |}.

Definition set_warningTimeoutRef (v : option positive) (c : client) : client :=
  {| clock := clock c; next_timer := next_timer c; timers := timers c;
     authToken := authToken c; user := user c;
     showTimeoutWarning := showTimeoutWarning c;
     remainingTime := remainingTime c; timeoutRef := timeoutRef c;
     warningTimeoutRef := v;
     countdownIntervalRef := countdownIntervalRef c;
     lastActivityRef := lastActivityRef c |}.

Definition set_countdownIntervalRef (v : option positive) (c : client)
  : client :=
  {| clock := clock c; next_timer := next_timer c; timers := timers c;
     authToken := authToken c; user := user c;
     showTimeoutWarning := showTimeoutWarning c;
     remainingTime := remainingTime c; timeoutRef := timeoutRef c;
     warningTimeoutRef := warningTimeoutRef c;
     countdownIntervalRef := v;
     lastActivityRef := lastActivityRef c |}.

Definition set_lastActivityRef (v : Z) (c : client) : client :=
  {| clock := clock c; next_timer := next_timer c; timers := timers c;
     authToken := authToken c; user := user c;
     showTimeoutWarning := showTimeoutWarning c;
     remainingTime := remainingTime c; timeoutRef := timeoutRef c;
     warningTimeoutRef := warningTimeoutRef c;
     countdownIntervalRef := countdownIntervalRef c;
     lastActivityRef := v |}.

(** [setTimeout(cb, delay)] and [setInterval(cb, delay)]: the new timer's
    id is returned. *)
Definition add_timer (period : option Z) (cb : callback) (delay : Z)
    (c : client) : positive * client :=
  let i := next_timer c in
  (i, set_timers (Pos.succ i)
        (timers c ++ [{| tm_id := i; tm_due := clock c + delay;
                         tm_period := period; tm_cb := cb |}]) c).

Definition setTimeout (cb : callback) (delay : Z) (c : client) :=
  add_timer None cb delay c.

Definition setInterval (cb : callback) (delay : Z) (c : client) :=
  add_timer (Some delay) cb delay c.

(** [if (ref.current) clearTimeout(ref.current)]; the ref keeps the id.
    [clearInterval] is the same operation on the same table. *)
Definition clearTimer (ref : option positive) (c : client) : client :=
  match ref with
  | Some i => set_timers (next_timer c)
                (filter (λ tm, tm_id tm ≠ i) (timers c)) c
  | None => c
  end.

Definition clear_all (c : client) : client :=
  clearTimer (countdownIntervalRef c)
    (clearTimer (warningTimeoutRef c) (clearTimer (timeoutRef c) c)).

Definition resetTimeout (c : client) : client :=
  let c := set_lastActivityRef (clock c) c in
  let c := clear_all c in
  let c := setShowTimeoutWarning false c in
  let '(w, c) := setTimeout WarningCb
                   (SESSION_TIMEOUT - WARNING_BEFORE_TIMEOUT) c in
  let c := set_warningTimeoutRef (Some w) c in
  let '(l, c) := setTimeout LogoutCb SESSION_TIMEOUT c in
  set_timeoutRef (Some l) c.

Definition startCountdown (c : client) : client :=
  let endTime := clock c + WARNING_BEFORE_TIMEOUT in
  let c := setRemainingTime WARNING_BEFORE_TIMEOUT c in
  let '(i, c) := setInterval (CountdownCb endTime) 1000 c in
  set_countdownIntervalRef (Some i) c.

(** A change of [user] re-renders the component and re-runs the activity
    effect ([user] is among its dependencies), whose cleanup clears the
    three timers that the refs name.  This happens after the code that
    called [setUser] has run to its end. *)
Definition effect_cleanup (c : client) : client := clear_all c.

(** The fetch of the mount effect has come back with the user's record:
    [setUser(userData)], then [resetTimeout()] ("start session timeout
    tracking"), then the re-render for the new [user], whose effect
    cleanup clears the timers just set. *)
Definition validateToken_ok (u : user_info) (c : client) : client :=
  effect_cleanup (resetTimeout (set_credentials (authToken c) (Some u) c)).

(** [login], once the server has answered 200: the credentials are
    stored, [setUser(data.user)], and the re-render.  No timer is set. *)
Definition client_login (t : token) (u : user_info) (c : client) : client :=
  effect_cleanup (set_credentials (Some t) (Some u) c).

(** [logout] from its [await] on: the stored credentials go and [user]
    becomes [null]; when [user] was not [null] already, that is a change
    and the effect cleanup runs. *)
Definition client_logout (c : client) : client :=
  let c' := set_credentials None None c in
  match user c with
  | Some _ => clear_all c'
  | None => c'
  end.

(** The callbacks.  The logout timer calls [logout()], which sends its
    request and stops at the [await]; then [setShowTimeoutWarning(false)]
    runs.  The rest of [logout] runs when the request has settled. *)
Definition run_callback (latency : Z) (cb : callback) (c : client) : client :=
  match cb with
  | WarningCb =>
      let elapsed := clock c - lastActivityRef c in
      if bool_decide (elapsed < SESSION_TIMEOUT - WARNING_BEFORE_TIMEOUT)
      then resetTimeout c
      else startCountdown (setShowTimeoutWarning true c)
  | LogoutCb =>
      let '(_, c) := add_timer None LogoutDoneCb latency c in
      setShowTimeoutWarning false c
  | CountdownCb endTime =>
      let remaining := Z.max 0 (js_ceil_div (endTime - clock c) 1000) in
      let c := setRemainingTime (remaining * 1000) c in
      if bool_decide (remaining ≤ 0)
      then clearTimer (countdownIntervalRef c) c
      else c
  | LogoutDoneCb => client_logout c
  end.

(** The pending timer that fires next. *)
Fixpoint earliest (l : list timer) : option timer :=
  match l with
  | [] => None
  | tm :: rest =>
      match earliest rest with
      | Some u => if bool_decide (tm_due u < tm_due tm) then Some u
                  else Some tm
      | None => Some tm
      end
  end.

(** One turn of the event loop: the clock reaches the timer's due time, a
    timeout leaves the table, an interval is re-armed, and the callback
    runs. *)
Definition fire (latency : Z) (tm : timer) (c : client) : client :=
  let table :=
    match tm_period tm with
    | None => filter (λ x, tm_id x ≠ tm_id tm) (timers c)
    | Some p =>
        (λ x, if bool_decide (tm_id x = tm_id tm)
              then {| tm_id := tm_id x; tm_due := tm_due x + p;
                      tm_period := tm_period x; tm_cb := tm_cb x |}
              else x) <$> timers c
    end in
  run_callback latency (tm_cb tm)
    (set_clock (Z.max (clock c) (tm_due tm))
       (set_timers (next_timer c) table c)).

(** Let time pass until [t] with no input: every task due by then runs,
    in order.  [None] when [fuel] turns of the loop were not enough. *)
Fixpoint advance (latency : Z) (fuel : nat) (t : Z) (c : client)
  : option client :=
  match earliest (timers c) with
  | Some tm =>
      if bool_decide (tm_due tm ≤ t) then
        match fuel with
        | O => None
        | S fuel => advance latency fuel t (fire latency tm c)
        end
      else Some (set_clock (Z.max (clock c) t) c)
  | None => Some (set_clock (Z.max (clock c) t) c)
  end.

(** The listener for [mousedown], [keydown], [touchstart] and [scroll]. *)
Definition handleActivity (c : client) : client :=
  match user c with
  | Some _ => resetTimeout c
  | None => c
  end.

(** [extendSession], the button of the warning dialog: the warning goes,
    the timers are re-armed, and the server is pinged without waiting for
    the answer (the ping changes nothing on the client).  Unlike the
    activity listener it does not look at [user]. *)
Definition extendSession (c : client) : client :=
  resetTimeout (setShowTimeoutWarning false c).

(** Every pending timer is one that a ref still names, and ids are not
    reused. *)
Definition tracked (c : client) : Prop :=
  ∀ tm, tm ∈ timers c →
    (Some (tm_id tm) = timeoutRef c ∨ Some (tm_id tm) = warningTimeoutRef c
     ∨ Some (tm_id tm) = countdownIntervalRef c)
    ∧ (tm_id tm < next_timer c)%positive.

(** The component as it mounts, nobody signed in. *)
Definition initial (now : Z) : client :=
  {| clock := now; next_timer := 1%positive; timers := [];
     authToken := None; user := None;
     showTimeoutWarning := false; remainingTime := 0;
     timeoutRef := None; warningTimeoutRef := None;
     countdownIntervalRef := None; lastActivityRef := now |}.

(** The component right after a login on the fresh mount. *)
Definition mounted (now : Z) (t : token) (u : user_info) : client :=
  {| clock := now; next_timer := 1%positive; timers := [];
     authToken := Some t; user := Some u;
     showTimeoutWarning := false; remainingTime := 0;
     timeoutRef := None; warningTimeoutRef := None;
     countdownIntervalRef := None; lastActivityRef := now |}.

(** *** The states of one idle cycle

    [armed c] is the tracker right after an activity event in [c]: the
    warning and the logout are pending and nothing else.
    [warning_phase c k now] is the tracker at time [now] once the warning
    has fired and the countdown has ticked [k] times. *)

Definition armed (c : client) : client :=
  {| clock := clock c;
     next_timer := Pos.succ (Pos.succ (next_timer c));
     timers :=
       [{| tm_id := next_timer c;
           tm_due := clock c + (SESSION_TIMEOUT - WARNING_BEFORE_TIMEOUT);
           tm_period := None; tm_cb := WarningCb |};
        {| tm_id := Pos.succ (next_timer c);
           tm_due := clock c + SESSION_TIMEOUT;
           tm_period := None; tm_cb := LogoutCb |}];
     authToken := authToken c; user := user c;
     showTimeoutWarning := false;
     remainingTime := remainingTime c;
     timeoutRef := Some (Pos.succ (next_timer c));
     warningTimeoutRef := Some (next_timer c);
     countdownIntervalRef := countdownIntervalRef c;
     lastActivityRef := clock c |}.

Definition warning_phase (c : client) (k now : Z) : client :=
  {| clock := now;
     next_timer := Pos.succ (Pos.succ (Pos.succ (next_timer c)));
     timers :=
       [{| tm_id := Pos.succ (next_timer c);
           tm_due := clock c + SESSION_TIMEOUT;
           tm_period := None; tm_cb := LogoutCb |};
        {| tm_id := Pos.succ (Pos.succ (next_timer c));
           tm_due := clock c + (SESSION_TIMEOUT - WARNING_BEFORE_TIMEOUT)
                     + 1000 * (k + 1);
           tm_period := Some 1000;
           tm_cb := CountdownCb (clock c + SESSION_TIMEOUT) |}];
     authToken := authToken c; user := user c;
     showTimeoutWarning := true;
     remainingTime := (120 - k) * 1000;
     timeoutRef := Some (Pos.succ (next_timer c));
     warningTimeoutRef := Some (next_timer c);
     countdownIntervalRef := Some (Pos.succ (Pos.succ (next_timer c)));
     lastActivityRef := clock c |}.

(** [logging_out c now]: the logout timer has fired, the request is on
    its way and the last tick of the countdown is still due. *)
Definition logging_out (latency : Z) (c : client) (now : Z) : client :=
  {| clock := now;
     next_timer :=
       Pos.succ (Pos.succ (Pos.succ (Pos.succ (next_timer c))));
     timers :=
       [{| tm_id := Pos.succ (Pos.succ (next_timer c));
           tm_due := clock c + (SESSION_TIMEOUT - WARNING_BEFORE_TIMEOUT)
                     + 1000 * (119 + 1);
           tm_period := Some 1000;
           tm_cb := CountdownCb (clock c + SESSION_TIMEOUT) |};
        {| tm_id := Pos.succ (Pos.succ (Pos.succ (next_timer c)));
           tm_due := clock c + SESSION_TIMEOUT + latency;
           tm_period := None; tm_cb := LogoutDoneCb |}];
     authToken := authToken c; user := user c;
     showTimeoutWarning := false;
     remainingTime := (120 - 119) * 1000;
     timeoutRef := Some (Pos.succ (next_timer c));
     warningTimeoutRef := Some (next_timer c);
     countdownIntervalRef := Some (Pos.succ (Pos.succ (next_timer c)));
     lastActivityRef := clock c |}.

(** [settling c now]: the last tick has run and cleared the interval; the
    request has not settled yet. *)
Definition settling (latency : Z) (c : client) (now : Z) : client :=
  {| clock := now;
     next_timer :=
       Pos.succ (Pos.succ (Pos.succ (Pos.succ (next_timer c))));
     timers :=
       [{| tm_id := Pos.succ (Pos.succ (Pos.succ (next_timer c)));
           tm_due := clock c + SESSION_TIMEOUT + latency;
           tm_period := None; tm_cb := LogoutDoneCb |}];
     authToken := authToken c; user := user c;
     showTimeoutWarning := false;
     remainingTime := 0;
     timeoutRef := Some (Pos.succ (next_timer c));
     warningTimeoutRef := Some (next_timer c);
     countdownIntervalRef := Some (Pos.succ (Pos.succ (next_timer c)));
     lastActivityRef := clock c |}.

(** [timed_out c now]: the request has settled and [logout] has run to
    its end. *)
Definition timed_out (c : client) (now : Z) : client :=
  {| clock := now;
     next_timer :=
       Pos.succ (Pos.succ (Pos.succ (Pos.succ (next_timer c))));
     timers := [];
     authToken := None; user := None;
     showTimeoutWarning := false;
     remainingTime := 0;
     timeoutRef := Some (Pos.succ (next_timer c));
     warningTimeoutRef := Some (next_timer c);
     countdownIntervalRef := Some (Pos.succ (Pos.succ (next_timer c)));
     lastActivityRef := clock c |}.

(** The cycle that an activity event at time [t0] starts, seen from
    outside: the state [c0] right after the event stays quiet until the
    warning is due, shows the warning from then until the logout is due,
    has the dialog closed and the logout request on its way from then
    until the request settles, and is logged out from then on.  [fuel]
    bounds the turns of the event loop; a cycle takes 123 of them: the
    warning, 120 ticks, the logout timer and the settled request. *)
Definition idle_cycle (latency t0 : Z) (u : user_info) (c0 : client) : Prop :=
  (∀ fuel t,
     t0 ≤ t < t0 + (SESSION_TIMEOUT - WARNING_BEFORE_TIMEOUT) →
     ∃ c', advance latency fuel t c0 = Some c' ∧ clock c' = t
           ∧ showTimeoutWarning c' = false ∧ user c' = Some u)
  ∧ (∀ fuel t,
       (121 ≤ fuel)%nat →
       t0 + (SESSION_TIMEOUT - WARNING_BEFORE_TIMEOUT) ≤ t
         < t0 + SESSION_TIMEOUT →
       ∃ c', advance latency fuel t c0 = Some c' ∧ clock c' = t
             ∧ showTimeoutWarning c' = true ∧ user c' = Some u)
  ∧ (∀ fuel t,
       (122 ≤ fuel)%nat →
       t0 + SESSION_TIMEOUT ≤ t < t0 + SESSION_TIMEOUT + latency →
       ∃ c', advance latency fuel t c0 = Some c' ∧ clock c' = t
             ∧ showTimeoutWarning c' = false ∧ user c' = Some u
             ∧ remainingTime c' = 0)
  ∧ (∀ fuel t,
       (123 ≤ fuel)%nat →
       t0 + SESSION_TIMEOUT + latency ≤ t →
       ∃ c', advance latency fuel t c0 = Some c' ∧ clock c' = t
             ∧ user c' = None ∧ authToken c' = None
             ∧ showTimeoutWarning c' = false ∧ timers c' = []).

(** ** Data for the examples

    A stand-in for [bcryptjs] (the hash is the password), one registered
    applicant, and the server right after that registration at time 1000
    with secret ["k"]. *)

Definition plain_hash (password salt : string) : string := password.

Definition plain_compare (password hash : string) : bool :=
  bool_decide (password = hash).

(** A stand-in for the first half of [sanitizeString] that removes
    nothing: right for a string with no blank at either end and no match
    of a dangerous pattern. *)
Definition keep_all (l : list ascii) : list ascii := l.

Definition demo_user : user_info :=
  {| u_id := "u1"; u_email := "x@y.com"; u_name := "X";
     u_role := Some "applicant" |}.

Definition demo_row : user_row :=
  {| r_id := "u1"; r_email := "x@y.com"; r_password_hash := "password1";
     r_name := "X"; r_role := Some "applicant"; r_created_at := 1 |}.

Definition demo_claims (version : Z) (jti : string) : payload :=
  {| pl_id := "u1"; pl_email := "x@y.com"; pl_name := "X";
     pl_role := Some "applicant"; pl_sessionVersion := version;
     pl_iat := 1; pl_exp := 86401; pl_jti := jti |}.

Definition empty_server : server :=
  {| activeSessions := ∅; sessionTokenVersions := ∅; loginAttempts := ∅;
     users := [] |}.

Definition demo_server : server :=
  {| activeSessions := {[ "u1" := [Jwt "k" (demo_claims 1 "j0")] ]};
     sessionTokenVersions := {[ "u1" := 1 ]};
     loginAttempts := ∅;
     users := [demo_row] |}.

(** A registry entry that holds five tokens for an id with no row in the
    [users] table. *)
Definition crowded_server : server :=
  {| activeSessions :=
       {[ "u1" := (λ j, Jwt "k" (demo_claims 1 j))
                    <$> ["a"; "b"; "c"; "d"; "e"] ]};
     sessionTokenVersions := {[ "u1" := 1 ]};
     loginAttempts := ∅;
     users := [] |}.

Definition bearer_header (t : token) : option (list token) :=
  Some [Opaque "Bearer"; t].

(** The token of the registration. *)
Definition demo_token : token := Jwt "k" (demo_claims 1 "j0").

(** Six logins of the applicant with the right password, and five with a
    wrong one. *)
Definition demo_logins : list login_req :=
  (λ j, mk_login 2000 j (Some "x@y.com") (Some "password1"))
    <$> ["j1"; "j2"; "j3"; "j4"; "j5"; "j6"].

(** The server with the applicant's e-mail throttled until time 902000. *)
Definition throttled_server : server :=
  {| activeSessions := activeSessions demo_server;
     sessionTokenVersions := sessionTokenVersions demo_server;
     loginAttempts :=
       {[ Some "x@y.com" := {| count := 5; resetTime := 902000 |} ]};
     users := users demo_server |}.

(** An administrator and a token issued to her. *)
Definition admin_row : user_row :=
  {| r_id := "a1"; r_email := "admin@college.edu";
     r_password_hash := "admin123"; r_name := "Admin User";
     r_role := Some "admin"; r_created_at := 0 |}.

Definition admin_token : token :=
  Jwt "k" {| pl_id := "a1"; pl_email := "admin@college.edu";
             pl_name := "Admin User"; pl_role := Some "admin";
             pl_sessionVersion := 1; pl_iat := 1; pl_exp := 86401;
             pl_jti := "ja" |}.

Definition staff_server : server :=
  {| activeSessions := ∅; sessionTokenVersions := ∅; loginAttempts := ∅;
     users := [admin_row; demo_row] |}.

(** ** The server

    The configuration and the [bcryptjs] package are parameters.
    [MAX_CONCURRENT_SESSIONS] is [parseInt(process.env...) || 5]. *)

Definition max_sessions_of_env (parsed : option Z) : Z := js_or parsed 5.

Section Server.

Variable JWT_SECRET : string.
Variable MAX_CONCURRENT_SESSIONS : Z.
Variable bcrypt_hash : string → string → string.
Variable bcrypt_compare : string → string → bool.

(** [generateToken(user)], at [Date.now() = now] and with [jti] the fresh
    [uuidv4()] of the call.  [expiresIn: '24h'] is 86400 seconds. *)
Definition generateToken (versions : gmap string Z) (now : Z) (jti : string)
    (u : user_info) : token :=
  Jwt JWT_SECRET
    {| pl_id := u_id u; pl_email := u_email u; pl_name := u_name u;
       pl_role := u_role u;
       pl_sessionVersion := js_or (versions !! u_id u) 1;
       pl_iat := now `div` 1000;
       pl_exp := now `div` 1000 + 86400;
       pl_jti := jti |}.

(** [authHeader && authHeader.split(' ')[1]]: the header is given by its
    space-separated pieces, [None] when the request has none. *)
Definition bearer (authHeader : option (list token)) : option token :=
  authHeader ≫= λ pieces, pieces !! 1%nat.

(** [validateSession]: the decoded payload when the request is accepted,
    the response otherwise. *)
Definition validateSession (s : server) (now : Z)
    (authHeader : option (list token)) : response + payload :=
  match bearer authHeader with
  | Some token =>
      if token_falsy (Some token) then inl (reply 401 "Authentication required")
      else
        match jwt_verify now token JWT_SECRET with
        | inr decoded =>
            match sessionTokenVersions s !! pl_id decoded with
            | Some currentVersion =>
                if bool_decide (currentVersion ≠ 0)
                   && bool_decide (pl_sessionVersion decoded ≠ currentVersion)
                then inl (reply 403 "Session invalidated. Please log in again.")
                else inr decoded
            | None => inr decoded
            end
        | inl TokenExpiredError =>
            inl (reply 401 "Session expired. Please log in again.")
        | inl JsonWebTokenError => inl (reply 403 "Invalid or expired token")
        end
  | None => inl (reply 401 "Authentication required")
  end.

(** [authenticateToken], the middleware every protected route uses. *)
Definition authenticateToken (now : Z) (authHeader : option (list token))
  : response + payload :=
  match bearer authHeader with
  | Some token =>
      if token_falsy (Some token) then inl (reply 401 "Authentication required")
      else
        match jwt_verify now token JWT_SECRET with
        | inl _ => inl (reply 403 "Invalid or expired token")
        | inr user => inr user
        end
  | None => inl (reply 401 "Authentication required")
  end.

(** The periodic cleanup: a set above the limit loses its oldest entries,
    [Array.from(tokens).slice(0, tokens.size - MAX_CONCURRENT_SESSIONS)]. *)
Definition sweep_set (tokens : list token) : list token :=
  if bool_decide (MAX_CONCURRENT_SESSIONS < Z.of_nat (length tokens))
  then foldl (λ acc t, set_delete t acc) tokens
         (take (Z.to_nat (Z.of_nat (length tokens) - MAX_CONCURRENT_SESSIONS))
            tokens)
  else tokens.

Definition sweep (s : server) : server :=
  with_activeSessions (sweep_set <$> activeSessions s) s.

(** [activeSessions.get(id)] after
    [if (!activeSessions.has(id)) activeSessions.set(id, new Set())]. *)
Definition sessions_of (s : server) (id : string) : list token :=
  default [] (activeSessions s !! id).

(** [POST /api/auth/register].  [id] and [jti] are the two [uuidv4()]
    values of the call, [salt] the randomness of [bcrypt.hash].  The
    default of [role = 'applicant'] in the destructuring applies to a
    field that is absent, not to [null]. *)
Definition register (s : server) (now : Z) (id jti salt : string)
    (email password name : option string) (role : role_field)
  : server * response :=
  let role := role_or_default role in
  match email, password, name with
  | Some email, Some password, Some name =>
      if bool_decide (email = "") || bool_decide (password = "")
         || bool_decide (name = "")
      then (s, reply 400 "Email, password, and name are required")
      else if negb (emailRegex_test email)
      then (s, reply 400 "Invalid email format")
      else if bool_decide (String.length password < 8)%nat
      then (s, reply 400 "Password must be at least 8 characters")
      else if bool_decide (is_Some (user_by_email (users s) email))
      then (s, reply 400 "Email already registered")
      else
        let hashedPassword := bcrypt_hash password salt in
        match insert_user (users s)
                {| r_id := id; r_email := email;
                   r_password_hash := hashedPassword; r_name := name;
                   r_role := role; r_created_at := now `div` 1000 |} with
        | None => (s, reply 500 "Registration failed")
        | Some db =>
            let s := with_users db s in
            let s := with_sessionTokenVersions
                       (<[id := 1]> (sessionTokenVersions s)) s in
            let user := {| u_id := id; u_email := email; u_name := name;
                           u_role := role |} in
            let token := generateToken (sessionTokenVersions s) now jti user in
            let s := with_activeSessions
                       (<[id := set_add token (sessions_of s id)]>
                          (activeSessions s)) s in
            (s, {| status := 201;
                   body := JAuth "Registration successful" user token |})
        end
  | _, _, _ => (s, reply 400 "Email, password, and name are required")
  end.

Definition windowMs : Z := 15 * 60 * 1000.
Definition maxAttempts : Z := 5.

(** [attemptData] once the handler has created the entry if it was missing
    and restarted the window if it had passed. *)
Definition attempt_window (s : server) (now : Z) (email : option string)
  : attempt :=
  let attemptData :=
    default {| count := 0; resetTime := now + windowMs |}
            (loginAttempts s !! email) in
  if bool_decide (resetTime attemptData < now)
  then {| count := 0; resetTime := now + windowMs |}
  else attemptData.

Definition store_attempt (email : option string) (a : attempt) (s : server)
  : server :=
  with_loginAttempts (<[email := a]> (loginAttempts s)) s.

Definition count_up (a : attempt) : attempt :=
  {| count := count a + 1; resetTime := resetTime a |}.

Definition count_zero (a : attempt) : attempt :=
  {| count := 0; resetTime := resetTime a |}.

(** The limit on concurrent sessions, applied by the login route after it
    has added the new token: above the limit the oldest session goes. *)
Definition enforce_limit (userSessions : list token) : list token :=
  if bool_decide (MAX_CONCURRENT_SESSIONS < Z.of_nat (length userSessions))
  then match set_first userSessions with
       | Some oldest => set_delete oldest userSessions
       | None => userSessions
       end
  else userSessions.

(** [POST /api/auth/login].  [attemptData] is an object shared with the
    map, so what the handler writes to it stays written on every path. *)
Definition login (s : server) (now : Z) (jti : string)
    (email password : option string) : server * response :=
  let attemptData := attempt_window s now email in
  let s := store_attempt email attemptData s in
  if bool_decide (maxAttempts ≤ count attemptData) then
    let remainingTime := js_ceil_div (resetTime attemptData - now) 60000 in
    (s, {| status := 429;
           body := JRateLimit
                     ("Too many login attempts. Please try again in "
                      +:+ pretty remainingTime +:+ " minutes.")
                     remainingTime |})
  else if str_falsy email || str_falsy password then
    (s, reply 400 "Email and password are required")
  else
    match user_by_email (users s) (default "" email) with
    | None =>
        (store_attempt email (count_up attemptData) s,
         reply 401 "Invalid email or password")
    | Some user =>
        if negb (bcrypt_compare (default "" password) (r_password_hash user))
        then (store_attempt email (count_up attemptData) s,
              reply 401 "Invalid email or password")
        else
          let s := store_attempt email (count_zero attemptData) s in
          let userForToken := info_of_row user in
          let token :=
            generateToken (sessionTokenVersions s) now jti userForToken in
          let userSessions :=
            enforce_limit (set_add token (sessions_of s (r_id user))) in
          (with_activeSessions
             (<[r_id user := userSessions]> (activeSessions s)) s,
           {| status := 200;
              body := JAuth "Login successful" userForToken token |})
    end.

(** [POST /api/auth/logout], behind [authenticateToken]. *)
Definition logout (s : server) (now : Z) (authHeader : option (list token))
  : server * response :=
  match authenticateToken now authHeader with
  | inl rejected => (s, rejected)
  | inr user =>
      let s :=
        match bearer authHeader, activeSessions s !! pl_id user with
        | Some token, Some tokens =>
            if token_falsy (Some token) then s
            else with_activeSessions
                   (<[pl_id user := set_delete token tokens]>
                      (activeSessions s)) s
        | _, _ => s
        end in
      (s, reply 200 "Logged out successfully")
  end.

(** [GET /api/auth/me], behind [authenticateToken]. *)
Definition auth_me (s : server) (now : Z) (authHeader : option (list token))
  : response :=
  match authenticateToken now authHeader with
  | inl rejected => rejected
  | inr user =>
      match user_by_id (users s) (pl_id user) with
      | None => reply 404 "User not found"
      | Some row => {| status := 200; body := JUser (info_of_row row) |}
      end
  end.

(** [GET /api/users], behind [authenticateToken]; the rows come
    [ORDER BY created_at DESC]. *)
Definition get_users (s : server) (now : Z) (authHeader : option (list token))
  : response :=
  match authenticateToken now authHeader with
  | inl rejected => rejected
  | inr user =>
      if bool_decide (pl_role user ≠ Some "admin")
      then reply 403 "Admin access required"
      else {| status := 200;
              body := JUsers (info_of_row <$> newest_first (users s)) |}
  end.

(** [PUT /api/users/:id/role], behind [authenticateToken]. *)
Definition put_user_role (s : server) (now : Z)
    (authHeader : option (list token)) (id : string) (role : option string)
  : server * response :=
  match authenticateToken now authHeader with
  | inl rejected => (s, rejected)
  | inr user =>
      if bool_decide (pl_role user ≠ Some "admin")
      then (s, reply 403 "Admin access required")
      else
        match role with
        | Some role =>
            if bool_decide (role ∈ valid_roles)
            then (with_users (update_role (users s) id role) s,
                  reply 200 "User role updated")
            else (s, reply 400 "Invalid role")
        | None => (s, reply 400 "Invalid role")
        end
  end.

(** The gate of the review routes ([GET /api/reviews] and its siblings),
    behind [authenticateToken]:
    [!['admin', 'officer'].includes(req.user.role)].  [None] lets the
    request through to the handler's body. *)
Definition reviews_gate (now : Z) (authHeader : option (list token))
  : option response :=
  match authenticateToken now authHeader with
  | inl rejected => Some rejected
  | inr user =>
      if bool_decide (pl_role user ∉ [Some "admin"; Some "officer"])
      then Some (reply 403 "Admin or officer access required")
      else None
  end.

(** Modelled from the spec: the version store's [currentVersion]
    ("returns stored version, defaulting to 1 if principal has never been
    recorded").  The source reads [sessionTokenVersions] and sets it to 1
    at registration; nothing in it increments a version. *)
Definition currentVersion (s : server) (id : string) : Z :=
  default 1 (sessionTokenVersions s !! id).

(** A token is valid in the words of the spec: the signature verifies, the
    current time is before the expiry, and the embedded session version is
    the principal's current version. *)
Definition valid_by_spec (s : server) (now : Z) (t : token) : Prop :=
  ∃ claims, t = Jwt JWT_SECRET claims
    ∧ now < 1000 * pl_exp claims
    ∧ pl_sessionVersion claims = currentVersion s (pl_id claims).

(** The request-validation middleware accepts the token. *)
Definition accepted (s : server) (now : Z) (t : token) : Prop :=
  ∃ decoded, validateSession s now (Some [Opaque "Bearer"; t]) = inr decoded.

(** A run of login requests; the responses come back in order. *)
Fixpoint login_run (s : server) (reqs : list login_req)
  : server * list response :=
  match reqs with
  | [] => (s, [])
  | q :: rest =>
      let '(s, r) := login s (lr_now q) (lr_jti q) (lr_email q)
                       (lr_password q) in
      let '(s, rs) := login_run s rest in
      (s, r :: rs)
  end.

(** The tokens that a run of successful logins of one user issues. *)
Definition tokens_of (versions : gmap string Z) (u : user_info)
    (reqs : list login_req) : list token :=
  (λ q, generateToken versions (lr_now q) (lr_jti q) u) <$> reqs.

(** The newest [n] entries of an insertion-ordered set. *)
Definition keep_last (n : Z) (l : list token) : list token :=
  drop (Z.to_nat (Z.of_nat (length l) - n)) l.

(** ** The states the server can reach

    The three maps start empty with the process, over whatever [users]
    table the database file holds.  Of all the routes only registration,
    login and logout write to a map, and so does the periodic sweep; every
    other route writes at most the [users] table (a role, a password or a
    profile changes, a row goes) and tables that are not modelled. *)
Inductive request :=
  | Register (now : Z) (id jti salt : string)
      (email password name : option string) (role : role_field)
  | Login (now : Z) (jti : string) (email password : option string)
  | Logout (now : Z) (authHeader : option (list token))
  | Sweep
  | OtherRoute (db : list user_row).

Definition handle (s : server) (q : request) : server :=
  match q with
  | Register now id jti salt email password name role =>
      (register s now id jti salt email password name role).1
  | Login now jti email password => (login s now jti email password).1
  | Logout now authHeader => (logout s now authHeader).1
  | Sweep => sweep s
  | OtherRoute db => with_users db s
  end.

(** The id that the registration route draws is a [uuidv4()]: nothing in
    the server knows it yet. *)
Definition fresh_id (s : server) (id : string) : Prop :=
  activeSessions s !! id = None
  ∧ sessionTokenVersions s !! id = None
  ∧ user_by_id (users s) id = None.

Definition admissible (s : server) (q : request) : Prop :=
  match q with
  | Register _ id _ _ _ _ _ _ => fresh_id s id
  | _ => True
  end.

Definition started (db : list user_row) : server :=
  {| activeSessions := ∅; sessionTokenVersions := ∅; loginAttempts := ∅;
     users := db |}.

Inductive reachable : server → Prop :=
  | reachable_start db : reachable (started db)
  | reachable_step s q :
      reachable s → admissible s q → reachable (handle s q).

(** ** Readings of the specification that the source does not meet

    Each is the statement as the specification words it; the properties
    below decide them. *)

(** Request validation accepts exactly the tokens that are valid in the
    words of the spec. *)
Definition validation_matches_spec : Prop :=
  ∀ s now t, accepted s now t ↔ valid_by_spec s now t.

(** Every rejection by a validation middleware has status 401. *)
Definition rejections_answer_401 : Prop :=
  ∀ s now authHeader r,
    validateSession s now authHeader = inl r
    ∨ authenticateToken now authHeader = inl r →
    status r = 401.

(** A throttled login reports the time to the window's reset in
    seconds. *)
Definition retry_after_in_seconds : Prop :=
  ∀ s now jti email password message retryAfter,
    (login s now jti email password).2
    = {| status := 429; body := JRateLimit message retryAfter |} →
    retryAfter
    = js_ceil_div (resetTime (attempt_window s now email) - now) 1000.

(** Logout answers 200 for every presented token. *)
Definition logout_always_200 : Prop :=
  ∀ s now scheme t rest,
    token_falsy (Some t) = false →
    status (logout s now (Some (scheme :: t :: rest))).2 = 200.

(** After a registration, a later login of the same principal, and the
    sweep, bring the size of the principal's set back within the
    maximum. *)
Definition bound_is_restored : Prop :=
  ∀ s now id jti salt email password name role,
    let registered :=
      register s now id jti salt email password name role in
    reachable s → fresh_id s id →
    status registered.2 = 201 →
    (∀ now' jti',
       let logged_in := login registered.1 now' jti' email password in
       status logged_in.2 = 200 →
       Z.of_nat (length (sessions_of logged_in.1 id))
       ≤ MAX_CONCURRENT_SESSIONS)
    ∧ Z.of_nat (length (sessions_of (sweep registered.1) id))
      ≤ MAX_CONCURRENT_SESSIONS.

(** A token whose session version is behind the version the store holds
    for its principal (in the spec's terms: a token issued before the
    principal's version was bumped) is refused by [GET /api/auth/me]. *)
Definition stale_tokens_rejected : Prop :=
  ∀ s now scheme t rest claims v,
    reachable s →
    jwt_verify now t JWT_SECRET = inr claims →
    sessionTokenVersions s !! pl_id claims = Some v →
    pl_sessionVersion claims < v →
    status (auth_me s now (Some (scheme :: t :: rest))) ≠ 200.

(** ** Invariants of the shared maps *)

(** Every registry entry is a set (no token twice) within the limit. *)
Definition registry_ok (s : server) : Prop :=
  ∀ id tokens, activeSessions s !! id = Some tokens →
    NoDup tokens ∧ Z.of_nat (length tokens) ≤ MAX_CONCURRENT_SESSIONS.

(** Every attempt counter is between 0 and the threshold. *)
Definition attempts_ok (s : server) : Prop :=
  ∀ email a, loginAttempts s !! email = Some a → 0 ≤ count a ≤ maxAttempts.

(** ** Input sanitisation *)

Definition dquote : ascii := ascii_of_nat 34.

(** [s.replace(/c/g, rep)] for a one-character pattern. *)
Definition replace_all (c : ascii) (rep : string) (s : list ascii)
  : list ascii :=
  s ≫= λ x, if Ascii.eqb x c then list_ascii_of_string rep else [x].

(** The six replacements at the end of [sanitizeString], in their order. *)
Definition encode_entities (s : list ascii) : list ascii :=
  replace_all "/" "&#x2F;"
    (replace_all "'" "&#x27;"
       (replace_all dquote "&quot;"
          (replace_all ">" "&gt;"
             (replace_all "<" "&lt;"
                (replace_all "&" "&amp;" s))))).

(** What the replacements make of one character, taken alone. *)
Definition encode_char (c : ascii) : list ascii :=
  if Ascii.eqb c "&" then list_ascii_of_string "&amp;"
  else if Ascii.eqb c "<" then list_ascii_of_string "&lt;"
  else if Ascii.eqb c ">" then list_ascii_of_string "&gt;"
  else if Ascii.eqb c dquote then list_ascii_of_string "&quot;"
  else if Ascii.eqb c "'" then list_ascii_of_string "&#x27;"
  else if Ascii.eqb c "/" then list_ascii_of_string "&#x2F;"
  else [c].

Definition html_special : list ascii := ["<"; ">"; dquote; "'"; "/"]%char.

(** [sanitizeString] on a string.  [prepare] stands for what comes before
    the entity encoding: [trim] and the removal of the matches of
    [dangerousPatterns]. *)
Definition sanitizeString (prepare : list ascii → list ascii) (str : string)
  : string :=
  string_of_list_ascii (encode_entities (prepare (list_ascii_of_string str))).

(** A JSON value, as [express.json()] hands it to the middleware.  A
    number is the rational [n / d] it denotes. *)
#[local] Unset Elimination Schemes.
Inductive jsval :=
  | JsNull
  | JsBool (b : bool)
  | JsNum (n : Z) (d : positive)
  | JsStr (s : string)
  | JsArr (items : list jsval)
  | JsObj (fields : list (string * jsval)).
#[local] Set Elimination Schemes.

(** [sanitizeInput]: strings are sanitised, arrays and the own properties
    of objects are walked, anything else is returned as it is.  The walk
    over an object calls [obj.hasOwnProperty(key)]: for an object that has
    a property of its own named [hasOwnProperty] (in a JSON body, never a
    function) the call throws, here [None].  The copy is built by
    [sanitized[key] = ...], which for the key [__proto__] sets the
    prototype of the copy and adds no property to it. *)
Fixpoint sanitizeInput (prepare : list ascii → list ascii) (obj : jsval)
  : option jsval :=
  match obj with
  | JsStr s => Some (JsStr (sanitizeString prepare s))
  | JsArr items => JsArr <$> mapM (sanitizeInput prepare) items
  | JsObj fields =>
      if bool_decide ("hasOwnProperty" ∈ fields.*1) then None
      else
        copied ← mapM (λ kv, pair kv.1 <$> sanitizeInput prepare kv.2) fields;
        Some (JsObj (filter (λ kv, kv.1 ≠ "__proto__") copied))
  | _ => Some obj
  end.

(** The strings at the leaves of a value, and the property names in it,
    both in document order. *)
Fixpoint strings_of (v : jsval) : list string :=
  match v with
  | JsStr s => [s]
  | JsArr items => concat (map strings_of items)
  | JsObj fields => concat (map (λ kv, strings_of kv.2) fields)
  | _ => []
  end.

Fixpoint keys_of (v : jsval) : list string :=
  match v with
  | JsArr items => concat (map keys_of items)
  | JsObj fields => concat (map (λ kv, kv.1 :: keys_of kv.2) fields)
  | _ => []
  end.

(** The value with every string leaf blanked: what is left is the shape,
    the property names, the numbers, the booleans and the nulls. *)
Fixpoint skeleton (v : jsval) : jsval :=
  match v with
  | JsStr _ => JsStr ""
  | JsArr items => JsArr (map skeleton items)
  | JsObj fields => JsObj (map (λ kv, (kv.1, skeleton kv.2)) fields)
  | _ => v
  end.

(** The middleware of [index.js] 181-200 runs before every route and
    replaces the body by [sanitizeInput(req.body)]: a handler reads the
    strings of the body as [sanitizeString] left them.  [prepare] is the
    first half of [sanitizeString], [trim] and the removal of the matches
    of [dangerousPatterns]; [sanitized] is what the middleware makes of a
    field that holds a string, if it is there. *)
Variable prepare : list ascii → list ascii.

Definition sanitized (field : option string) : option string :=
  sanitizeString prepare <$> field.

(** ** Further routes on the [users] table *)

(** [DELETE /api/users/:id], behind [authenticateToken].  The table
    declares no cascade and the registry is not consulted. *)
Definition delete_user (s : server) (now : Z)
    (authHeader : option (list token)) (id : string) : server * response :=
  match authenticateToken now authHeader with
  | inl rejected => (s, rejected)
  | inr user =>
      if bool_decide (pl_role user ≠ Some "admin")
      then (s, reply 403 "Admin access required")
      else if bool_decide (id = pl_id user)
      then (s, reply 400 "Cannot delete your own account")
      else (with_users (filter (λ r, r_id r ≠ id) (users s)) s,
            reply 200 "User deleted")
  end.

(** [UPDATE users SET password_hash = ? WHERE id = ?] *)
Definition update_password (db : list user_row) (id hash : string)
  : list user_row :=
  (λ r, if bool_decide (r_id r = id)
        then {| r_id := r_id r; r_email := r_email r;
                r_password_hash := hash; r_name := r_name r;
                r_role := r_role r;
                r_created_at := r_created_at r |}
        else r) <$> db.

(** The payload of a reset token, [{ id, type: 'password-reset' }] with
    [iat] and [exp]. *)
Record reset_claims := { rc_id : string; rc_iat : Z; rc_exp : Z }.

(** The [token] field of a reset request: any text a session token can be
    (a session JWT included), or a reset JWT. *)
Inductive body_token :=
  | SessionText (t : token)
  | ResetJwt (key : string) (claims : reset_claims).

(** The handler of [POST /api/auth/forgot-password], on the field as the
    middleware left it: the response, and the reset token that the
    handler writes to the log when the account exists.  [expiresIn: '1h']
    is 3600 seconds. *)
Definition forgot_password_handler (s : server) (now : Z)
    (email : option string) : response * option body_token :=
  if str_falsy email then (reply 400 "Email is required", None)
  else
    (reply 200
       "If an account exists with that email, a password reset link will be sent.",
     match user_by_email (users s) (default "" email) with
     | Some user =>
         Some (ResetJwt JWT_SECRET
                 {| rc_id := r_id user; rc_iat := now `div` 1000;
                    rc_exp := now `div` 1000 + 3600 |})
     | None => None
     end).

(** [POST /api/auth/forgot-password]: the middleware, then the handler. *)
Definition forgot_password (s : server) (now : Z) (email : option string)
  : response * option body_token :=
  forgot_password_handler s now (sanitized email).

Definition body_token_falsy (t : option body_token) : bool :=
  match t with
  | None => true
  | Some (SessionText t) => token_falsy (Some t)
  | Some (ResetJwt _ _) => false
  end.

(** [jwt.verify] on the [token] field, then [decoded.type !==
    'password-reset']: the id to reset, or the response of the failure. *)
Definition verify_reset (now : Z) (t : body_token) : response + string :=
  match t with
  | ResetJwt key claims =>
      if bool_decide (key = JWT_SECRET) then
        if bool_decide (rc_exp claims ≤ now `div` 1000)
        then inl (reply 400
                    "Reset token has expired. Please request a new one.")
        else inr (rc_id claims)
      else inl (reply 400 "Invalid reset token")
  | SessionText t =>
      match jwt_verify now t JWT_SECRET with
      | inr _ => inl (reply 400 "Invalid reset token")
      | inl TokenExpiredError =>
          inl (reply 400 "Reset token has expired. Please request a new one.")
      | inl JsonWebTokenError => inl (reply 400 "Invalid reset token")
      end
  end.

(** The handler of [POST /api/auth/reset-password], on the fields as the
    middleware left them; [salt] is the randomness of [bcrypt.hash]. *)
Definition reset_password_handler (s : server) (now : Z) (salt : string)
    (token : option body_token) (newPassword : option string)
  : server * response :=
  match token, newPassword with
  | Some token, Some newPassword =>
      if body_token_falsy (Some token) || bool_decide (newPassword = "")
      then (s, reply 400 "Token and new password are required")
      else if bool_decide (String.length newPassword < 6)%nat
      then (s, reply 400 "Password must be at least 6 characters")
      else
        match verify_reset now token with
        | inl rejected => (s, rejected)
        | inr id =>
            (with_users
               (update_password (users s) id (bcrypt_hash newPassword salt)) s,
             reply 200
               "Password reset successful. You can now log in with your new password.")
        end
  | _, _ => (s, reply 400 "Token and new password are required")
  end.

(** [POST /api/auth/reset-password]: the middleware, then the handler, so
    the length test and [bcrypt.hash] see the new password as
    [sanitizeString] rewrote it.  [token] is the token that the text of
    the [token] field denotes once the middleware has been over it; the
    text of a JWT (letters, digits, [-], [_] and [.]) it leaves alone. *)
Definition reset_password (s : server) (now : Z) (salt : string)
    (token : option body_token) (newPassword : option string)
  : server * response :=
  reset_password_handler s now salt token (sanitized newPassword).

(** The handler of [PUT /api/auth/password], behind [authenticateToken],
    on the fields as the middleware left them.  [None] is the handler
    throwing: it reads [user.password_hash] of a query that found no row,
    and nothing catches that. *)
Definition put_password_handler (s : server) (now : Z)
    (authHeader : option (list token)) (salt : string)
    (currentPassword newPassword : option string)
  : option (server * response) :=
  match authenticateToken now authHeader with
  | inl rejected => Some (s, rejected)
  | inr user =>
      if str_falsy currentPassword || str_falsy newPassword
         || bool_decide (String.length (default "" newPassword) < 6)%nat
      then Some (s, reply 400
                      "Current password and new password (6+ chars) required")
      else
        match user_by_id (users s) (pl_id user) with
        | None => None
        | Some row =>
            if negb (bcrypt_compare (default "" currentPassword)
                       (r_password_hash row))
            then Some (s, reply 401 "Current password is incorrect")
            else
              Some (with_users
                      (update_password (users s) (pl_id user)
                         (bcrypt_hash (default "" newPassword) salt)) s,
                    reply 200 "Password updated successfully")
        end
  end.

(** [PUT /api/auth/password]: the middleware, then the handler. *)
Definition put_password (s : server) (now : Z)
    (authHeader : option (list token)) (salt : string)
    (currentPassword newPassword : option string)
  : option (server * response) :=
  put_password_handler s now authHeader salt (sanitized currentPassword)
    (sanitized newPassword).

(** ** The status of an application *)

(** The columns of the [applications] table that the status route reads
    or writes. *)
Record application := {
  a_id : string;
  a_user_id : string;
  a_status : string;
  a_reviewed_by : option string
}.

Record status_response := {
  sr_status : Z;
  sr_message : string;
  sr_application : option application
}.

Definition status_reply (code : Z) (message : string) : status_response :=
  {| sr_status := code; sr_message := message; sr_application := None |}.

Definition validStatuses : list string :=
  ["draft"; "submitted"; "under_review"; "accepted"; "rejected"].

Definition application_by_id (apps : list application) (id : string)
  : option application :=
  list_find (λ a, a_id a = id) apps ≫= λ p, Some p.2.

(** [UPDATE applications SET status = ?, reviewed_by = ? WHERE id = ?] *)
Definition set_status (apps : list application) (id status reviewer : string)
  : list application :=
  (λ a, if bool_decide (a_id a = id)
        then {| a_id := a_id a; a_user_id := a_user_id a;
                a_status := status; a_reviewed_by := Some reviewer |}
        else a) <$> apps.

(** The handler of [PUT /api/applications/:id/status], behind
    [authenticateToken]; [requested] is the [status] field of the body as
    the middleware left it. *)
Definition put_application_status_handler (apps : list application) (now : Z)
    (authHeader : option (list token)) (id : string) (requested : option string)
  : list application * status_response :=
  match authenticateToken now authHeader with
  | inl rejected =>
      (apps, status_reply (status rejected)
               (match body rejected with JMessage m => m | _ => "" end))
  | inr user =>
      match requested with
      | None => (apps, status_reply 400 "Invalid status")
      | Some status =>
          if bool_decide (status ∉ validStatuses)
          then (apps, status_reply 400 "Invalid status")
          else
            match application_by_id apps id with
            | None => (apps, status_reply 404 "Application not found")
            | Some application =>
                if bool_decide (pl_role user = Some "applicant")
                   && bool_decide (a_user_id application ≠ pl_id user)
                then (apps, status_reply 403 "Access denied")
                else if bool_decide (pl_role user = Some "applicant")
                        && (bool_decide (status ≠ "submitted")
                            || bool_decide (a_status application ≠ "draft"))
                then (apps, status_reply 403
                              "Applicants can only submit draft applications")
                else if bool_decide
                          (status ∈ ["under_review"; "accepted"; "rejected"])
                        && bool_decide (pl_role user ∉ [Some "admin"; Some "officer"])
                then (apps, status_reply 403
                              "Only admissions officers can change to this status")
                else
                  let apps := set_status apps id status (pl_id user) in
                  (apps,
                   {| sr_status := 200; sr_message := "Status updated";
                      sr_application := application_by_id apps id |})
            end
      end
  end.

(** [PUT /api/applications/:id/status]: the middleware, then the handler;
    [requested] is the [status] field of the body. *)
Definition put_application_status (apps : list application) (now : Z)
    (authHeader : option (list token)) (id : string) (requested : option string)
  : list application * status_response :=
  put_application_status_handler apps now authHeader id (sanitized requested).

(** ** The onboarding helpers *)

(** JavaScript truthiness of a JSON value. *)
Definition js_truthy (v : jsval) : bool :=
  match v with
  | JsNull => false
  | JsBool b => b
  | JsNum n _ => negb (bool_decide (n = 0))
  | JsStr s => negb (bool_decide (s = ""))
  | JsArr _ => true
  | JsObj _ => true
  end.

(** [!!profile[field]]; a property that is not there is [undefined]. *)
Definition profile_has (profile : gmap string jsval) (field : string) : bool :=
  match profile !! field with
  | Some v => js_truthy v
  | None => false
  end.

(** [Math.round(a / b)] for integers [a ≥ 0] and [b > 0]. *)
Definition js_round_div (a b : Z) : Z := (2 * a + b) `div` (2 * b).

Definition calculateCompletion (profile : gmap string jsval) : Z :=
  let required :=
    ["firstName"; "lastName"; "email"; "programId"; "highSchool"] in
  let recommended :=
    ["gpa"; "satScore"; "extracurriculars"; "personalStatement";
     "recommendations"] in
  let total := Z.of_nat (length required + length recommended) in
  let completed :=
    Z.of_nat (length (filter (λ f, profile_has profile f = true) required)
              + length (filter (λ f, profile_has profile f = true)
                          recommended)) in
  Z.min (js_round_div (completed * 100) total) 100.

Record missing_item := {
  mi_field : string;
  mi_label : string;
  mi_priority : string
}.

Definition getMissingItems (profile : gmap string jsval) : list missing_item :=
  let required :=
    [("firstName", "First Name"); ("lastName", "Last Name");
     ("email", "Email Address"); ("programId", "Program Selection");
     ("highSchool", "High School/College"); ("gpa", "GPA");
     ("personalStatement", "Personal Statement")] in
  let recommended :=
    [("satScore", "SAT/ACT Score");
     ("extracurriculars", "Extracurricular Activities");
     ("recommendations", "Recommendation Letters")] in
  ((λ item, {| mi_field := item.1; mi_label := item.2;
               mi_priority := "required" |})
     <$> filter (λ item, profile_has profile item.1 = false) required)
  ++ ((λ item, {| mi_field := item.1; mi_label := item.2;
                  mi_priority := "recommended" |})
        <$> filter (λ item, profile_has profile item.1 = false) recommended).

(** [calculateReadiness]: the level and the message. *)
Definition calculateReadiness (profile : gmap string jsval) : string * string :=
  let missing := getMissingItems profile in
  if bool_decide (length missing = 0%nat)
  then ("ready", "Ready to submit!")
  else if bool_decide
            (2 < length (filter (λ m, mi_priority m = "required") missing))%nat
  then ("needs_work", "Complete required fields before submission")
  else if bool_decide (0 < length missing)%nat
  then ("almost", "Almost there! Complete missing items")
  else ("ready", "Ready to submit!").

(** [!profile.recommendations?.length] *)
Definition has_length (profile : gmap string jsval) (field : string) : bool :=
  match profile !! field with
  | Some (JsStr s) => negb (bool_decide (s = ""))
  | Some (JsArr items) => negb (bool_decide (items = []))
  | Some (JsObj fields) =>
      match list_find (λ kv, kv.1 = "length") (reverse fields) with
      | Some (_, kv) => js_truthy kv.2
      | None => false
      end
  | _ => false
  end.

Definition determinePhase (profile : gmap string jsval) : string :=
  if negb (profile_has profile "firstName")
     || negb (profile_has profile "lastName")
     || negb (profile_has profile "email")
  then "profile"
  else if negb (profile_has profile "programId") then "program_selection"
  else if negb (profile_has profile "gpa")
          || negb (profile_has profile "highSchool")
  then "academic"
  else if negb (profile_has profile "personalStatement") then "essay"
  else if negb (has_length profile "recommendations") then "documents"
  else "review".

(** A request body and a profile for the examples: the profile has all
    but the SAT score. *)
Definition demo_body : jsval :=
  JsObj [("name", JsStr "<b>Al</b>");
         ("tags", JsArr [JsStr "a/b"; JsNum 3 1])].

Definition demo_profile : gmap string jsval :=
  list_to_map
    [("firstName", JsStr "Al"); ("lastName", JsStr "Li");
     ("email", JsStr "x@y.com"); ("programId", JsNum 7 1);
     ("highSchool", JsStr "Central"); ("gpa", JsNum 37 10);
     ("extracurriculars", JsStr "chess");
     ("personalStatement", JsStr "I build things.");
     ("recommendations", JsArr [JsStr "Ms. Smith"])].

(** * Properties of the server *)

(** ** Helper facts *)

Lemma not_expired_iff (now e : Z) : ¬ e ≤ now `div` 1000 ↔ now < 1000 * e.
Proof.
  split.
  - intros H. destruct (Z.lt_ge_cases now (1000 * e)) as [|Hge]; [done|].
    exfalso. apply H. apply Z.div_le_lower_bound; lia.
  - intros H Hle. assert (now `div` 1000 < e); [|lia].
    apply Z.div_lt_upper_bound; lia.
Qed.

Lemma jwt_verify_ok now t secret claims :
  jwt_verify now t secret = inr claims
  ↔ t = Jwt secret claims ∧ now < 1000 * pl_exp claims.
Proof.
  unfold jwt_verify. destruct t as [text|key c].
  { split; [done|]. by intros [? _]. }
  destruct (bool_decide (key = secret)) eqn:Hk.
  - apply bool_decide_eq_true in Hk as ->.
    destruct (bool_decide (pl_exp c ≤ now `div` 1000)) eqn:He.
    + apply bool_decide_eq_true in He.
      split; [done|]. intros [[= ->] Hlt]. by apply not_expired_iff in Hlt.
    + apply bool_decide_eq_false in He. apply not_expired_iff in He.
      split; [by intros [= ->]|]. by intros [[= ->] _].
  - apply bool_decide_eq_false in Hk.
    split; [done|]. intros [[= -> ->] _]. done.
Qed.

Lemma jwt_verify_expired now t secret :
  jwt_verify now t secret = inl TokenExpiredError
  ↔ ∃ claims, t = Jwt secret claims ∧ 1000 * pl_exp claims ≤ now.
Proof.
  unfold jwt_verify. destruct t as [text|key c].
  { split; [done|]. by intros (? & ? & _). }
  destruct (bool_decide (key = secret)) eqn:Hk.
  - apply bool_decide_eq_true in Hk as ->.
    destruct (bool_decide (pl_exp c ≤ now `div` 1000)) eqn:He.
    + apply bool_decide_eq_true in He.
      split; [|done]. intros _. exists c. split; [done|].
      destruct (Z.lt_ge_cases now (1000 * pl_exp c)) as [Hlt|]; [|done].
      by apply not_expired_iff in Hlt.
    + apply bool_decide_eq_false in He. apply not_expired_iff in He.
      split; [done|]. intros (c' & [= ->] & Hle). lia.
  - apply bool_decide_eq_false in Hk.
    split; [done|]. intros (c' & [= -> ->] & _). done.
Qed.

Lemma bearer_second scheme t rest : bearer (Some (scheme :: t :: rest)) = Some t.
Proof. done. Qed.

Lemma jwt_not_falsy key claims : token_falsy (Some (Jwt key claims)) = false.
Proof. done. Qed.

(** ** Request validation *)

(** C2 (as amended): [validateSession] accepts a token exactly when its
    signature verifies under the server secret, the current time is before
    its expiry, and either the version store holds no version (or the
    falsy version 0) for the token's principal or the embedded session
    version equals the stored one. *)
Theorem validateSession_accepts_iff s now scheme t rest :
  (∃ decoded, validateSession s now (Some (scheme :: t :: rest)) = inr decoded)
  ↔ ∃ claims, t = Jwt JWT_SECRET claims
      ∧ now < 1000 * pl_exp claims
      ∧ match sessionTokenVersions s !! pl_id claims with
        | Some v => v = 0 ∨ pl_sessionVersion claims = v
        | None => True
        end.
Proof.
  unfold validateSession. rewrite bearer_second.
  destruct (jwt_verify now t JWT_SECRET) as [e|c] eqn:Hv.
  - assert (¬ ∃ claims, t = Jwt JWT_SECRET claims ∧ now < 1000 * pl_exp claims)
      as Hnot.
    { intros (c & Ht & Hlt).
      assert (jwt_verify now t JWT_SECRET = inr c) by by apply jwt_verify_ok.
      congruence. }
    split.
    + destruct (token_falsy (Some t)), e; by intros [? ?].
    + intros (c & Ht & Hlt & _). destruct Hnot. eauto.
  - apply jwt_verify_ok in Hv as [-> Hlt]. rewrite jwt_not_falsy.
    split.
    + intros [d Hd]. exists c. split_and!; [done..|].
      destruct (sessionTokenVersions s !! pl_id c) as [v|]; [|done].
      destruct (decide (v = 0)) as [|Hv0]; [by left|right].
      destruct (decide (pl_sessionVersion c = v)) as [|Hne]; [done|].
      rewrite !bool_decide_eq_true_2 in Hd by done. done.
    + intros (c' & [= <-] & _ & Hm).
      destruct (sessionTokenVersions s !! pl_id c) as [v|]; [|by eauto].
      destruct Hm as [->|Heq].
      * rewrite (bool_decide_eq_false_2 (0 ≠ 0)) by (intros H; by apply H).
        simpl. by eauto.
      * rewrite (bool_decide_eq_false_2 (pl_sessionVersion c ≠ v))
          by (intros H; by apply H).
        rewrite andb_false_r. by eauto.
Qed.

(** ** Failure kinds and their statuses *)

(** C3 (as amended): a request without a token gets 401 from both
    middlewares; a token whose structure or signature is bad gets 403 from
    both; an expired token gets 401 from [validateSession] and 403 from
    [authenticateToken]; a session-version mismatch gets 403 from
    [validateSession]; the login throttle answers 429; a role failure gets
    403.  Each message is a fixed text (the throttle's names the minutes
    left and nothing else). *)
Theorem failure_statuses s now authHeader :
  (token_falsy (bearer authHeader) = true →
     validateSession s now authHeader
       = inl (reply 401 "Authentication required")
     ∧ authenticateToken now authHeader
       = inl (reply 401 "Authentication required"))
  ∧ (∀ t, bearer authHeader = Some t → token_falsy (Some t) = false →
       match jwt_verify now t JWT_SECRET with
       | inl JsonWebTokenError =>
           validateSession s now authHeader
             = inl (reply 403 "Invalid or expired token")
           ∧ authenticateToken now authHeader
             = inl (reply 403 "Invalid or expired token")
       | inl TokenExpiredError =>
           validateSession s now authHeader
             = inl (reply 401 "Session expired. Please log in again.")
           ∧ authenticateToken now authHeader
             = inl (reply 403 "Invalid or expired token")
       | inr decoded =>
           authenticateToken now authHeader = inr decoded
           ∧ (∀ v, sessionTokenVersions s !! pl_id decoded = Some v →
                v ≠ 0 → pl_sessionVersion decoded ≠ v →
                validateSession s now authHeader
                  = inl (reply 403 "Session invalidated. Please log in again."))
           ∧ (pl_role decoded ≠ Some "admin" →
                get_users s now authHeader
                  = reply 403 "Admin access required")
       end)
  ∧ (∀ jti email password,
       maxAttempts ≤ count (attempt_window s now email) →
       let minutes :=
         js_ceil_div (resetTime (attempt_window s now email) - now) 60000 in
       (login s now jti email password).2
         = {| status := 429;
              body := JRateLimit
                        ("Too many login attempts. Please try again in "
                         +:+ pretty minutes +:+ " minutes.") minutes |}).
Proof.
  split_and!.
  - unfold validateSession, authenticateToken.
    destruct (bearer authHeader) as [t|]; [|done]. by intros ->.
  - intros t Hb Hf. unfold get_users, validateSession, authenticateToken.
    rewrite Hb, Hf.
    destruct (jwt_verify now t JWT_SECRET) as [[]|d]; [done..|].
    split_and!; [done| |].
    + intros v -> Hv Hne. by rewrite !bool_decide_eq_true_2.
    + intros Hr. by rewrite bool_decide_eq_true_2.
  - intros jti email password Hc. unfold login.
    by rewrite bool_decide_eq_true_2.
Qed.

(** ** Logout *)

(** C7 (as amended): [POST /api/auth/logout] sits behind
    [authenticateToken].  For a presented token that verifies (signature
    and expiry) it removes that token from the principal's registry entry
    and answers 200; for any other presented token it answers 403 and
    leaves the server state as it was. *)
Theorem logout_behind_gate s now scheme t rest :
  token_falsy (Some t) = false →
  match jwt_verify now t JWT_SECRET with
  | inr user =>
      (logout s now (Some (scheme :: t :: rest))).2
        = reply 200 "Logged out successfully"
      ∧ (activeSessions (logout s now (Some (scheme :: t :: rest))).1
           !! pl_id user)
        = (set_delete t <$> (activeSessions s !! pl_id user))
      ∧ t ∉ sessions_of (logout s now (Some (scheme :: t :: rest))).1
              (pl_id user)
  | inl _ =>
      logout s now (Some (scheme :: t :: rest))
        = (s, reply 403 "Invalid or expired token")
  end.
Proof.
  intros Hf. unfold logout, authenticateToken. rewrite bearer_second, Hf.
  destruct (jwt_verify now t JWT_SECRET) as [e|user]; [done|].
  unfold sessions_of.
  destruct (activeSessions s !! pl_id user) as [tokens|] eqn:Hs; simpl.
  - rewrite lookup_insert_eq. simpl. split_and!; [done..|].
    unfold set_delete. rewrite list_elem_of_filter. by intros [? _].
  - rewrite Hs. simpl. split_and!; [done..|]. apply not_elem_of_nil.
Qed.

(** C6: logging out with a valid token answers 200, removes exactly that
    token from the principal's registry entry (the other tokens stay, in
    their order), leaves the version store and every other principal's
    entry as they were, and so leaves the outcome of request validation
    unchanged for every token. *)
Theorem logout_frame s now scheme t rest user :
  jwt_verify now t JWT_SECRET = inr user →
  let s' := (logout s now (Some (scheme :: t :: rest))).1 in
  (logout s now (Some (scheme :: t :: rest))).2
    = reply 200 "Logged out successfully"
  ∧ sessions_of s' (pl_id user) = set_delete t (sessions_of s (pl_id user))
  ∧ (∀ t', t' ≠ t →
       (t' ∈ sessions_of s' (pl_id user) ↔ t' ∈ sessions_of s (pl_id user)))
  ∧ (t ∉ sessions_of s' (pl_id user))
  ∧ sessionTokenVersions s' = sessionTokenVersions s
  ∧ (∀ other, other ≠ pl_id user →
       activeSessions s' !! other = activeSessions s !! other)
  ∧ (∀ now' authHeader,
       validateSession s' now' authHeader = validateSession s now' authHeader
       ∧ auth_me s' now' authHeader = auth_me s now' authHeader).
Proof.
  intros Hv s'.
  assert (token_falsy (Some t) = false) as Hf.
  { apply jwt_verify_ok in Hv as [-> _]. done. }
  assert (sessions_of s' (pl_id user) = set_delete t (sessions_of s (pl_id user))
          ∧ sessionTokenVersions s' = sessionTokenVersions s
          ∧ users s' = users s
          ∧ (∀ other, other ≠ pl_id user →
               activeSessions s' !! other = activeSessions s !! other))
    as (Hset & Hver & Husers & Hother).
  { subst s'. unfold logout, authenticateToken, sessions_of.
    rewrite bearer_second, Hf, Hv.
    destruct (activeSessions s !! pl_id user) as [tokens|] eqn:Hs; simpl.
    - rewrite lookup_insert_eq. split_and!; [done..|].
      intros other Hne. by rewrite lookup_insert_ne.
    - rewrite Hs. done. }
  split_and!; [|done| | |done|done|].
  - unfold logout, authenticateToken. by rewrite bearer_second, Hf, Hv.
  - intros t' Hne. rewrite Hset. unfold set_delete.
    rewrite list_elem_of_filter. split; [by intros [_ ?]|by intros ?].
  - rewrite Hset. unfold set_delete. rewrite list_elem_of_filter.
    by intros [? _].
  - intros now' authHeader. unfold validateSession, auth_me.
    by rewrite Hver, Husers.
Qed.

(** ** Role gates *)

(** C9: the status a role-gated route answers depends on the presented
    token and the clock alone.  A token that verifies gets 200 from
    [GET /api/users] exactly when its own role claim is ["admin"], and
    passes the gate of the review routes exactly when its role claim is
    ["admin"] or ["officer"], whatever the [users] table says; so the
    status is the same before and after any [PUT /api/users/:id/role],
    and a token past its expiry gets 403. *)
Theorem role_gate_reads_token_only s now scheme t rest :
  match jwt_verify now t JWT_SECRET with
  | inr user =>
      status (get_users s now (Some (scheme :: t :: rest)))
        = (if bool_decide (pl_role user = Some "admin") then 200 else 403)
      ∧ reviews_gate now (Some (scheme :: t :: rest))
        = (if bool_decide (pl_role user ∈ [Some "admin"; Some "officer"]) then None
           else Some (reply 403 "Admin or officer access required"))
  | inl _ =>
      token_falsy (Some t) = false →
      get_users s now (Some (scheme :: t :: rest))
        = reply 403 "Invalid or expired token"
  end
  ∧ ∀ now_a header_a id role,
      let s' := (put_user_role s now_a header_a id role).1 in
      ∀ now' authHeader id' role',
        status (get_users s' now' authHeader)
          = status (get_users s now' authHeader)
        ∧ status (put_user_role s' now' authHeader id' role').2
          = status (put_user_role s now' authHeader id' role').2.
Proof.
  split.
  - unfold get_users, reviews_gate, authenticateToken. rewrite bearer_second.
    destruct (jwt_verify now t JWT_SECRET) as [e|user] eqn:Hv.
    + by intros ->.
    + apply jwt_verify_ok in Hv as [-> _]. rewrite jwt_not_falsy. split.
      * destruct (decide (pl_role user = Some "admin")) as [Hr|Hr].
        -- rewrite bool_decide_eq_false_2 by (intros H; by apply H).
           by rewrite bool_decide_eq_true_2.
        -- rewrite bool_decide_eq_true_2 by done.
           by rewrite bool_decide_eq_false_2.
      * destruct (decide (pl_role user ∈ [Some "admin"; Some "officer"])) as [Hr|Hr].
        -- rewrite bool_decide_eq_false_2 by (intros H; by apply H).
           by rewrite bool_decide_eq_true_2.
        -- rewrite bool_decide_eq_true_2 by done.
           by rewrite bool_decide_eq_false_2.
  - intros now_a header_a id role s' now' authHeader id' role'.
    unfold get_users, put_user_role.
    destruct (authenticateToken now' authHeader) as [r|user]; [done|].
    destruct (bool_decide (pl_role user ≠ Some "admin")); [done|].
    split; [done|].
    destruct role' as [role'|]; [|done].
    by destruct (bool_decide (role' ∈ valid_roles)).
Qed.

(** ** Session versions *)

Lemma generateToken_verifies versions now0 jti u now :
  now < 1000 * (now0 `div` 1000 + 86400) →
  ∃ claims,
    generateToken versions now0 jti u = Jwt JWT_SECRET claims
    ∧ jwt_verify now (generateToken versions now0 jti u) JWT_SECRET
      = inr claims
    ∧ pl_id claims = u_id u ∧ pl_role claims = u_role u
    ∧ pl_sessionVersion claims = js_or (versions !! u_id u) 1.
Proof.
  intros Hlt. eexists. split; [done|]. split; [|done].
  by apply jwt_verify_ok.
Qed.

(** ** The login throttle *)

Lemma store_attempt_twice email a b s :
  store_attempt email b (store_attempt email a s) = store_attempt email b s.
Proof.
  unfold store_attempt, with_loginAttempts. simpl.
  by rewrite insert_insert_eq.
Qed.

Lemma store_attempt_same email a s :
  loginAttempts s !! email = Some a → store_attempt email a s = s.
Proof.
  intros H. destruct s. unfold store_attempt, with_loginAttempts. simpl in *.
  by rewrite insert_id.
Qed.

Lemma attempt_window_kept s now email a :
  loginAttempts s !! email = Some a → now ≤ resetTime a →
  attempt_window s now email = a.
Proof.
  intros H Hle. unfold attempt_window. rewrite H. simpl.
  rewrite bool_decide_eq_false_2; [done|lia].
Qed.

Lemma attempt_window_passed s now email a :
  loginAttempts s !! email = Some a → resetTime a < now →
  attempt_window s now email = {| count := 0; resetTime := now + windowMs |}.
Proof.
  intros H Hlt. unfold attempt_window. rewrite H. simpl.
  by rewrite bool_decide_eq_true_2.
Qed.

Lemma attempt_window_bounds s now email :
  (∀ a, loginAttempts s !! email = Some a → 0 ≤ count a) →
  0 ≤ count (attempt_window s now email)
  ∧ now ≤ resetTime (attempt_window s now email).
Proof.
  intros Hc. unfold attempt_window, windowMs.
  destruct (loginAttempts s !! email) as [a|] eqn:Ha; simpl.
  - case_bool_decide; simpl; [lia|]. split; [by apply Hc|lia].
  - rewrite bool_decide_eq_false_2; simpl; lia.
Qed.

(** What a rejected attempt (status 429) and a failed attempt (status 401)
    do to the state. *)
Lemma login_limited s now jti email password :
  maxAttempts ≤ count (attempt_window s now email) →
  login s now jti email password
  = (store_attempt email (attempt_window s now email) s,
     let minutes :=
       js_ceil_div (resetTime (attempt_window s now email) - now) 60000 in
     {| status := 429;
        body := JRateLimit
                  ("Too many login attempts. Please try again in "
                   +:+ pretty minutes +:+ " minutes.") minutes |}).
Proof. intros H. unfold login. by rewrite bool_decide_eq_true_2. Qed.

Lemma login_failed s now jti email password :
  status (login s now jti email password).2 = 401 →
  (login s now jti email password).1
  = store_attempt email (count_up (attempt_window s now email)) s
  ∧ count (attempt_window s now email) < maxAttempts.
Proof.
  unfold login.
  destruct (bool_decide (maxAttempts ≤ count (attempt_window s now email)))
    eqn:Hc; [done|].
  apply bool_decide_eq_false in Hc.
  destruct (str_falsy email || str_falsy password); [done|].
  simpl.
  destruct (user_by_email (users s) (default "" email)) as [row|].
  - destruct (bcrypt_compare _ _); simpl; [done|].
    intros _. rewrite store_attempt_twice. split; [done|lia].
  - simpl. intros _. rewrite store_attempt_twice. split; [done|lia].
Qed.

Lemma login_succeeds s now jti em password row :
  count (attempt_window s now (Some em)) < maxAttempts →
  em ≠ "" → password ≠ "" →
  user_by_email (users s) em = Some row →
  bcrypt_compare password (r_password_hash row) = true →
  (login s now jti (Some em) (Some password)).2
  = {| status := 200;
       body := JAuth "Login successful" (info_of_row row)
                 (generateToken (sessionTokenVersions s) now jti
                    (info_of_row row)) |}.
Proof.
  intros Hc Hem Hpw Hrow Hcmp. unfold login.
  rewrite bool_decide_eq_false_2 by lia. simpl.
  rewrite !bool_decide_eq_false_2 by done. simpl.
  by rewrite Hrow, Hcmp.
Qed.

Lemma ceil_div_pos (x d : Z) : 0 < d → 0 < x → 0 < js_ceil_div x d.
Proof.
  intros Hd Hx. unfold js_ceil_div.
  assert ((- x) `div` d < 0); [|lia].
  apply Z.div_lt_upper_bound; lia.
Qed.

(** C5 (as amended): after five failed login attempts for an e-mail within
    one window, every further attempt up to the window's reset time is
    rejected with status 429 and leaves the state as it was; the response
    carries [retryAfter], the time left until the reset in whole minutes,
    rounded up, which is positive strictly before the reset time.  Once
    the reset time has passed, a login with correct credentials answers
    200 with a fresh token. *)
Theorem throttle_after_five_failures s email t1 t2 t3 t4 t5
    j1 j2 j3 j4 j5 p1 p2 p3 p4 p5 :
  let R := resetTime (attempt_window s t1 email) in
  let run :=
    login_run s [mk_login t1 j1 email p1; mk_login t2 j2 email p2;
                 mk_login t3 j3 email p3; mk_login t4 j4 email p4;
                 mk_login t5 j5 email p5] in
  (∀ a, loginAttempts s !! email = Some a → 0 ≤ count a) →
  t2 ≤ R → t3 ≤ R → t4 ≤ R → t5 ≤ R →
  Forall (λ r, status r = 401) run.2 →
  (∀ t6 j6 p6, t6 ≤ R →
     login run.1 t6 j6 email p6
     = (run.1,
        let minutes := js_ceil_div (R - t6) 60000 in
        {| status := 429;
           body := JRateLimit
                     ("Too many login attempts. Please try again in "
                      +:+ pretty minutes +:+ " minutes.") minutes |})
     ∧ (t6 < R → 0 < js_ceil_div (R - t6) 60000))
  ∧ (∀ t7 j7 em p7 row,
       R < t7 → email = Some em → p7 ≠ "" →
       user_by_email (users s) em = Some row →
       bcrypt_compare p7 (r_password_hash row) = true →
       (login run.1 t7 j7 email (Some p7)).2
       = {| status := 200;
            body := JAuth "Login successful" (info_of_row row)
                      (generateToken (sessionTokenVersions s) t7 j7
                         (info_of_row row)) |}).
Proof.
  intros R run Hcount H2 H3 H4 H5 Hall.
  destruct (attempt_window_bounds s t1 email Hcount) as [Hc0 _].
  set (a1 := attempt_window s t1 email) in *.
  subst run. cbn [login_run lr_now lr_jti lr_email lr_password mk_login] in *.
  destruct (login s t1 j1 email p1) as [s1 r1] eqn:E1.
  destruct (login s1 t2 j2 email p2) as [s2 r2] eqn:E2.
  destruct (login s2 t3 j3 email p3) as [s3 r3] eqn:E3.
  destruct (login s3 t4 j4 email p4) as [s4 r4] eqn:E4.
  destruct (login s4 t5 j5 email p5) as [s5 r5] eqn:E5.
  cbn [fst snd] in *.
  apply Forall_cons in Hall as [F1 Hall].
  apply Forall_cons in Hall as [F2 Hall].
  apply Forall_cons in Hall as [F3 Hall].
  apply Forall_cons in Hall as [F4 Hall].
  apply Forall_cons in Hall as [F5 _].
  assert (∀ sa sb now jti p r a,
            login sa now jti email p = (sb, r) → status r = 401 →
            loginAttempts sa !! email = Some a → now ≤ resetTime a →
            sb = store_attempt email (count_up a) sa) as Hstep.
  { intros sa sb now jti p r a E F Ha Hle.
    pose proof (login_failed sa now jti email p) as Hf.
    rewrite E in Hf. destruct (Hf F) as [Hsb _]. cbn [fst] in Hsb.
    by rewrite Hsb, (attempt_window_kept sa now email a). }
  pose proof (login_failed s t1 j1 email p1) as Hf1.
  rewrite E1 in Hf1. destruct (Hf1 F1) as [Hs1 _]. cbn [fst] in Hs1.
  fold a1 in Hs1.
  assert (loginAttempts s1 !! email = Some (count_up a1)) as L1.
  { rewrite Hs1. simpl. by rewrite lookup_insert_eq. }
  pose proof (Hstep _ _ _ _ _ _ _ E2 F2 L1 H2) as Hs2.
  assert (loginAttempts s2 !! email = Some (count_up (count_up a1))) as L2.
  { rewrite Hs2. simpl. by rewrite lookup_insert_eq. }
  pose proof (Hstep _ _ _ _ _ _ _ E3 F3 L2 H3) as Hs3.
  assert (loginAttempts s3 !! email
          = Some (count_up (count_up (count_up a1)))) as L3.
  { rewrite Hs3. simpl. by rewrite lookup_insert_eq. }
  pose proof (Hstep _ _ _ _ _ _ _ E4 F4 L3 H4) as Hs4.
  assert (loginAttempts s4 !! email
          = Some (count_up (count_up (count_up (count_up a1))))) as L4.
  { rewrite Hs4. simpl. by rewrite lookup_insert_eq. }
  pose proof (Hstep _ _ _ _ _ _ _ E5 F5 L4 H5) as Hs5.
  set (a5 := count_up (count_up (count_up (count_up (count_up a1))))) in *.
  assert (loginAttempts s5 !! email = Some a5) as L5.
  { rewrite Hs5. simpl. by rewrite lookup_insert_eq. }
  assert (resetTime a5 = R ∧ count a5 = count a1 + 5) as [HR5 Hc5].
  { subst a5 R. simpl. split; [done|lia]. }
  assert (users s5 = users s ∧ sessionTokenVersions s5 = sessionTokenVersions s)
    as [Hu Hv].
  { rewrite Hs5, Hs4, Hs3, Hs2, Hs1. done. }
  split.
  - intros t6 j6 p6 H6.
    assert (attempt_window s5 t6 email = a5) as Hw
      by (apply attempt_window_kept; [done|lia]).
    split.
    + rewrite login_limited; rewrite Hw; [|unfold maxAttempts; lia].
      rewrite (store_attempt_same _ _ _ L5). by rewrite HR5.
    + intros Hlt. apply ceil_div_pos; lia.
  - intros t7 j7 em p7 row H7 -> Hp7 Hrow Hcmp.
    assert (attempt_window s5 t7 (Some em)
            = {| count := 0; resetTime := t7 + windowMs |}) as Hw
      by (eapply attempt_window_passed; [done|lia]).
    rewrite <- Hv. apply login_succeeds; [by rewrite Hw| |done|by rewrite Hu|done].
    intros ->.
    unfold login in E1.
    destruct (bool_decide (maxAttempts ≤ _)) in E1;
      [by injection E1 as _ <-|].
    simpl in E1. by injection E1 as _ <-.
Qed.

(** ** The session registry *)

Lemma set_delete_absent t l : t ∉ l → set_delete t l = l.
Proof.
  intros H. unfold set_delete. induction l as [|x l IH]; [done|].
  apply not_elem_of_cons in H as [Hne Hl].
  rewrite filter_cons_True by done. by rewrite IH.
Qed.

Lemma set_delete_head t l : t ∉ l → set_delete t (t :: l) = l.
Proof.
  intros H. unfold set_delete.
  rewrite filter_cons_False by (intros Hne; by apply Hne).
  by apply set_delete_absent.
Qed.

Lemma set_add_fresh t l : t ∉ l → set_add t l = l ++ [t].
Proof. intros H. unfold set_add. by rewrite bool_decide_eq_false_2. Qed.

Lemma keep_last_all n l : Z.of_nat (length l) ≤ n → keep_last n l = l.
Proof.
  intros H. unfold keep_last.
  replace (Z.to_nat (Z.of_nat (length l) - n)) with 0%nat by lia. done.
Qed.

Lemma keep_last_length n l :
  0 ≤ n → Z.of_nat (length (keep_last n l)) ≤ n.
Proof. intros H. unfold keep_last. rewrite length_drop. lia. Qed.

Lemma keep_last_app n l r :
  0 ≤ n → keep_last n (keep_last n l ++ r) = keep_last n (l ++ r).
Proof.
  intros Hn. destruct (Z.le_gt_cases (Z.of_nat (length l)) n) as [Hle|Hgt].
  { by rewrite (keep_last_all n l). }
  unfold keep_last. rewrite !length_app, length_drop.
  set (k := Z.to_nat (Z.of_nat (length l) - n)).
  replace (Z.to_nat (Z.of_nat (length l - k + length r) - n))
    with (length r) by lia.
  replace (Z.to_nat (Z.of_nat (length l + length r) - n))
    with (k + length r)%nat by lia.
  rewrite <- drop_drop. f_equal.
  rewrite drop_app_le by lia. done.
Qed.

(** What the login route makes of a set below, or at, the limit. *)
Lemma enforce_limit_fresh t old :
  NoDup old → t ∉ old →
  enforce_limit (set_add t old)
  = if bool_decide (MAX_CONCURRENT_SESSIONS ≤ Z.of_nat (length old))
    then tail (old ++ [t])
    else old ++ [t].
Proof.
  intros Hnd Hfresh. rewrite set_add_fresh by done. unfold enforce_limit.
  rewrite length_app. simpl.
  destruct (decide (MAX_CONCURRENT_SESSIONS ≤ Z.of_nat (length old)))
    as [Hle|Hgt].
  - rewrite !bool_decide_eq_true_2 by lia.
    assert (NoDup (old ++ [t])) as Hnd'.
    { apply NoDup_app. split_and!; [done| |apply NoDup_singleton].
      intros x Hx Hx'. apply list_elem_of_singleton in Hx' as ->. done. }
    destruct (old ++ [t]) as [|h rest] eqn:E; [done|].
    simpl. apply NoDup_cons in Hnd' as [Hh _]. by apply set_delete_head.
  - by rewrite !bool_decide_eq_false_2 by lia.
Qed.

Lemma enforce_limit_keep_last t old :
  NoDup old → t ∉ old → Z.of_nat (length old) ≤ MAX_CONCURRENT_SESSIONS →
  enforce_limit (set_add t old) = keep_last MAX_CONCURRENT_SESSIONS (old ++ [t]).
Proof.
  intros Hnd Hfresh Hlen. rewrite enforce_limit_fresh by done.
  unfold keep_last. rewrite length_app. simpl.
  case_bool_decide.
  - replace (Z.to_nat (Z.of_nat (length old + 1) - MAX_CONCURRENT_SESSIONS))
      with 1%nat by lia.
    by destruct (old ++ [t]).
  - replace (Z.to_nat (Z.of_nat (length old + 1) - MAX_CONCURRENT_SESSIONS))
      with 0%nat by lia.
    done.
Qed.

(** A login that answers 200 found the user's row, and registered the
    token it returns. *)
Lemma login_accepted s now jti email password :
  status (login s now jti email password).2 = 200 →
  ∃ em row,
    email = Some em
    ∧ user_by_email (users s) em = Some row
    ∧ let tok := generateToken (sessionTokenVersions s) now jti
                   (info_of_row row) in
      (login s now jti email password).2
      = {| status := 200;
           body := JAuth "Login successful" (info_of_row row) tok |}
      ∧ activeSessions (login s now jti email password).1
        = <[r_id row := enforce_limit (set_add tok (sessions_of s (r_id row)))]>
            (activeSessions s)
      ∧ users (login s now jti email password).1 = users s
      ∧ sessionTokenVersions (login s now jti email password).1
        = sessionTokenVersions s.
Proof.
  unfold login.
  destruct (bool_decide (maxAttempts ≤ count (attempt_window s now email)));
    [done|].
  destruct email as [em|]; [|done].
  destruct (str_falsy (Some em) || str_falsy password); [done|].
  simpl.
  destruct (user_by_email (users s) em) as [row|] eqn:Hrow; [|done].
  destruct (bcrypt_compare _ _); simpl; [|done].
  intros _. exists em, row. done.
Qed.

Lemma login_run_sessions em row reqs : ∀ s,
  user_by_email (users s) em = Some row →
  Forall (λ q, lr_email q = Some em) reqs →
  NoDup (sessions_of s (r_id row)
         ++ tokens_of (sessionTokenVersions s) (info_of_row row) reqs) →
  Z.of_nat (length (sessions_of s (r_id row))) ≤ MAX_CONCURRENT_SESSIONS →
  Forall (λ r, status r = 200) (login_run s reqs).2 →
  sessions_of (login_run s reqs).1 (r_id row)
  = keep_last MAX_CONCURRENT_SESSIONS
      (sessions_of s (r_id row)
       ++ tokens_of (sessionTokenVersions s) (info_of_row row) reqs)
  ∧ (login_run s reqs).2
    = (λ t, {| status := 200;
               body := JAuth "Login successful" (info_of_row row) t |})
      <$> tokens_of (sessionTokenVersions s) (info_of_row row) reqs.
Proof.
  induction reqs as [|q reqs IH]; intros s Hrow Hem Hnd Hlen Hall.
  { simpl. rewrite app_nil_r. by rewrite keep_last_all. }
  apply Forall_cons in Hem as [Hq Hem].
  cbn [login_run] in *. rewrite Hq in *.
  destruct (login s (lr_now q) (lr_jti q) (Some em) (lr_password q))
    as [s1 r1] eqn:E1.
  destruct (login_run s1 reqs) as [s2 rs] eqn:E2.
  cbn [fst snd] in *.
  apply Forall_cons in Hall as [F1 Hall].
  pose proof (login_accepted s (lr_now q) (lr_jti q) (Some em) (lr_password q))
    as Hacc.
  rewrite E1 in Hacc. cbn [fst snd] in Hacc.
  destruct (Hacc F1) as (em' & row' & [= <-] & Hrow' & Hr1 & Hs1 & Hu1 & Hv1).
  rewrite Hrow in Hrow'. injection Hrow' as <-.
  cbn [tokens_of fmap list_fmap] in *.
  fold (tokens_of (sessionTokenVersions s) (info_of_row row) reqs) in *.
  set (t := generateToken (sessionTokenVersions s) (lr_now q) (lr_jti q)
              (info_of_row row)) in *.
  set (old := sessions_of s (r_id row)) in *.
  set (toks := tokens_of (sessionTokenVersions s) (info_of_row row) reqs) in *.
  assert (0 ≤ MAX_CONCURRENT_SESSIONS) as Hmax by lia.
  apply NoDup_app in Hnd as (Hnd_old & Hdisj & Hnd_toks).
  apply NoDup_cons in Hnd_toks as [Ht_toks Hnd_toks].
  assert (t ∉ old) as Ht_old.
  { intros Hin. apply (Hdisj t Hin). by left. }
  assert (sessions_of s1 (r_id row)
          = keep_last MAX_CONCURRENT_SESSIONS (old ++ [t])) as Hcur.
  { unfold sessions_of at 1. rewrite Hs1, lookup_insert_eq. simpl.
    by apply enforce_limit_keep_last. }
  assert (keep_last MAX_CONCURRENT_SESSIONS (old ++ [t]) ⊆ old ++ [t]) as Hsub.
  { unfold keep_last. apply subseteq_drop. }
  destruct (IH s1) as [IH1 IH2].
  - by rewrite Hu1.
  - done.
  - rewrite Hv1, Hcur. fold toks. apply NoDup_app. split_and!; [| |done].
    + unfold keep_last. eapply sublist_NoDup; [|apply sublist_drop].
      apply NoDup_app. split_and!; [done| |apply NoDup_singleton].
      intros x Hx Hx'. apply list_elem_of_singleton in Hx' as ->. done.
    + intros x Hx Hx'. apply Hsub in Hx.
      apply elem_of_app in Hx as [Hx|Hx].
      * apply (Hdisj x Hx). by right.
      * apply list_elem_of_singleton in Hx as ->. done.
  - rewrite Hcur. by apply keep_last_length.
  - by rewrite E2.
  - rewrite E2 in IH1, IH2. cbn [fst snd] in IH1, IH2.
    rewrite Hv1 in IH1, IH2. fold toks in IH1, IH2. split.
    + rewrite IH1, Hcur, keep_last_app by done.
      by rewrite <- app_assoc.
    + simpl. by rewrite Hr1, IH2.
Qed.

(** C4: with the limit at 5, a principal whose set is within the limit
    and who logs in successfully six times (tokens are unique) ends with
    exactly the five newest tokens, in order: the first of the six is no
    longer live.  In general a successful login appends its token, and
    when the set already held the limit (or more) it evicts the single
    oldest entry and keeps the order of the others. *)
Theorem six_logins_keep_newest_five s em row q1 q2 q3 q4 q5 q6 :
  let old := sessions_of s (r_id row) in
  let tok q := generateToken (sessionTokenVersions s) (lr_now q) (lr_jti q)
                 (info_of_row row) in
  let run := login_run s [q1; q2; q3; q4; q5; q6] in
  MAX_CONCURRENT_SESSIONS = 5 →
  user_by_email (users s) em = Some row →
  Forall (λ q, lr_email q = Some em) [q1; q2; q3; q4; q5; q6] →
  NoDup (old ++ [tok q1; tok q2; tok q3; tok q4; tok q5; tok q6]) →
  Z.of_nat (length old) ≤ 5 →
  Forall (λ r, status r = 200) run.2 →
  sessions_of run.1 (r_id row) = [tok q2; tok q3; tok q4; tok q5; tok q6]
  ∧ (tok q1 ∉ sessions_of run.1 (r_id row))
  ∧ run.2 = (λ t, {| status := 200;
                     body := JAuth "Login successful" (info_of_row row) t |})
            <$> [tok q1; tok q2; tok q3; tok q4; tok q5; tok q6]
  ∧ ∀ s0 now jti email password u t,
      (login s0 now jti email password).2
      = {| status := 200; body := JAuth "Login successful" u t |} →
      NoDup (sessions_of s0 (u_id u)) → t ∉ sessions_of s0 (u_id u) →
      sessions_of (login s0 now jti email password).1 (u_id u)
      = if bool_decide (MAX_CONCURRENT_SESSIONS
                        ≤ Z.of_nat (length (sessions_of s0 (u_id u))))
        then tail (sessions_of s0 (u_id u) ++ [t])
        else sessions_of s0 (u_id u) ++ [t].
Proof.
  intros old tok run Hmax Hrow Hem Hnd Hlen Hall.
  destruct (login_run_sessions em row [q1; q2; q3; q4; q5; q6] s)
    as [Hfinal Hresp]; [done|done|done|by rewrite Hmax|done|].
  fold run in Hfinal, Hresp. fold old in Hfinal.
  cbn [tokens_of fmap list_fmap] in Hfinal, Hresp.
  fold (tok q1) (tok q2) (tok q3) (tok q4) (tok q5) (tok q6) in Hfinal, Hresp.
  assert (sessions_of run.1 (r_id row)
          = [tok q2; tok q3; tok q4; tok q5; tok q6]) as Hfive.
  { rewrite Hfinal, Hmax. unfold keep_last. rewrite length_app. simpl.
    replace (Z.to_nat (Z.of_nat (length old + 6) - 5))
      with (length old + 1)%nat by lia.
    by rewrite drop_app_add. }
  split_and!; [done| |done|].
  - rewrite Hfive. apply NoDup_app in Hnd as (_ & _ & Hnd).
    by apply NoDup_cons in Hnd as [? _].
  - intros s0 now jti email password u t Hr Hnd0 Hfresh.
    pose proof (login_accepted s0 now jti email password) as Hacc.
    rewrite Hr in Hacc.
    destruct (Hacc eq_refl) as (em' & row' & -> & Hrow' & Hr' & Hs' & _).
    injection Hr' as -> ->.
    unfold sessions_of at 1. rewrite Hs'. simpl. rewrite lookup_insert_eq.
    simpl. by apply enforce_limit_fresh.
Qed.

Lemma foldl_delete_take l : ∀ k,
  NoDup l → foldl (λ acc t, set_delete t acc) l (take k l) = drop k l.
Proof.
  induction l as [|x l IH]; intros k Hnd.
  { by destruct k. }
  destruct k as [|k]; [done|].
  apply NoDup_cons in Hnd as [Hx Hnd]. simpl.
  rewrite set_delete_head by done. by apply IH.
Qed.

Lemma sweep_set_keep_last l :
  NoDup l → sweep_set l = keep_last MAX_CONCURRENT_SESSIONS l.
Proof.
  intros Hnd. unfold sweep_set. case_bool_decide.
  - by apply foldl_delete_take.
  - by rewrite keep_last_all by lia.
Qed.

Lemma register_created s now id jti salt email password name role :
  status (register s now id jti salt email password name role).2 = 201 →
  ∃ em nm,
    email = Some em ∧ name = Some nm
    ∧ user_by_email (users s) em = None
    ∧ let u := {| u_id := id; u_email := em; u_name := nm;
                  u_role := role_or_default role |} in
      let tok := generateToken (<[id := 1]> (sessionTokenVersions s)) now jti u in
      (register s now id jti salt email password name role).2
      = {| status := 201; body := JAuth "Registration successful" u tok |}
      ∧ activeSessions (register s now id jti salt email password name role).1
        = <[id := set_add tok (sessions_of s id)]> (activeSessions s)
      ∧ sessionTokenVersions
          (register s now id jti salt email password name role).1
        = <[id := 1]> (sessionTokenVersions s).
Proof.
  unfold register.
  destruct email as [em|]; [|done].
  destruct password as [pw|]; [|done].
  destruct name as [nm|]; [|done].
  destruct (bool_decide (em = "") || bool_decide (pw = "")
            || bool_decide (nm = "")); [done|].
  destruct (negb (emailRegex_test em)); [done|].
  destruct (bool_decide (String.length pw < 8)%nat); [done|].
  destruct (bool_decide (is_Some (user_by_email (users s) em))) eqn:Hex;
    [done|].
  apply bool_decide_eq_false in Hex.
  destruct (insert_user _ _) as [db|]; [|done].
  simpl. intros _. exists em, nm. split_and!; try done.
  destruct (user_by_email (users s) em); [|done].
  destruct Hex. by eexists.
Qed.

(** * Further properties of the server *)

(** ** Lookups in the [users] table *)

Lemma user_by_email_cons r db email :
  user_by_email (r :: db) email
  = if decide (r_email r = email) then Some r else user_by_email db email.
Proof.
  unfold user_by_email. cbn [list_find]. destruct (decide (r_email r = email)).
  - done.
  - by destruct (list_find _ db) as [[i x]|].
Qed.

Lemma user_by_id_cons r db id :
  user_by_id (r :: db) id
  = if decide (r_id r = id) then Some r else user_by_id db id.
Proof.
  unfold user_by_id. cbn [list_find]. destruct (decide (r_id r = id)).
  - done.
  - by destruct (list_find _ db) as [[i x]|].
Qed.

Lemma user_by_email_found db email row :
  user_by_email db email = Some row → row ∈ db ∧ r_email row = email.
Proof.
  induction db as [|r db IH]; [done|]. rewrite user_by_email_cons.
  case_decide.
  - intros [= ->]. split; [by left|done].
  - intros H'. destruct (IH H'). split; [by right|done].
Qed.

Lemma user_by_id_found db id row :
  user_by_id db id = Some row → row ∈ db ∧ r_id row = id.
Proof.
  induction db as [|r db IH]; [done|]. rewrite user_by_id_cons.
  case_decide.
  - intros [= ->]. split; [by left|done].
  - intros H'. destruct (IH H'). split; [by right|done].
Qed.

Lemma user_by_email_app_new db email row :
  user_by_email db email = None → r_email row = email →
  user_by_email (db ++ [row]) email = Some row.
Proof.
  intros Hnone Hrow. induction db as [|r db IH]; simpl.
  - rewrite user_by_email_cons. by rewrite decide_True.
  - rewrite user_by_email_cons in Hnone |- *.
    case_decide; [done|]. by apply IH.
Qed.

Lemma user_by_id_app_new db id row :
  user_by_id db id = None → r_id row = id →
  user_by_id (db ++ [row]) id = Some row.
Proof.
  intros Hnone Hrow. induction db as [|r db IH]; simpl.
  - rewrite user_by_id_cons. by rewrite decide_True.
  - rewrite user_by_id_cons in Hnone |- *.
    case_decide; [done|]. by apply IH.
Qed.

(** ** Token lifetime *)

(** X1: a token from [generateToken] passes [authenticateToken] exactly
    while the clock, in whole seconds, is less than 86400 above the whole
    second of its issuance; it passes at the moment of issuance, and the
    decoded principal carries the id and the role it was issued for. *)
Theorem token_lifetime versions now0 jti u now scheme rest :
  ((∃ user,
      authenticateToken now
        (Some (scheme :: generateToken versions now0 jti u :: rest))
      = inr user)
   ↔ now `div` 1000 < now0 `div` 1000 + 86400)
  ∧ ∃ user,
      authenticateToken now0
        (Some (scheme :: generateToken versions now0 jti u :: rest))
      = inr user
      ∧ pl_id user = u_id u ∧ pl_role user = u_role u
      ∧ pl_exp user = pl_iat user + 86400.
Proof.
  split.
  - unfold authenticateToken, generateToken. rewrite bearer_second.
    cbn [token_falsy jwt_verify pl_exp].
    rewrite bool_decide_eq_true_2 by done.
    case_bool_decide as Hexp.
    + split; [by intros [? ?]|lia].
    + split; [lia|by eauto].
  - unfold authenticateToken, generateToken. rewrite bearer_second.
    cbn [token_falsy jwt_verify pl_exp].
    rewrite bool_decide_eq_true_2 by done.
    rewrite bool_decide_eq_false_2 by lia.
    eexists. split; [done|]. done.
Qed.

(** ** Registration *)

(** What a registration that answers 201 has done. *)
Lemma register_effect s now id jti salt email password name role :
  status (register s now id jti salt email password name role).2 = 201 →
  ∃ em pw nm,
    email = Some em ∧ password = Some pw ∧ name = Some nm
    ∧ user_by_email (users s) em = None
    ∧ user_by_id (users s) id = None
    ∧ check_role (role_or_default role) = true
    ∧ let row := {| r_id := id; r_email := em;
                    r_password_hash := bcrypt_hash pw salt; r_name := nm;
                    r_role := role_or_default role;
                    r_created_at := now `div` 1000 |} in
      let tok := generateToken (<[id := 1]> (sessionTokenVersions s)) now jti
                   (info_of_row row) in
      register s now id jti salt email password name role
      = ({| activeSessions :=
              <[id := set_add tok (sessions_of s id)]> (activeSessions s);
            sessionTokenVersions := <[id := 1]> (sessionTokenVersions s);
            loginAttempts := loginAttempts s;
            users := users s ++ [row] |},
         {| status := 201;
            body := JAuth "Registration successful" (info_of_row row) tok |}).
Proof.
  unfold register.
  destruct email as [em|]; [|done].
  destruct password as [pw|]; [|done].
  destruct name as [nm|]; [|done].
  destruct (bool_decide (em = "") || bool_decide (pw = "")
            || bool_decide (nm = "")); [done|].
  destruct (negb (emailRegex_test em)); [done|].
  destruct (bool_decide (String.length pw < 8)%nat); [done|].
  destruct (bool_decide (is_Some (user_by_email (users s) em))) eqn:Hex;
    [done|].
  apply bool_decide_eq_false in Hex.
  unfold insert_user. cbn [r_id r_email r_role].
  case_bool_decide as Hins; [done|].
  intros _. exists em, pw, nm. split_and!; try done.
  - destruct (user_by_email (users s) em); [|done]. destruct Hex. by eexists.
  - destruct (user_by_id (users s) id) eqn:E; [|done].
    destruct Hins. left. by eexists.
  - destruct (check_role (role_or_default role)); [done|].
    destruct Hins. by right; right.
Qed.

Lemma register_refused s now id jti salt email password name role :
  status (register s now id jti salt email password name role).2 ≠ 201 →
  (register s now id jti salt email password name role).1 = s.
Proof.
  unfold register.
  destruct email as [em|]; [|done].
  destruct password as [pw|]; [|done].
  destruct name as [nm|]; [|done].
  destruct (bool_decide (em = "") || bool_decide (pw = "")
            || bool_decide (nm = "")); [done|].
  destruct (negb (emailRegex_test em)); [done|].
  destruct (bool_decide (String.length pw < 8)%nat); [done|].
  destruct (bool_decide (is_Some (user_by_email (users s) em))); [done|].
  destruct (insert_user _ _); [|done].
  simpl. intros H. by destruct H.
Qed.


(** X3: the registration route takes the role from the body:
    ["applicant"] when the field is absent, [null] when it is [null], the
    string otherwise.  When the route answers 201 that role is [null] or
    one of the three the table's [CHECK] names, the row and the token
    both carry it, and for as long as the token lives [GET /api/users]
    answers it 200 exactly when that role is ["admin"]. *)
Theorem register_grants_requested_role s now id jti salt email password name
    role :
  status (register s now id jti salt email password name role).2 = 201 →
  let s' := (register s now id jti salt email password name role).1 in
  ∃ u tok,
    body (register s now id jti salt email password name role).2
    = JAuth "Registration successful" u tok
    ∧ u_role u = role_or_default role
    ∧ (u_role u = None ↔ role = RoleNull)
    ∧ (∀ r, u_role u = Some r → r ∈ valid_roles)
    ∧ r_role <$> user_by_id (users s') id = Some (u_role u)
    ∧ ∀ now' scheme rest,
        now' `div` 1000 < now `div` 1000 + 86400 →
        status (get_users s' now' (Some (scheme :: tok :: rest)))
        = if bool_decide (role_or_default role = Some "admin")
          then 200 else 403.
Proof.
  intros H201 s'.
  destruct (register_effect _ _ _ _ _ _ _ _ _ H201)
    as (em & pw & nm & -> & -> & -> & Hnew & Hid & Hrole & Hreg).
  cbv zeta in Hreg. subst s'. rewrite Hreg. cbn [fst snd body users].
  eexists _, _. split; [done|]. split; [done|]. cbn [info_of_row u_role r_role].
  split; [by destruct role|]. split.
  { intros r Hr. rewrite Hr in Hrole. by apply bool_decide_eq_true in Hrole. }
  split.
  - rewrite (user_by_id_app_new _ id _ Hid); done.
  - intros now' scheme rest Hlt.
    unfold get_users, authenticateToken, generateToken.
    rewrite bearer_second. cbn [token_falsy jwt_verify pl_exp pl_role].
    rewrite bool_decide_eq_true_2 by done.
    rewrite (bool_decide_eq_false_2 (_ ≤ _)) by lia.
    cbn [info_of_row u_role r_role].
    destruct (decide (role_or_default role = Some "admin")) as [Ha|Ha].
    + rewrite (bool_decide_eq_false_2 (_ ≠ _)) by (intros H; by apply H).
      by rewrite bool_decide_eq_true_2.
    + rewrite (bool_decide_eq_true_2 (_ ≠ _)) by done.
      by rewrite bool_decide_eq_false_2.
Qed.

(** X4: register, then log in.  After a registration that answered 201,
    a login with the same e-mail and password answers 200 with a token
    for the new id, provided [bcrypt.compare] accepts the password
    against the hash [bcrypt.hash] made of it and the e-mail's attempt
    counter is below the threshold (the throttle counts attempts made on
    an e-mail before it was registered). *)
Theorem register_then_login s now id jti salt em pw name role now' jti' :
  status (register s now id jti salt (Some em) (Some pw) name role).2 = 201 →
  bcrypt_compare pw (bcrypt_hash pw salt) = true →
  count (attempt_window s now' (Some em)) < maxAttempts →
  let s' := (register s now id jti salt (Some em) (Some pw) name role).1 in
  ∃ u tok,
    (login s' now' jti' (Some em) (Some pw)).2
    = {| status := 200; body := JAuth "Login successful" u tok |}
    ∧ u_id u = id ∧ u_email u = em
    ∧ u_role u = role_or_default role
    ∧ tok = generateToken (sessionTokenVersions s') now' jti' u.
Proof.
  intros H201 Hbcrypt Hcount s'.
  assert (em ≠ "" ∧ pw ≠ "") as [Hem Hpw].
  { revert H201. unfold register. destruct name as [nm|]; [|done].
    destruct (decide (em = "")) as [->|]; [done|].
    destruct (decide (pw = "")) as [->|]; [|done].
    rewrite (bool_decide_eq_true_2 ("" = "")) by done.
    by rewrite orb_true_r. }
  destruct (register_effect _ _ _ _ _ _ _ _ _ H201)
    as (em' & pw' & nm & [= <-] & [= <-] & -> & Hnew & Hid & Hrole & Hreg).
  cbv zeta in Hreg. subst s'. rewrite Hreg. cbn [fst].
  set (row := {| r_id := id; r_email := em;
                 r_password_hash := bcrypt_hash pw salt; r_name := nm;
                 r_role := role_or_default role;
                    r_created_at := now `div` 1000 |}) in *.
  eexists _, _. split.
  - apply (login_succeeds _ now' jti' em pw row);
      [exact Hcount|done|done| |done].
    cbn [users]. by apply user_by_email_app_new.
  - done.
Qed.

(** ** Invariants *)

Lemma enforce_limit_ok t old :
  NoDup old → Z.of_nat (length old) ≤ MAX_CONCURRENT_SESSIONS →
  NoDup (enforce_limit (set_add t old))
  ∧ Z.of_nat (length (enforce_limit (set_add t old)))
    ≤ MAX_CONCURRENT_SESSIONS.
Proof.
  intros Hnd Hlen. destruct (decide (t ∈ old)) as [Hin|Hfresh].
  - unfold set_add. rewrite bool_decide_eq_true_2 by done.
    unfold enforce_limit. by rewrite bool_decide_eq_false_2 by lia.
  - rewrite enforce_limit_keep_last by done. split.
    + unfold keep_last. eapply sublist_NoDup; [|apply sublist_drop].
      apply NoDup_app. split_and!; [done| |apply NoDup_singleton].
      intros x Hx Hx'. apply list_elem_of_singleton in Hx' as ->. done.
    + apply keep_last_length. lia.
Qed.

(** Where a login leaves the registry: as it was, or with the entry of
    the user who logged in replaced. *)
Lemma login_sessions_cases s now jti email password :
  activeSessions (login s now jti email password).1 = activeSessions s
  ∨ ∃ id tok,
      activeSessions (login s now jti email password).1
      = <[id := enforce_limit (set_add tok (sessions_of s id))]>
          (activeSessions s).
Proof.
  unfold login.
  destruct (bool_decide (maxAttempts ≤ count (attempt_window s now email)));
    [by left|].
  destruct (str_falsy email || str_falsy password); [by left|].
  simpl.
  destruct (user_by_email (users s) (default "" email)) as [row|]; [|by left].
  destruct (bcrypt_compare _ _); simpl; [|by left].
  right. by eexists _, _.
Qed.

(** Where a login leaves the attempt counters: the entry of the e-mail is
    the current window, counted up after a failure below the threshold,
    or zeroed after a success. *)
Lemma login_attempts_cases s now jti email password :
  ∃ a,
    loginAttempts (login s now jti email password).1
    = <[email := a]> (loginAttempts s)
    ∧ (a = attempt_window s now email
       ∨ (a = count_up (attempt_window s now email)
          ∧ count (attempt_window s now email) < maxAttempts)
       ∨ a = count_zero (attempt_window s now email)).
Proof.
  unfold login.
  destruct (bool_decide (maxAttempts ≤ count (attempt_window s now email)))
    eqn:Hc; [eexists; split; [done|by left]|].
  apply bool_decide_eq_false in Hc.
  destruct (str_falsy email || str_falsy password);
    [eexists; split; [done|by left]|].
  simpl.
  destruct (user_by_email (users s) (default "" email)) as [row|].
  - destruct (bcrypt_compare _ _); simpl.
    + eexists. split; [by rewrite insert_insert_eq|]. by right; right.
    + eexists. split; [by rewrite insert_insert_eq|]. right; left.
      split; [done|lia].
  - simpl. eexists. split; [by rewrite insert_insert_eq|]. right; left.
    split; [done|lia].
Qed.

Lemma login_keeps_registry s now jti email password :
  registry_ok s → 0 ≤ MAX_CONCURRENT_SESSIONS →
  registry_ok (login s now jti email password).1.
Proof.
  intros Hok Hmax.
  destruct (login_sessions_cases s now jti email password)
    as [E|(id & tok & E)]; intros id' l; rewrite E; [apply Hok|].
  destruct (decide (id = id')) as [<-|Hne];
    [|rewrite lookup_insert_ne by done; apply Hok].
  rewrite lookup_insert_eq. intros [= <-].
  apply enforce_limit_ok; unfold sessions_of;
    destruct (activeSessions s !! id) as [old|] eqn:Hold; simpl;
    try apply (Hok _ _ Hold); [apply NoDup_nil_2|lia].
Qed.

Lemma logout_keeps_registry s now authHeader :
  registry_ok s → registry_ok (logout s now authHeader).1.
Proof.
  intros Hok id' l. unfold logout.
  destruct (authenticateToken now authHeader) as [r|user]; [apply Hok|].
  cbn [fst].
  destruct (bearer authHeader) as [t|]; [|apply Hok].
  destruct (activeSessions s !! pl_id user) as [tokens|] eqn:Hold;
    [|apply Hok].
  destruct (token_falsy (Some t)); [apply Hok|]. simpl.
  destruct (decide (pl_id user = id')) as [<-|Hne];
    [|rewrite lookup_insert_ne by done; apply Hok].
  rewrite lookup_insert_eq. intros [= <-].
  destruct (Hok _ _ Hold) as [Hnd Hlen]. unfold set_delete. split.
  - by apply NoDup_filter.
  - pose proof (length_filter (λ x, x ≠ t) tokens). lia.
Qed.

Lemma sweep_keeps_registry s : registry_ok s → registry_ok (sweep s).
Proof.
  intros Hok id' l. unfold sweep. simpl. rewrite lookup_fmap.
  destruct (activeSessions s !! id') as [old|] eqn:Hold; [|done].
  simpl. intros [= <-]. destruct (Hok _ _ Hold) as [Hnd Hlen].
  rewrite sweep_set_keep_last by done. split.
  - unfold keep_last. eapply sublist_NoDup; [done|apply sublist_drop].
  - apply keep_last_length. lia.
Qed.

Lemma register_keeps_registry s now id jti salt email password name role :
  registry_ok s →
  activeSessions s !! id = None → 1 ≤ MAX_CONCURRENT_SESSIONS →
  registry_ok (register s now id jti salt email password name role).1.
Proof.
  intros Hok Hfree Hmax.
  destruct (decide (status (register s now id jti salt email password
                              name role).2 = 201)) as [H201|Hfail].
  - destruct (register_effect _ _ _ _ _ _ _ _ _ H201)
      as (em & pw & nm & -> & -> & -> & _ & _ & _ & Hreg).
    cbv zeta in Hreg. rewrite Hreg. cbn [fst]. intros id' l. simpl.
    destruct (decide (id = id')) as [<-|Hne];
      [|rewrite lookup_insert_ne by done; apply Hok].
    rewrite lookup_insert_eq. intros [= <-].
    unfold sessions_of. rewrite Hfree. simpl. split.
    + apply NoDup_singleton.
    + simpl. lia.
  - by rewrite register_refused.
Qed.

(** X5: the registry invariant (every entry a duplicate-free set within
    the limit) is kept by login (for a limit that is not negative), by
    logout and by the sweep, and by a registration under an id that has
    no entry yet when the limit is at least 1. *)
Theorem registry_invariant s :
  registry_ok s →
  (∀ now jti email password,
     0 ≤ MAX_CONCURRENT_SESSIONS →
     registry_ok (login s now jti email password).1)
  ∧ (∀ now authHeader, registry_ok (logout s now authHeader).1)
  ∧ registry_ok (sweep s)
  ∧ (∀ now id jti salt email password name role,
       activeSessions s !! id = None → 1 ≤ MAX_CONCURRENT_SESSIONS →
       registry_ok (register s now id jti salt email password name role).1).
Proof.
  intros Hok. split_and!.
  - intros now jti email password Hmax. by apply login_keeps_registry.
  - intros now authHeader. by apply logout_keeps_registry.
  - by apply sweep_keeps_registry.
  - intros now id jti salt email password name role Hfree Hmax.
    by apply register_keeps_registry.
Qed.


(** X7: a failed login tells nothing about the e-mail.  With the same
    attempt counters, an e-mail that has no account and an e-mail whose
    account has another password get the same response and leave the
    same counters. *)
Theorem login_hides_unknown_email s s' now jti em pw row :
  loginAttempts s = loginAttempts s' →
  user_by_email (users s) em = None →
  user_by_email (users s') em = Some row →
  bcrypt_compare pw (r_password_hash row) = false →
  (login s now jti (Some em) (Some pw)).2
  = (login s' now jti (Some em) (Some pw)).2
  ∧ loginAttempts (login s now jti (Some em) (Some pw)).1
    = loginAttempts (login s' now jti (Some em) (Some pw)).1.
Proof.
  intros Hatt Hnone Hsome Hcmp.
  assert (attempt_window s now (Some em) = attempt_window s' now (Some em))
    as Hw by (unfold attempt_window; by rewrite Hatt).
  unfold login. rewrite Hw.
  destruct (bool_decide (maxAttempts ≤ _)); simpl; [by rewrite Hatt|].
  destruct (bool_decide (em = "") || bool_decide (pw = "")); simpl;
    [by rewrite Hatt|].
  rewrite Hnone, Hsome, Hcmp. simpl. by rewrite Hatt.
Qed.

Lemma keep_last_idem n l : keep_last n (keep_last n l) = keep_last n l.
Proof.
  destruct (Z.le_gt_cases 0 n) as [Hn|Hn].
  - apply keep_last_all. by apply keep_last_length.
  - assert (keep_last n l = []) as ->
      by (unfold keep_last; apply drop_ge; lia).
    unfold keep_last. by rewrite drop_nil.
Qed.

(** X8: the sweep is idempotent, leaves every set that is within the
    limit as it is, and touches neither the version store, the attempt
    counters nor the [users] table. *)
Theorem sweep_idempotent s :
  (∀ id tokens, activeSessions s !! id = Some tokens → NoDup tokens) →
  sweep (sweep s) = sweep s
  ∧ (∀ id tokens,
       activeSessions s !! id = Some tokens →
       Z.of_nat (length tokens) ≤ MAX_CONCURRENT_SESSIONS →
       activeSessions (sweep s) !! id = Some tokens)
  ∧ sessionTokenVersions (sweep s) = sessionTokenVersions s
  ∧ loginAttempts (sweep s) = loginAttempts s
  ∧ users (sweep s) = users s.
Proof.
  intros Hnd. split_and!; [| |done..].
  - unfold sweep, with_activeSessions. simpl. f_equal.
    apply map_eq. intros id. rewrite !lookup_fmap.
    destruct (activeSessions s !! id) as [l|] eqn:Hl; [|done]. simpl.
    f_equal. rewrite (sweep_set_keep_last l) by eauto.
    rewrite sweep_set_keep_last.
    + apply keep_last_idem.
    + unfold keep_last. eapply sublist_NoDup; [eauto|apply sublist_drop].
  - intros id tokens Hl Hlen. unfold sweep. simpl. rewrite lookup_fmap, Hl.
    simpl. unfold sweep_set. by rewrite bool_decide_eq_false_2 by lia.
Qed.

(** ** Deleting a user *)

Lemma user_by_id_filter_out db id other :
  user_by_id (filter (λ r, r_id r ≠ id) db) other
  = if decide (other = id) then None else user_by_id db other.
Proof.
  induction db as [|r db IH].
  { by destruct (decide (other = id)). }
  destruct (decide (r_id r = id)) as [Hr|Hr].
  - rewrite filter_cons_False by (intros H; by apply H).
    rewrite IH, user_by_id_cons.
    destruct (decide (other = id)) as [->|Hne]; [done|].
    by rewrite decide_False by congruence.
  - rewrite filter_cons_True by done. rewrite !user_by_id_cons, IH.
    destruct (decide (r_id r = other)) as [<-|]; [|done].
    by rewrite decide_False.
Qed.

(** X9: [DELETE /api/users/:id] answers 200 only to a token with the
    role claim ["admin"] whose own id is not the one deleted.  It removes
    the row and nothing else: the registry, the version store and the
    attempt counters stay, so a token of the deleted user still passes
    [authenticateToken]; [GET /api/auth/me] answers it 404, and the role
    gate of [GET /api/users] answers it as before. *)
Theorem delete_user_keeps_tokens s now authHeader id :
  status (delete_user s now authHeader id).2 = 200 →
  let s' := (delete_user s now authHeader id).1 in
  (∃ admin, authenticateToken now authHeader = inr admin
            ∧ pl_role admin = Some "admin" ∧ pl_id admin ≠ id)
  ∧ user_by_id (users s') id = None
  ∧ (∀ other, other ≠ id →
       user_by_id (users s') other = user_by_id (users s) other)
  ∧ activeSessions s' = activeSessions s
  ∧ sessionTokenVersions s' = sessionTokenVersions s
  ∧ loginAttempts s' = loginAttempts s
  ∧ ∀ now' scheme t rest user,
      jwt_verify now' t JWT_SECRET = inr user → pl_id user = id →
      authenticateToken now' (Some (scheme :: t :: rest)) = inr user
      ∧ auth_me s' now' (Some (scheme :: t :: rest))
        = reply 404 "User not found"
      ∧ get_users s' now' (Some (scheme :: t :: rest))
        = (if bool_decide (pl_role user = Some "admin")
           then {| status := 200;
                   body := JUsers (info_of_row <$> newest_first (users s')) |}
           else reply 403 "Admin access required").
Proof.
  unfold delete_user.
  destruct (authenticateToken now authHeader) as [r|admin] eqn:Hauth.
  { unfold authenticateToken in Hauth.
    destruct (bearer authHeader) as [t|]; [|by injection Hauth as <-].
    destruct (token_falsy (Some t)); [by injection Hauth as <-|].
    destruct (jwt_verify now t JWT_SECRET); [by injection Hauth as <-|done]. }
  destruct (decide (pl_role admin = Some "admin")) as [Hadmin|Hno].
  2: { by rewrite bool_decide_eq_true_2. }
  rewrite (bool_decide_eq_false_2 (_ ≠ _)) by (intros H; by apply H).
  case_bool_decide as Hself; [done|].
  intros _. cbv zeta. cbn [fst users with_users activeSessions
    sessionTokenVersions loginAttempts].
  split; [by eauto|].
  split; [by rewrite user_by_id_filter_out, decide_True|].
  split; [intros other Hne; by rewrite user_by_id_filter_out, decide_False|].
  split_and!; [done..|].
  intros now' scheme t rest user Hv Hid.
  assert (token_falsy (Some t) = false) as Hf.
  { apply jwt_verify_ok in Hv as [-> _]. done. }
  unfold auth_me, get_users, authenticateToken.
  rewrite bearer_second, Hf, Hv. cbn [users with_users].
  split; [done|]. split.
  - by rewrite user_by_id_filter_out, decide_True.
  - destruct (decide (pl_role user = Some "admin")) as [Hr|Hr].
    + rewrite (bool_decide_eq_false_2 (_ ≠ _)) by (intros H; by apply H).
      by rewrite bool_decide_eq_true_2.
    + rewrite (bool_decide_eq_true_2 (_ ≠ _)) by done.
      by rewrite bool_decide_eq_false_2.
Qed.

(** ** Password reset and password change *)

Lemma user_by_id_update_password db id hash other :
  user_by_id (update_password db id hash) other
  = (λ r, if bool_decide (r_id r = id)
          then {| r_id := r_id r; r_email := r_email r;
                  r_password_hash := hash; r_name := r_name r;
                  r_role := r_role r;
                r_created_at := r_created_at r |}
          else r) <$> user_by_id db other.
Proof.
  induction db as [|r db IH]; [done|].
  unfold update_password. rewrite fmap_cons.
  fold (update_password db id hash). rewrite !user_by_id_cons, IH.
  assert (∀ b : bool, r_id (if b then {| r_id := r_id r; r_email := r_email r;
      r_password_hash := hash; r_name := r_name r; r_role := r_role r;
                r_created_at := r_created_at r |}
    else r) = r_id r) as -> by (by intros []).
  by case_decide.
Qed.

Lemma user_by_email_update_password db id hash email :
  user_by_email (update_password db id hash) email
  = (λ r, if bool_decide (r_id r = id)
          then {| r_id := r_id r; r_email := r_email r;
                  r_password_hash := hash; r_name := r_name r;
                  r_role := r_role r;
                r_created_at := r_created_at r |}
          else r) <$> user_by_email db email.
Proof.
  induction db as [|r db IH]; [done|].
  unfold update_password. rewrite fmap_cons.
  fold (update_password db id hash). rewrite !user_by_email_cons, IH.
  assert (∀ b : bool, r_email (if b then {| r_id := r_id r; r_email := r_email r;
      r_password_hash := hash; r_name := r_name r; r_role := r_role r;
                r_created_at := r_created_at r |}
    else r) = r_email r) as -> by (by intros []).
  by case_decide.
Qed.

(** The handlers of the reset and forgot routes: the reset handler answers 200 exactly for a reset token signed
    with the server secret that has not expired, together with a new
    password of at least 6 characters; anything else, a session token
    included, is answered 400 and changes nothing.  The forgot-password
    route gives the same response whether or not the account exists, and
    writes a reset token to the log exactly when it does. *)
Lemma reset_password_handler_gate s now salt token newPassword :
  (status (reset_password_handler s now salt token newPassword).2 = 200
   ↔ ∃ claims pw,
       token = Some (ResetJwt JWT_SECRET claims)
       ∧ newPassword = Some pw
       ∧ (6 ≤ String.length pw)%nat
       ∧ now `div` 1000 < rc_exp claims)
  ∧ (status (reset_password_handler s now salt token newPassword).2 = 200
     ∨ (status (reset_password_handler s now salt token newPassword).2 = 400
        ∧ (reset_password_handler s now salt token newPassword).1 = s))
  ∧ ∀ s' email,
      (forgot_password_handler s now email).1 = (forgot_password_handler s' now email).1
      ∧ (is_Some (forgot_password_handler s now email).2
         ↔ ∃ em, email = Some em ∧ em ≠ ""
                 ∧ is_Some (user_by_email (users s) em)).
Proof.
  split_and!.
  - unfold reset_password_handler.
    destruct token as [token|];
      [|split; [by destruct newPassword|by intros (? & ? & ? & _)]].
    destruct newPassword as [pw|]; [|split; [done|by intros (?&?&?&?&_)]].
    destruct (decide (pw = "")) as [->|Hpw].
    { rewrite (bool_decide_eq_true_2 ("" = "")) by done. rewrite orb_true_r.
      split; [done|]. intros (c & pw & _ & [= <-] & Hlen & _).
      simpl in Hlen. lia. }
    rewrite (bool_decide_eq_false_2 (pw = "")) by done. rewrite orb_false_r.
    destruct token as [t|key claims].
    + assert (status (if body_token_falsy (Some (SessionText t))
                      then (s, reply 400 "Token and new password are required")
                      else if bool_decide (String.length pw < 6)%nat
                           then (s, reply 400
                                      "Password must be at least 6 characters")
                           else match verify_reset now (SessionText t) with
                                | inl rejected => (s, rejected)
                                | inr id =>
                                    (with_users
                                       (update_password (users s) id
                                          (bcrypt_hash pw salt)) s,
                                     reply 200
                                       "Password reset successful. You can now log in with your new password.")
                                end).2 = 400) as E.
      { destruct (body_token_falsy _); [done|].
        destruct (bool_decide _); [done|]. cbn [verify_reset].
        by destruct (jwt_verify now t JWT_SECRET) as [[]|]. }
      rewrite E. split; [done|]. by intros (? & ? & ? & _).
    + cbn [body_token_falsy]. case_bool_decide as Hlen.
      { split; [done|]. intros (c & pw' & _ & [= <-] & Hlen' & _). lia. }
      cbn [verify_reset]. case_bool_decide as Hkey.
      * subst key. case_bool_decide as Hexp.
        -- split; [done|]. intros (c & pw' & [= <-] & _ & _ & Hlt). lia.
        -- split; [|done]. intros _. exists claims, pw.
           split_and!; [done|done|lia|lia].
      * split; [done|]. intros (c & pw' & [= ? <-] & _). done.
  - unfold reset_password_handler.
    destruct token as [token|]; [|right; by destruct newPassword].
    destruct newPassword as [pw|]; [|by right].
    destruct (body_token_falsy (Some token) || bool_decide (pw = ""));
      [by right|].
    destruct (bool_decide (String.length pw < 6)%nat); [by right|].
    destruct token as [t|key claims]; cbn [verify_reset].
    + right. by destruct (jwt_verify now t JWT_SECRET) as [[]|].
    + destruct (bool_decide (key = JWT_SECRET)); [|by right].
      destruct (bool_decide (rc_exp claims ≤ now `div` 1000));
        [by right|by left].
  - intros s' email. unfold forgot_password_handler.
    destruct email as [em|]; cbn [str_falsy].
    + change (default "" (Some em)) with em. case_bool_decide as Hem; cbn [fst snd].
      * split; [done|]. split; [by intros [? ?]|].
        intros (em' & [= <-] & Hne & _). done.
      * split; [done|]. split.
        -- destruct (user_by_email (users s) em) as [row|] eqn:Hrow.
           ++ intros _. exists em. by rewrite Hrow.
           ++ by intros [? ?].
        -- intros (em' & [= <-] & _ & [row ->]). by eexists.
    + cbn [fst snd]. split; [done|]. split; [by intros [? ?]|].
      by intros (? & ? & _).
Qed.

(** The handlers of forgot, reset and login in a row.  For an account that exists the forgot
    route logs a reset token; presented within the hour with a new
    password of at least 6 characters it is answered 200 and the account's
    hash is the hash of the new password.  The registry, the version
    store and the attempt counters are as before (session tokens issued
    before the reset stay valid, and a throttled e-mail stays throttled),
    and a login with the new password answers 200 when the throttle lets
    it through and [bcrypt.compare] accepts a password against its own
    hash. *)
Lemma forgot_reset_login_handler s t0 em row :
  user_by_email (users s) em = Some row → em ≠ "" →
  ∃ tok,
    forgot_password_handler s t0 (Some em)
    = (reply 200
         "If an account exists with that email, a password reset link will be sent.",
       Some tok)
    ∧ ∀ t1 salt pw,
        t1 `div` 1000 < t0 `div` 1000 + 3600 → (6 ≤ String.length pw)%nat →
        let s' := (reset_password_handler s t1 salt (Some tok) (Some pw)).1 in
        status (reset_password_handler s t1 salt (Some tok) (Some pw)).2 = 200
        ∧ r_password_hash <$> user_by_email (users s') em
          = Some (bcrypt_hash pw salt)
        ∧ (∀ other, other ≠ r_id row →
             user_by_id (users s') other = user_by_id (users s) other)
        ∧ activeSessions s' = activeSessions s
        ∧ sessionTokenVersions s' = sessionTokenVersions s
        ∧ loginAttempts s' = loginAttempts s
        ∧ ∀ now jti,
            bcrypt_compare pw (bcrypt_hash pw salt) = true →
            count (attempt_window s now (Some em)) < maxAttempts →
            status (login s' now jti (Some em) (Some pw)).2 = 200.
Proof.
  intros Hrow Hem. eexists. split.
  { unfold forgot_password_handler. cbn [str_falsy]; change (default "" (Some em)) with em.
    rewrite bool_decide_eq_false_2 by done. by rewrite Hrow. }
  intros t1 salt pw Ht Hlen s'.
  assert (pw ≠ "") as Hpw by (intros ->; simpl in Hlen; lia).
  assert (reset_password_handler s t1 salt
            (Some (ResetJwt JWT_SECRET
                     {| rc_id := r_id row; rc_iat := t0 `div` 1000;
                        rc_exp := t0 `div` 1000 + 3600 |})) (Some pw)
          = (with_users
               (update_password (users s) (r_id row) (bcrypt_hash pw salt)) s,
             reply 200
               "Password reset successful. You can now log in with your new password."))
    as Hreset.
  { unfold reset_password_handler. cbn [body_token_falsy verify_reset rc_exp rc_id].
    rewrite (bool_decide_eq_false_2 (pw = "")) by done.
    rewrite (bool_decide_eq_false_2 (_ < 6)%nat) by lia.
    rewrite (bool_decide_eq_true_2 (JWT_SECRET = JWT_SECRET)) by done.
    by rewrite (bool_decide_eq_false_2 (_ ≤ _)) by lia. }
  subst s'. rewrite Hreset. cbn [fst snd status reply users with_users
    activeSessions sessionTokenVersions loginAttempts].
  assert (user_by_email
            (update_password (users s) (r_id row) (bcrypt_hash pw salt)) em
          = Some {| r_id := r_id row; r_email := r_email row;
                    r_password_hash := bcrypt_hash pw salt;
                    r_name := r_name row; r_role := r_role row;
                    r_created_at := r_created_at row |}) as Hnew.
  { rewrite user_by_email_update_password, Hrow. simpl.
    by rewrite bool_decide_eq_true_2. }
  split; [done|]. split; [by rewrite Hnew|]. split.
  { intros other Hne. rewrite user_by_id_update_password.
    destruct (user_by_id (users s) other) as [r|] eqn:Hr; [|done]. simpl.
    apply user_by_id_found in Hr as [_ Hid].
    by rewrite bool_decide_eq_false_2 by congruence. }
  split_and!; [done..|].
  intros now jti Hbcrypt Hcount.
  erewrite login_succeeds; [done|exact Hcount|done|done|exact Hnew|done].
Qed.

(** The handler of [PUT /api/auth/password].  It throws for a token that
    verifies but whose principal has no row in the table (with a
    well-formed body).  Otherwise it leaves the registry, the version
    store and the attempt counters alone, changes nothing unless it
    answers 200, and answers 200 only when [bcrypt.compare] accepts the
    current password; then the principal's hash is the hash of the new
    password. *)
Lemma put_password_handler_effect s now authHeader salt currentPassword newPassword :
  match put_password_handler s now authHeader salt currentPassword newPassword with
  | None =>
      ∃ user, authenticateToken now authHeader = inr user
              ∧ user_by_id (users s) (pl_id user) = None
  | Some (s', r) =>
      activeSessions s' = activeSessions s
      ∧ sessionTokenVersions s' = sessionTokenVersions s
      ∧ loginAttempts s' = loginAttempts s
      ∧ (status r = 200 ∨ s' = s)
      ∧ (status r = 200 →
         ∃ user row cur pw,
           authenticateToken now authHeader = inr user
           ∧ user_by_id (users s) (pl_id user) = Some row
           ∧ currentPassword = Some cur ∧ newPassword = Some pw
           ∧ (6 ≤ String.length pw)%nat
           ∧ bcrypt_compare cur (r_password_hash row) = true
           ∧ r_password_hash <$> user_by_id (users s') (pl_id user)
             = Some (bcrypt_hash pw salt))
  end.
Proof.
  unfold put_password_handler.
  destruct (authenticateToken now authHeader) as [r|user] eqn:Hauth.
  { split_and!; [done..|by right|].
    unfold authenticateToken in Hauth.
    destruct (bearer authHeader) as [t|]; [|by injection Hauth as <-].
    destruct (token_falsy (Some t)); [by injection Hauth as <-|].
    destruct (jwt_verify now t JWT_SECRET); [by injection Hauth as <-|done]. }
  destruct (str_falsy currentPassword || str_falsy newPassword
            || bool_decide (String.length (default "" newPassword) < 6)%nat)
    eqn:Hbody.
  { split_and!; [done..|by right|done]. }
  apply orb_false_iff in Hbody as [Hbody Hlen].
  apply orb_false_iff in Hbody as [Hcur Hnew].
  apply bool_decide_eq_false in Hlen.
  destruct currentPassword as [cur|]; [|done].
  destruct newPassword as [pw|]; [|done].
  change (default "" (Some pw)) with pw in *.
  change (default "" (Some cur)) with cur.
  destruct (user_by_id (users s) (pl_id user)) as [row|] eqn:Hrow;
    [|by eauto].
  destruct (bcrypt_compare cur (r_password_hash row)) eqn:Hcmp; cbn [negb].
  - cbn [with_users activeSessions sessionTokenVersions loginAttempts users].
    split_and!; [done..|by left|]. intros _.
    exists user, row, cur, pw. split_and!; [done..|lia|done|].
    rewrite user_by_id_update_password, Hrow. simpl.
    apply user_by_id_found in Hrow as [_ Hid].
    by rewrite bool_decide_eq_true_2.
  - split_and!; [done..|by right|done].
Qed.

(** ** The status of an application *)

Lemma authenticateToken_rejected now authHeader r :
  authenticateToken now authHeader = inl r →
  status r = 401 ∨ status r = 403.
Proof.
  unfold authenticateToken. intros Hauth.
  destruct (bearer authHeader) as [t|]; [|injection Hauth as <-; by left].
  destruct (token_falsy (Some t)); [injection Hauth as <-; by left|].
  destruct (jwt_verify now t JWT_SECRET); [|done].
  injection Hauth as <-; by right.
Qed.

Lemma application_by_id_cons a apps id :
  application_by_id (a :: apps) id
  = if decide (a_id a = id) then Some a else application_by_id apps id.
Proof.
  unfold application_by_id. cbn [list_find].
  destruct (decide (a_id a = id)); [done|].
  by destruct (list_find _ apps) as [[i x]|].
Qed.

Lemma application_by_id_found apps id a :
  application_by_id apps id = Some a → a ∈ apps ∧ a_id a = id.
Proof.
  induction apps as [|b apps IH]; [done|].
  rewrite application_by_id_cons. case_decide.
  - intros [= <-]. split; [left|done].
  - intros [Hin Hid]%IH. split; [by right|done].
Qed.

Lemma application_by_id_set_status apps id st reviewer other :
  application_by_id (set_status apps id st reviewer) other
  = (λ a, if bool_decide (a_id a = id)
          then {| a_id := a_id a; a_user_id := a_user_id a;
                  a_status := st; a_reviewed_by := Some reviewer |}
          else a) <$> application_by_id apps other.
Proof.
  induction apps as [|a apps IH]; [done|].
  unfold set_status. rewrite fmap_cons.
  fold (set_status apps id st reviewer).
  rewrite !application_by_id_cons, IH.
  assert (∀ b : bool, a_id (if b then {| a_id := a_id a;
      a_user_id := a_user_id a; a_status := st;
      a_reviewed_by := Some reviewer |} else a) = a_id a) as ->
    by (by intros []).
  by case_decide.
Qed.

Lemma put_application_status_handler_cases apps now authHeader id requested :
  (∃ r, put_application_status_handler apps now authHeader id requested = (apps, r)
        ∧ sr_status r ≠ 200 ∧ sr_application r = None
        ∧ ¬ ∃ user st app,
              authenticateToken now authHeader = inr user
              ∧ requested = Some st ∧ st ∈ validStatuses
              ∧ application_by_id apps id = Some app
              ∧ (pl_role user = Some "applicant" →
                 a_user_id app = pl_id user ∧ st = "submitted"
                 ∧ a_status app = "draft")
              ∧ (st ∈ ["under_review"; "accepted"; "rejected"] →
                 pl_role user ∈ [Some "admin"; Some "officer"]))
  ∨ (∃ user st app,
       authenticateToken now authHeader = inr user
       ∧ requested = Some st ∧ st ∈ validStatuses
       ∧ application_by_id apps id = Some app
       ∧ (pl_role user = Some "applicant" →
          a_user_id app = pl_id user ∧ st = "submitted"
          ∧ a_status app = "draft")
       ∧ (st ∈ ["under_review"; "accepted"; "rejected"] →
          pl_role user ∈ [Some "admin"; Some "officer"])
       ∧ put_application_status_handler apps now authHeader id requested
         = (set_status apps id st (pl_id user),
            {| sr_status := 200; sr_message := "Status updated";
               sr_application :=
                 Some {| a_id := a_id app; a_user_id := a_user_id app;
                         a_status := st;
                         a_reviewed_by := Some (pl_id user) |} |})).
Proof.
  unfold put_application_status_handler.
  destruct (authenticateToken now authHeader) as [r|user] eqn:Hauth.
  { left. eexists. split; [done|]. cbn [sr_status status_reply sr_application].
    split_and!; [|done|by intros (? & ? & ? & ? & _)].
    apply authenticateToken_rejected in Hauth as [-> | ->]; lia. }
  destruct requested as [st|].
  2: { left. eexists. split; [done|].
       split_and!; [done|done|by intros (? & ? & ? & _ & ? & _)]. }
  destruct (decide (st ∈ validStatuses)) as [Hvalid|Hvalid].
  2: { rewrite (bool_decide_eq_true_2 (st ∉ validStatuses)) by done.
       left. eexists. split; [done|]. split_and!; [done|done|].
       intros (? & ? & ? & _ & [= <-] & ? & _). done. }
  rewrite (bool_decide_eq_false_2 (st ∉ validStatuses))
    by (intros H; by apply H).
  destruct (application_by_id apps id) as [app|] eqn:Happ.
  2: { left. eexists. split; [done|]. split_and!; [done|done|].
       intros (? & ? & ? & _ & _ & _ & ? & _). done. }
  destruct (decide (pl_role user = Some "applicant")) as [Hrole|Hrole].
  - rewrite (bool_decide_eq_true_2 (pl_role user = Some "applicant")) by done.
    cbn [andb].
    destruct (decide (a_user_id app = pl_id user)) as [Hown|Hown].
    2: { rewrite (bool_decide_eq_true_2 (a_user_id app ≠ pl_id user)) by done.
         left. eexists. split; [done|]. split_and!; [done|done|].
         intros (u & st' & app' & [= <-] & [= <-] & _ & [= <-] & Hap & _).
         destruct (Hap Hrole) as [? _]. done. }
    rewrite (bool_decide_eq_false_2 (a_user_id app ≠ pl_id user))
      by (intros H; by apply H).
    destruct (decide (st = "submitted")) as [->|Hst].
    2: { rewrite (bool_decide_eq_true_2 (st ≠ "submitted")) by done.
         cbn [orb]. left. eexists. split; [done|]. split_and!; [done|done|].
         intros (u & st' & app' & [= <-] & [= <-] & _ & [= <-] & Hap & _).
         destruct (Hap Hrole) as (_ & ? & _). done. }
    rewrite (bool_decide_eq_false_2 ("submitted" ≠ "submitted"))
      by (intros H; by apply H).
    cbn [orb].
    destruct (decide (a_status app = "draft")) as [Hdraft|Hdraft].
    2: { rewrite (bool_decide_eq_true_2 (a_status app ≠ "draft")) by done.
         left. eexists. split; [done|]. split_and!; [done|done|].
         intros (u & st' & app' & [= <-] & [= <-] & _ & [= <-] & Hap & _).
         destruct (Hap Hrole) as (_ & _ & ?). done. }
    rewrite (bool_decide_eq_false_2 (a_status app ≠ "draft"))
      by (intros H; by apply H).
    assert (bool_decide
              ("submitted" ∈ ["under_review"; "accepted"; "rejected"])
            = false) as Hsub by (vm_compute; reflexivity).
    rewrite Hsub. cbn [andb]. right. exists user, "submitted", app.
    split_and!; [done..| |].
    { intros Hrev. apply bool_decide_eq_false in Hsub. done. }
    rewrite application_by_id_set_status, Happ. simpl.
    apply application_by_id_found in Happ as [_ Hid].
    by rewrite bool_decide_eq_true_2.
  - rewrite (bool_decide_eq_false_2 (pl_role user = Some "applicant")) by done.
    cbn [andb].
    destruct (decide (st ∈ ["under_review"; "accepted"; "rejected"]
                      ∧ pl_role user ∉ [Some "admin"; Some "officer"]))
      as [[Hrev Hstaff]|Hok].
    + rewrite (bool_decide_eq_true_2 (st ∈ _)) by done.
      rewrite (bool_decide_eq_true_2 (_ ∉ _)) by done. cbn [andb].
      left. eexists. split; [done|]. split_and!; [done|done|].
      intros (u & st' & app' & [= <-] & [= <-] & _ & _ & _ & Hst). auto.
    + assert (bool_decide (st ∈ ["under_review"; "accepted"; "rejected"])
              && bool_decide (pl_role user ∉ [Some "admin"; Some "officer"]) = false)
        as ->.
      { apply andb_false_iff.
        destruct (decide (st ∈ ["under_review"; "accepted"; "rejected"]));
          [right|left]; apply bool_decide_eq_false; naive_solver. }
      right. exists user, st, app.
      split_and!; [done..| |].
      { intros Hrev.
        destruct (decide (pl_role user ∈ [Some "admin"; Some "officer"])); [done|].
        destruct Hok. by split. }
      rewrite application_by_id_set_status, Happ. simpl.
      apply application_by_id_found in Happ as [_ Hid].
      by rewrite bool_decide_eq_true_2.
Qed.

(** The handler of [PUT /api/applications/:id/status] answers 200 exactly when the
    token verifies, the requested status is one of the five valid ones,
    the application exists, an applicant is submitting a draft of their
    own, and a review status is requested by an admin or an officer.
    There is no other transition rule: staff may move an application from
    any status to any status.  On 200 the row carries the new status and
    the caller as reviewer and every other application is as before;
    otherwise the table is unchanged. *)
Lemma application_status_handler_rules apps now authHeader id requested :
  (sr_status (put_application_status_handler apps now authHeader id requested).2 = 200
   ↔ ∃ user st app,
       authenticateToken now authHeader = inr user
       ∧ requested = Some st ∧ st ∈ validStatuses
       ∧ application_by_id apps id = Some app
       ∧ (pl_role user = Some "applicant" →
          a_user_id app = pl_id user ∧ st = "submitted"
          ∧ a_status app = "draft")
       ∧ (st ∈ ["under_review"; "accepted"; "rejected"] →
          pl_role user ∈ [Some "admin"; Some "officer"]))
  ∧ (sr_status (put_application_status_handler apps now authHeader id requested).2
     ≠ 200 →
     (put_application_status_handler apps now authHeader id requested).1 = apps)
  ∧ ∀ user st app,
      authenticateToken now authHeader = inr user →
      requested = Some st → application_by_id apps id = Some app →
      sr_status (put_application_status_handler apps now authHeader id requested).2
      = 200 →
      sr_application (put_application_status_handler apps now authHeader id requested).2
      = Some {| a_id := id; a_user_id := a_user_id app; a_status := st;
                a_reviewed_by := Some (pl_id user) |}
      ∧ ∀ other, other ≠ id →
          application_by_id
            (put_application_status_handler apps now authHeader id requested).1 other
          = application_by_id apps other.
Proof.
  destruct (put_application_status_handler_cases apps now authHeader id requested)
    as [(r & -> & Hr & Hnone & Hnot)
       |(user & st & app & Hauth & Hreq & Hvalid & Happ & Hap & Hrev & ->)];
    cbn [fst snd sr_status sr_application].
  - split_and!; [split; [done|by intros ?]|done|done].
  - split_and!.
    + split; [|done]. intros _. by exists user, st, app.
    + done.
    + intros user' st' app' Hauth' Hreq' Happ' _.
      rewrite Hauth in Hauth'. injection Hauth' as <-.
      rewrite Hreq in Hreq'. injection Hreq' as <-.
      rewrite Happ in Happ'. injection Happ' as <-.
      apply application_by_id_found in Happ as [_ <-].
      split; [done|]. intros other Hne.
      rewrite application_by_id_set_status.
      destruct (application_by_id apps other) as [b|] eqn:Hb; [|done].
      simpl. apply application_by_id_found in Hb as [_ Hid].
      by rewrite bool_decide_eq_false_2 by congruence.
Qed.

(** ** The routes behind the sanitisation middleware *)

Lemma sanitized_Some field x :
  sanitized field = Some x ↔ ∃ raw, field = Some raw
                                    ∧ x = sanitizeString prepare raw.
Proof.
  unfold sanitized. rewrite fmap_Some. split.
  - intros (raw & -> & ->). by exists raw.
  - intros (raw & -> & ->). by exists raw.
Qed.

(** X10: the reset route answers 200 exactly for a reset token signed
    with the server secret that has not expired, together with a new
    password that has at least 6 characters once the sanitisation
    middleware has rewritten it (the length of the password as sent does
    not count); anything else, a session token included, is answered 400
    and changes nothing.  The forgot-password route gives the same
    response whether or not the account exists, and writes a reset token
    to the log exactly when the sanitised e-mail is not empty and has an
    account. *)
Theorem reset_password_gate s now salt token newPassword :
  (status (reset_password s now salt token newPassword).2 = 200
   ↔ ∃ claims pw,
       token = Some (ResetJwt JWT_SECRET claims)
       ∧ newPassword = Some pw
       ∧ (6 ≤ String.length (sanitizeString prepare pw))%nat
       ∧ now `div` 1000 < rc_exp claims)
  ∧ (status (reset_password s now salt token newPassword).2 = 200
     ∨ (status (reset_password s now salt token newPassword).2 = 400
        ∧ (reset_password s now salt token newPassword).1 = s))
  ∧ ∀ s' email,
      (forgot_password s now email).1 = (forgot_password s' now email).1
      ∧ (is_Some (forgot_password s now email).2
         ↔ ∃ em, email = Some em ∧ sanitizeString prepare em ≠ ""
                 ∧ is_Some (user_by_email (users s)
                              (sanitizeString prepare em))).
Proof.
  unfold reset_password, forgot_password.
  destruct (reset_password_handler_gate s now salt token
              (sanitized newPassword)) as (Hiff & Hframe & Hforgot).
  split_and!; [|exact Hframe|].
  - rewrite Hiff. split.
    + intros (claims & pw' & -> & (pw & -> & ->)%sanitized_Some & Hlen & Hexp).
      by exists claims, pw.
    + intros (claims & pw & -> & -> & Hlen & Hexp).
      by exists claims, (sanitizeString prepare pw).
  - intros s' email.
    destruct (reset_password_handler_gate s now salt token
                (sanitized newPassword)) as (_ & _ & Hf).
    destruct (Hf s' (sanitized email)) as [Hsame Hlog].
    split; [exact Hsame|]. rewrite Hlog. split.
    + intros (em' & (em & -> & ->)%sanitized_Some & Hne & Hrow).
      by exists em.
    + intros (em & -> & Hne & Hrow). by exists (sanitizeString prepare em).
Qed.

(** X11: forgot, reset, log in, each behind the sanitisation middleware.
    For an account that exists under the sanitised e-mail the forgot
    route logs a reset token; presented within the hour with a new
    password that has at least 6 characters once sanitised, it is
    answered 200 and the account's hash is the hash of the sanitised
    password.  The registry, the version store and the attempt counters
    are as before (session tokens issued before the reset stay valid, and
    a throttled e-mail stays throttled).  The login handler sees the same
    sanitised strings when the same e-mail and password are sent: it
    answers 200 when the throttle lets it through and [bcrypt.compare]
    accepts a password against its own hash. *)
Theorem forgot_reset_login s t0 em row :
  user_by_email (users s) (sanitizeString prepare em) = Some row →
  sanitizeString prepare em ≠ "" →
  ∃ tok,
    forgot_password s t0 (Some em)
    = (reply 200
         "If an account exists with that email, a password reset link will be sent.",
       Some tok)
    ∧ ∀ t1 salt pw,
        t1 `div` 1000 < t0 `div` 1000 + 3600 →
        (6 ≤ String.length (sanitizeString prepare pw))%nat →
        let s' := (reset_password s t1 salt (Some tok) (Some pw)).1 in
        status (reset_password s t1 salt (Some tok) (Some pw)).2 = 200
        ∧ r_password_hash
            <$> user_by_email (users s') (sanitizeString prepare em)
          = Some (bcrypt_hash (sanitizeString prepare pw) salt)
        ∧ (∀ other, other ≠ r_id row →
             user_by_id (users s') other = user_by_id (users s) other)
        ∧ activeSessions s' = activeSessions s
        ∧ sessionTokenVersions s' = sessionTokenVersions s
        ∧ loginAttempts s' = loginAttempts s
        ∧ ∀ now jti,
            bcrypt_compare (sanitizeString prepare pw)
              (bcrypt_hash (sanitizeString prepare pw) salt) = true →
            count (attempt_window s now (sanitized (Some em)))
            < maxAttempts →
            status (login s' now jti (sanitized (Some em))
                      (sanitized (Some pw))).2 = 200.
Proof.
  intros Hrow Hem.
  destruct (forgot_reset_login_handler s t0 _ row Hrow Hem) as (tok & Hf & Hr).
  exists tok. split; [exact Hf|].
  intros t1 salt pw Ht Hlen.
  exact (Hr t1 salt (sanitizeString prepare pw) Ht Hlen).
Qed.


(** X13: [PUT /api/applications/:id/status], behind the sanitisation
    middleware, answers 200 exactly when the token verifies, the
    requested status as sanitised is one of the five valid ones, the
    application exists, an applicant is submitting a draft of their own,
    and a review status is requested by an admin or an officer.  There is
    no other transition rule: staff may move an application from any
    status to any status.  On 200 the row carries the sanitised status
    and the caller as reviewer and every other application is as before;
    otherwise the table is unchanged. *)
Theorem application_status_rules apps now authHeader id requested :
  (sr_status (put_application_status apps now authHeader id requested).2 = 200
   ↔ ∃ user raw app,
       authenticateToken now authHeader = inr user
       ∧ requested = Some raw
       ∧ sanitizeString prepare raw ∈ validStatuses
       ∧ application_by_id apps id = Some app
       ∧ (pl_role user = Some "applicant" →
          a_user_id app = pl_id user
          ∧ sanitizeString prepare raw = "submitted"
          ∧ a_status app = "draft")
       ∧ (sanitizeString prepare raw
            ∈ ["under_review"; "accepted"; "rejected"] →
          pl_role user ∈ [Some "admin"; Some "officer"]))
  ∧ (sr_status (put_application_status apps now authHeader id requested).2
     ≠ 200 →
     (put_application_status apps now authHeader id requested).1 = apps)
  ∧ ∀ user raw app,
      authenticateToken now authHeader = inr user →
      requested = Some raw → application_by_id apps id = Some app →
      sr_status (put_application_status apps now authHeader id requested).2
      = 200 →
      sr_application (put_application_status apps now authHeader id requested).2
      = Some {| a_id := id; a_user_id := a_user_id app;
                a_status := sanitizeString prepare raw;
                a_reviewed_by := Some (pl_id user) |}
      ∧ ∀ other, other ≠ id →
          application_by_id
            (put_application_status apps now authHeader id requested).1 other
          = application_by_id apps other.
Proof.
  unfold put_application_status.
  destruct (application_status_handler_rules apps now authHeader id
              (sanitized requested)) as (Hiff & Hframe & Hrow).
  split_and!; [|exact Hframe|].
  - rewrite Hiff. split.
    + intros (user & st & app & Hauth & (raw & -> & ->)%sanitized_Some
              & Hvalid & Happ & Hown & Hrev).
      by exists user, raw, app.
    + intros (user & raw & app & Hauth & -> & Hvalid & Happ & Hown & Hrev).
      by exists user, (sanitizeString prepare raw), app.
  - intros user raw app Hauth -> Happ H200.
    exact (Hrow user (sanitizeString prepare raw) app Hauth eq_refl Happ H200).
Qed.

(** ** Input sanitisation *)

Lemma jsval_induction (P : jsval → Prop) :
  P JsNull → (∀ b, P (JsBool b)) → (∀ n d, P (JsNum n d)) →
  (∀ s, P (JsStr s)) →
  (∀ items, Forall P items → P (JsArr items)) →
  (∀ fields, Forall (λ kv, P kv.2) fields → P (JsObj fields)) →
  ∀ v, P v.
Proof.
  intros Hnull Hbool Hnum Hstr Harr Hobj. fix IH 1.
  intros [ |b|n d|s|items|fields]; [done..| |].
  - apply Harr. induction items as [|x items IHitems]; constructor.
    + apply IH.
    + apply IHitems.
  - apply Hobj. induction fields as [|kv fields IHfields]; constructor.
    + apply IH.
    + apply IHfields.
Qed.

Lemma replace_all_app c rep l1 l2 :
  replace_all c rep (l1 ++ l2) = replace_all c rep l1 ++ replace_all c rep l2.
Proof. unfold replace_all. apply bind_app. Qed.

Lemma encode_entities_app l1 l2 :
  encode_entities (l1 ++ l2) = encode_entities l1 ++ encode_entities l2.
Proof. unfold encode_entities. by rewrite !replace_all_app. Qed.

Lemma encode_entities_one x : encode_entities [x] = encode_char x.
Proof.
  destruct x as [[] [] [] [] [] [] [] []]; vm_compute; reflexivity.
Qed.

Lemma encode_entities_bind l : encode_entities l = l ≫= encode_char.
Proof.
  induction l as [|x l IH]; [done|].
  change (encode_entities (x :: l)) with (encode_entities ([x] ++ l)).
  by rewrite encode_entities_app, IH, encode_entities_one, bind_cons.
Qed.

Lemma encode_char_safe x c :
  c ∈ encode_char x → c ∉ html_special.
Proof.
  intros Hc.
  assert (forallb (λ c, negb (bool_decide (c ∈ html_special)))
            (encode_char x) = true) as Hall.
  { destruct x as [[] [] [] [] [] [] [] []]; vm_compute; reflexivity. }
  rewrite forallb_forall in Hall.
  apply list_elem_of_In, Hall, negb_true_iff, bool_decide_eq_false in Hc.
  done.
Qed.

Lemma encode_char_plain x :
  x ∉ html_special → x ≠ "&"%char → encode_char x = [x].
Proof.
  intros Hx Hamp. unfold encode_char.
  rewrite !(proj2 (Ascii.eqb_neq _ _)); [done|..]; intros ->;
    first [done | apply Hx; unfold html_special; set_solver].
Qed.

Lemma sanitizeString_encodes_safe s c :
  c ∈ html_special → c ∉ list_ascii_of_string (sanitizeString prepare s).
Proof.
  unfold sanitizeString.
  rewrite list_ascii_of_string_of_list_ascii, encode_entities_bind.
  intros Hc Hin. apply list_elem_of_bind in Hin as (x & Hx & _).
  by apply encode_char_safe in Hx.
Qed.

(** X14: the six replacements at the end of [sanitizeString], made one
    after the other, come to one pass that replaces each character by its
    entity: an ampersand of the input is encoded once, the ampersands that
    the later replacements introduce are not encoded again.  Whatever
    comes before the encoding, the result holds none of the characters
    [<], [>], double quote, ['] and [/], and a prepared string without
    these and without [&] is returned as prepared. *)
Theorem sanitizeString_encodes str :
  list_ascii_of_string (sanitizeString prepare str)
  = prepare (list_ascii_of_string str) ≫= encode_char
  ∧ (∀ c, c ∈ html_special →
          c ∉ list_ascii_of_string (sanitizeString prepare str))
  ∧ ((∀ c, c ∈ prepare (list_ascii_of_string str) →
           (c ∉ html_special) ∧ c ≠ "&"%char) →
     sanitizeString prepare str
     = string_of_list_ascii (prepare (list_ascii_of_string str))).
Proof.
  split_and!.
  - unfold sanitizeString.
    by rewrite list_ascii_of_string_of_list_ascii, encode_entities_bind.
  - intros c Hc. by apply sanitizeString_encodes_safe.
  - intros Hplain. unfold sanitizeString. rewrite encode_entities_bind.
    f_equal.
    induction (prepare (list_ascii_of_string str)) as [|x l IH]; [done|].
    rewrite bind_cons, IH.
    + destruct (Hplain x) as [? ?]; [left|]. by rewrite encode_char_plain.
    + intros c Hc. apply Hplain. by right.
Qed.

Lemma elem_of_concat_map {A B} (f : A → list B) (l : list A) (y : B) :
  y ∈ concat (map f l) ↔ ∃ x, x ∈ l ∧ y ∈ f x.
Proof.
  induction l as [|x l IH]; cbn [map concat].
  - split; [by intros ?%elem_of_nil|by intros (? & ?%elem_of_nil & _)].
  - rewrite elem_of_app, IH. split.
    + intros [?|(x' & ? & ?)]; [exists x|exists x']; split; try done;
        [left|by right].
    + intros (x' & [->|?]%elem_of_cons & ?); [by left|right; by exists x'].
Qed.

(** X15: the sanitisation middleware throws exactly on a body that holds,
    at any depth, an object with a property named [hasOwnProperty]. *)
Theorem sanitizeInput_throws_iff v :
  sanitizeInput prepare v = None ↔ "hasOwnProperty" ∈ keys_of v.
Proof.
  induction v as [ | | | |items IH|fields IH] using jsval_induction;
    cbn [sanitizeInput keys_of];
    try (split; [done|by intros ?%elem_of_nil]).
  - rewrite fmap_None, mapM_None, elem_of_concat_map, Exists_exists.
    rewrite Forall_forall in IH.
    split; intros (x & Hx & H); exists x; (split; [done|]); by apply IH.
  - rewrite elem_of_concat_map. rewrite Forall_forall in IH.
    case_bool_decide as Hown.
    + split; [intros _|done].
      apply list_elem_of_fmap in Hown as (kv & Hk & Hkv).
      exists kv. split; [done|]. rewrite Hk. left.
    + rewrite bind_None. split.
      * intros [Hnone|(copied & _ & ?)]; [|done].
        apply mapM_None, Exists_exists in Hnone as (kv & Hkv & Hnone).
        apply fmap_None in Hnone. exists kv. split; [done|]. right.
        by apply IH.
      * intros (kv & Hkv & [Hk|Hin]%elem_of_cons).
        { destruct Hown. apply list_elem_of_fmap. by exists kv. }
        left. apply mapM_None, Exists_exists. exists kv. split; [done|].
        apply fmap_None. by apply IH.
Qed.

Lemma Forall2_map_eq {A B C} (g : B → C) (h : A → C) l k :
  Forall2 (λ x y, g y = h x) l k → map g k = map h l.
Proof. induction 1 as [|x y l k Hxy _ IH]; [done|]. cbn. by rewrite Hxy, IH. Qed.

Lemma filter_all {A} (P : A → Prop) `{!∀ x, Decision (P x)} (l : list A) :
  Forall P l → filter P l = l.
Proof.
  induction 1 as [|x l Hx _ IH]; [done|]. by rewrite filter_cons_True, IH.
Qed.

(** X16: what the sanitisation middleware returns.  Every string in the
    result is the sanitised form of a string of the input, so none holds
    [<], [>], a quote or [/].  For a body without a property named
    [__proto__] the result has the shape of the input: the same property
    names (they are not encoded), numbers, booleans and nulls, and the
    strings sanitised one by one. *)
Theorem sanitizeInput_result v w :
  sanitizeInput prepare v = Some w →
  (∀ s, s ∈ strings_of w →
        (∃ s0, s0 ∈ strings_of v ∧ s = sanitizeString prepare s0)
        ∧ ∀ c, c ∈ html_special → c ∉ list_ascii_of_string s)
  ∧ ("__proto__" ∉ keys_of v →
     skeleton w = skeleton v
     ∧ keys_of w = keys_of v
     ∧ strings_of w = sanitizeString prepare <$> strings_of v).
Proof.
  intros Hw.
  assert ((∀ s, s ∈ strings_of w →
             ∃ s0, s0 ∈ strings_of v ∧ s = sanitizeString prepare s0)
          ∧ ("__proto__" ∉ keys_of v →
             skeleton w = skeleton v
             ∧ keys_of w = keys_of v
             ∧ strings_of w = sanitizeString prepare <$> strings_of v))
    as [Hfrom Hshape].
  2: { split; [|done]. intros s Hs. split; [by apply Hfrom|].
       destruct (Hfrom s Hs) as (s0 & _ & ->).
       intros c Hc. by apply sanitizeString_encodes_safe. }
  revert w Hw.
  induction v as [ | | | |items IH|fields IH] using jsval_induction;
    intros w Hw; cbn [sanitizeInput] in Hw.
  1-3: injection Hw as <-; (split; [by intros ? ?%elem_of_nil|done]).
  - injection Hw as <-. cbn [strings_of keys_of skeleton]. split; [|done].
    intros s0 ->%list_elem_of_singleton. exists s. split; [left|done].
  - apply fmap_Some in Hw as (items' & Hitems & ->).
    apply mapM_Some in Hitems. cbn [strings_of keys_of skeleton].
    assert (Forall2 (λ x y,
              (∀ s, s ∈ strings_of y →
                 ∃ s0, s0 ∈ strings_of x ∧ s = sanitizeString prepare s0)
              ∧ ("__proto__" ∉ keys_of x →
                 skeleton y = skeleton x ∧ keys_of y = keys_of x
                 ∧ strings_of y = sanitizeString prepare <$> strings_of x))
              items items') as Hall.
    { clear -IH Hitems. induction Hitems as [|x y l k Hxy _ IHl].
      - constructor.
      - inversion_clear IH as [|? ? Hx Hl]. constructor; [by apply Hx|].
        by apply IHl. }
    clear IH Hitems. split.
    + intros s (y & Hy & Hs)%elem_of_concat_map.
      apply list_elem_of_lookup in Hy as [i Hi].
      destruct (Forall2_lookup_r _ _ _ _ _ Hall Hi) as (x & Hx & [Hfrom _]).
      destruct (Hfrom s Hs) as (s0 & Hs0 & ->). exists s0. split; [|done].
      apply elem_of_concat_map. exists x. split; [|done].
      by eapply list_elem_of_lookup_2.
    + intros Hproto.
      assert (Forall2 (λ x y,
                skeleton y = skeleton x ∧ keys_of y = keys_of x
                ∧ strings_of y = sanitizeString prepare <$> strings_of x)
                items items') as Hall'.
      { clear -Hall Hproto. induction Hall as [|x y l k [_ Hxy] _ IHl].
        - constructor.
        - cbn [map concat] in Hproto. constructor.
          + apply Hxy. intros ?. apply Hproto, elem_of_app. by left.
          + apply IHl. intros ?. apply Hproto, elem_of_app. by right. }
      clear Hall Hproto. split_and!.
      * f_equal. apply Forall2_map_eq.
        eapply Forall2_impl; [exact Hall'|]. by intros ? ? (? & _).
      * f_equal. apply Forall2_map_eq.
        eapply Forall2_impl; [exact Hall'|]. by intros ? ? (_ & ? & _).
      * induction Hall' as [|x y l k (_ & _ & Hxy) _ IHl]; [done|].
        cbn [map concat]. by rewrite fmap_app, Hxy, IHl.
  - case_bool_decide as Hown; [done|].
    apply bind_Some in Hw as (copied & Hcopied & [= <-]).
    apply mapM_Some in Hcopied. cbn [strings_of keys_of skeleton].
    assert (Forall2 (λ kv kv',
              kv'.1 = kv.1
              ∧ (∀ s, s ∈ strings_of kv'.2 →
                   ∃ s0, s0 ∈ strings_of kv.2
                         ∧ s = sanitizeString prepare s0)
              ∧ ("__proto__" ∉ keys_of kv.2 →
                 skeleton kv'.2 = skeleton kv.2
                 ∧ keys_of kv'.2 = keys_of kv.2
                 ∧ strings_of kv'.2
                   = sanitizeString prepare <$> strings_of kv.2))
              fields copied) as Hall.
    { clear -IH Hcopied. induction Hcopied as [|x y l k Hxy _ IHl].
      - constructor.
      - inversion_clear IH as [|? ? Hx Hl].
        apply fmap_Some in Hxy as (y2 & Hy2 & ->).
        constructor; [|by apply IHl]. split; [done|]. by apply Hx. }
    clear IH Hcopied. split.
    + intros s (y & Hy & Hs)%elem_of_concat_map.
      apply list_elem_of_filter in Hy as [_ Hy].
      apply list_elem_of_lookup in Hy as [i Hi].
      destruct (Forall2_lookup_r _ _ _ _ _ Hall Hi)
        as (x & Hx & _ & Hfrom & _).
      destruct (Hfrom s Hs) as (s0 & Hs0 & ->). exists s0. split; [|done].
      apply elem_of_concat_map. exists x. split; [|done].
      by eapply list_elem_of_lookup_2.
    + intros Hproto.
      assert (Forall2 (λ kv kv',
                kv'.1 = kv.1 ∧ kv'.1 ≠ "__proto__"
                ∧ skeleton kv'.2 = skeleton kv.2
                ∧ keys_of kv'.2 = keys_of kv.2
                ∧ strings_of kv'.2
                  = sanitizeString prepare <$> strings_of kv.2)
                fields copied) as Hall'.
      { clear -Hall Hproto. induction Hall as [|x y l k (Hk & _ & Hxy) _ IHl].
        - constructor.
        - cbn [map concat] in Hproto. constructor.
          + split; [done|]. split.
            * rewrite Hk. intros Heq. apply Hproto, elem_of_app. left.
              rewrite Heq. left.
            * apply Hxy. intros ?. apply Hproto, elem_of_app. left.
              by right.
          + apply IHl. intros ?. apply Hproto, elem_of_app. by right. }
      clear Hall Hproto Hown. rewrite filter_all.
      2: { clear -Hall'. induction Hall' as [|x y l k (_ & ? & _) _ IHl];
             by constructor. }
      split_and!.
      * f_equal. apply Forall2_map_eq.
        eapply Forall2_impl; [exact Hall'|].
        intros ? ? (-> & _ & -> & _). done.
      * f_equal. apply Forall2_map_eq.
        eapply Forall2_impl; [exact Hall'|].
        intros ? ? (-> & _ & _ & -> & _). done.
      * induction Hall' as [|x y l k (_ & _ & _ & _ & Hxy) _ IHl]; [done|].
        cbn [map concat]. by rewrite fmap_app, Hxy, IHl.
Qed.

(** ** The onboarding helpers *)

Lemma has_length_truthy p f : has_length p f = true → profile_has p f = true.
Proof.
  unfold has_length, profile_has. by destruct (p !! f) as [[]|].
Qed.

Lemma count_filled p x l :
  length (filter (λ f, profile_has p f = true) (x :: l))
  = (Nat.b2n (profile_has p x)
     + length (filter (λ f, profile_has p f = true) l))%nat.
Proof. rewrite filter_cons. by destruct (profile_has p x). Qed.

Lemma count_missing p (x : string * string) l :
  length (filter (λ item : string * string, profile_has p item.1 = false)
            (x :: l))
  = ((1 - Nat.b2n (profile_has p x.1))
     + length (filter (λ item : string * string,
                         profile_has p item.1 = false) l))%nat.
Proof. rewrite filter_cons. by destruct (profile_has p x.1). Qed.

Lemma js_round_div_tenths c : js_round_div (c * 100) 10 = 10 * c.
Proof. unfold js_round_div. symmetry. apply (Z.div_unique _ _ _ 10); lia. Qed.

Lemma completion_formula p :
  calculateCompletion p = 100 - 10 * Z.of_nat (length (getMissingItems p)).
Proof.
  unfold calculateCompletion, getMissingItems.
  rewrite length_app, !length_fmap, !count_filled, !count_missing,
    !filter_nil.
  cbn [fst length Nat.add]. change (Z.of_nat 10) with 10.
  rewrite js_round_div_tenths.
  repeat match goal with
         | |- context [Nat.b2n ?b] =>
             let H := fresh in
             assert (Nat.b2n b ≤ 1)%nat as H by (destruct b; simpl; lia);
             generalize dependent (Nat.b2n b); intros
         end.
  lia.
Qed.

Lemma recommended_not_required (l : list (string * string)) :
  filter (λ m, mi_priority m = "required")
    ((λ item : string * string,
        {| mi_field := item.1; mi_label := item.2;
           mi_priority := "recommended" |}) <$> l)
  = [].
Proof.
  induction l as [|x l IH]; [done|].
  rewrite fmap_cons, filter_cons_False; [done|]. cbn [mi_priority]. done.
Qed.

Lemma required_missing p :
  (length (filter (λ m, mi_priority m = "required") (getMissingItems p))
   ≤ length (getMissingItems p)
   ≤ length (filter (λ m, mi_priority m = "required") (getMissingItems p)) + 3)%nat.
Proof.
  split; [apply length_filter|].
  unfold getMissingItems. rewrite filter_app, !length_app.
  rewrite (filter_all (λ m, mi_priority m = "required")
             ((λ item : string * string,
                 {| mi_field := item.1; mi_label := item.2;
                    mi_priority := "required" |}) <$> _)).
  2: { apply Forall_forall. by intros m (item & -> & _)%list_elem_of_fmap. }
  assert (length
            ((λ item : string * string,
                {| mi_field := item.1; mi_label := item.2;
                   mi_priority := "recommended" |})
               <$> filter (λ item : string * string,
                             profile_has p item.1 = false)
                     [("satScore", "SAT/ACT Score");
                      ("extracurriculars", "Extracurricular Activities");
                      ("recommendations", "Recommendation Letters")])
          ≤ 3)%nat; [|lia].
  rewrite length_fmap. etrans; [apply length_filter|]. simpl. lia.
Qed.

(** X17: the completion percentage and the list of missing items count
    the same ten fields: the percentage is 100 less 10 for each missing
    item.  So the readiness level is ["ready"] exactly at 100 percent,
    ["needs_work"] comes with at most 70 percent and ["almost"] with 50 to
    90 percent. *)
Theorem completion_counts_missing p :
  calculateCompletion p = 100 - 10 * Z.of_nat (length (getMissingItems p))
  ∧ 0 ≤ calculateCompletion p ≤ 100
  ∧ ((calculateReadiness p).1 = "ready" ↔ calculateCompletion p = 100)
  ∧ ((calculateReadiness p).1 = "needs_work" → calculateCompletion p ≤ 70)
  ∧ ((calculateReadiness p).1 = "almost" → 50 ≤ calculateCompletion p ≤ 90).
Proof.
  pose proof (completion_formula p) as Hc.
  pose proof (required_missing p) as [Hreq Hrec].
  assert (length (filter (λ m, mi_priority m = "required")
                    (getMissingItems p)) ≤ 7)%nat as Hseven.
  { unfold getMissingItems. rewrite filter_app, length_app.
    rewrite recommended_not_required.
    etrans; [apply Nat.add_le_mono_r, length_filter|].
    rewrite length_fmap. etrans; [apply Nat.add_le_mono_r, length_filter|].
    simpl. lia. }
  unfold calculateReadiness.
  repeat case_bool_decide; cbn [fst]; split_and!; try lia;
    try (split; intros; first [done | lia]); try done.
Qed.

Lemma filter_missing_has p f lab l :
  profile_has p f = true →
  filter (λ item : string * string, profile_has p item.1 = false)
    ((f, lab) :: l)
  = filter (λ item : string * string, profile_has p item.1 = false) l.
Proof.
  intros Hf. apply filter_cons_False. cbn [fst]. rewrite Hf. done.
Qed.

(** X18: a profile in the ["review"] phase has every required item: what
    is missing, if anything, is the SAT score or the extracurricular
    activities, both recommended; the completion is at least 80 percent
    and the readiness level is not ["needs_work"]. *)
Theorem review_phase_is_complete p :
  determinePhase p = "review" →
  (∀ m, m ∈ getMissingItems p →
        mi_priority m = "recommended"
        ∧ mi_field m ∈ ["satScore"; "extracurriculars"])
  ∧ 80 ≤ calculateCompletion p
  ∧ (calculateReadiness p).1 ≠ "needs_work".
Proof.
  intros Hphase.
  assert (profile_has p "firstName" = true ∧ profile_has p "lastName" = true
          ∧ profile_has p "email" = true ∧ profile_has p "programId" = true
          ∧ profile_has p "gpa" = true ∧ profile_has p "highSchool" = true
          ∧ profile_has p "personalStatement" = true
          ∧ profile_has p "recommendations" = true)
    as (E1 & E2 & E3 & E4 & E5 & E6 & E7 & E8).
  { pose proof (has_length_truthy p "recommendations") as Hrec.
    unfold determinePhase in Hphase.
    destruct (profile_has p "firstName"); [|done].
    destruct (profile_has p "lastName"); [|done].
    destruct (profile_has p "email"); [|done].
    destruct (profile_has p "programId"); [|done].
    destruct (profile_has p "gpa"); [|done].
    destruct (profile_has p "highSchool"); [|done].
    destruct (profile_has p "personalStatement"); [|done].
    destruct (has_length p "recommendations"); [|done].
    by rewrite Hrec. }
  assert (getMissingItems p
          = (λ item : string * string,
               {| mi_field := item.1; mi_label := item.2;
                  mi_priority := "recommended" |})
            <$> filter (λ item : string * string,
                          profile_has p item.1 = false)
                  [("satScore", "SAT/ACT Score");
                   ("extracurriculars", "Extracurricular Activities")])
    as Hmissing.
  { unfold getMissingItems.
    rewrite !filter_missing_has by assumption. rewrite filter_nil.
    rewrite (filter_cons _ ("satScore", _)),
      (filter_cons _ ("extracurriculars", _)).
    rewrite (filter_missing_has p "recommendations") by assumption.
    rewrite (filter_cons _ ("satScore", _)),
      (filter_cons _ ("extracurriculars", _)).
    done. }
  assert (length (getMissingItems p) ≤ 2)%nat as Hlen.
  { rewrite Hmissing, length_fmap. etrans; [apply length_filter|]. done. }
  split_and!.
  - rewrite Hmissing. intros m (item & -> & Hitem)%list_elem_of_fmap.
    split; [done|]. cbn [mi_field].
    apply list_elem_of_filter in Hitem as [_ Hitem].
    apply elem_of_cons in Hitem as [->|Hitem]; [left|].
    apply list_elem_of_singleton in Hitem as ->. right; left.
  - rewrite completion_formula. lia.
  - pose proof (required_missing p) as [Hreq _]. unfold calculateReadiness.
    repeat case_bool_decide; cbn [fst]; first [done | lia].
Qed.
(** * The states the server can reach *)

Lemma login_versions s now jti email password :
  sessionTokenVersions (login s now jti email password).1
  = sessionTokenVersions s.
Proof.
  unfold login.
  destruct (bool_decide (maxAttempts ≤ count (attempt_window s now email)));
    [done|].
  destruct (str_falsy email || str_falsy password); [done|].
  simpl.
  destruct (user_by_email (users s) (default "" email)) as [row|]; [|done].
  by destruct (bcrypt_compare _ _).
Qed.

Lemma logout_versions s now authHeader :
  sessionTokenVersions (logout s now authHeader).1 = sessionTokenVersions s.
Proof.
  unfold logout.
  destruct (authenticateToken now authHeader) as [r|user]; [done|].
  cbn [fst]. destruct (bearer authHeader) as [t|]; [|done].
  destruct (activeSessions s !! pl_id user); [|done].
  by destruct (token_falsy (Some t)).
Qed.

Lemma register_versions s now id jti salt email password name role :
  sessionTokenVersions (register s now id jti salt email password name role).1
  = sessionTokenVersions s
  ∨ sessionTokenVersions
      (register s now id jti salt email password name role).1
    = <[id := 1]> (sessionTokenVersions s).
Proof.
  destruct (decide (status (register s now id jti salt email password
                              name role).2 = 201)) as [H201|Hfail].
  - right.
    by destruct (register_created _ _ _ _ _ _ _ _ _ H201)
      as (em & nm & _ & _ & _ & _ & _ & Hv).
  - left. by rewrite register_refused.
Qed.

(** No request writes a version other than 1. *)
Lemma reachable_versions s :
  reachable s → ∀ id v, sessionTokenVersions s !! id = Some v → v = 1.
Proof.
  induction 1 as [db|s q _ IH Hq]; [done|].
  destruct q as [now id jti salt email password name role
                |now jti email password|now authHeader| |db];
    cbn [handle].
  - destruct (register_versions s now id jti salt email password name role)
      as [-> | ->]; [exact IH|].
    intros id' v. destruct (decide (id = id')) as [<-|Hne].
    + rewrite lookup_insert_eq. by intros [= <-].
    + rewrite lookup_insert_ne by done. apply IH.
  - by rewrite login_versions.
  - by rewrite logout_versions.
  - exact IH.
  - exact IH.
Qed.

(** With a limit of at least 1 every state the server reaches has every
    set within the limit. *)
Lemma reachable_registry_ok s :
  1 ≤ MAX_CONCURRENT_SESSIONS → reachable s → registry_ok s.
Proof.
  intros Hmax. induction 1 as [db|s q _ IH Hq]; [done|].
  destruct q as [now id jti salt email password name role
                |now jti email password|now authHeader| |db];
    cbn [handle].
  - destruct Hq as (Hfree & _). by apply register_keeps_registry.
  - apply login_keeps_registry; [done|lia].
  - by apply logout_keeps_registry.
  - by apply sweep_keeps_registry.
  - exact IH.
Qed.



End Server.

(** * Properties of the idle tracker *)

Section Tracker.

(** The time the logout request takes to settle. *)
Variable latency : Z.
Hypothesis latency_nonneg : 0 ≤ latency.

(** Reduction of the tracker's records and setters only: the arithmetic on
    times stays as written. *)
Ltac step_state :=
  cbv [fire run_callback client_logout clear_all clearTimer
       startCountdown setInterval setTimeout add_timer armed
       warning_phase logging_out settling timed_out set_clock set_timers set_credentials
       setShowTimeoutWarning setRemainingTime set_timeoutRef
       set_warningTimeoutRef set_countdownIntervalRef set_lastActivityRef
       earliest clock next_timer timers authToken user showTimeoutWarning
       remainingTime timeoutRef warningTimeoutRef countdownIntervalRef
       lastActivityRef tm_id tm_due tm_period tm_cb app fmap list_fmap].

(** Name the fields of a tracker state, so that its projections reduce. *)
Ltac open_client c :=
  destruct c as [clk nxt tms tok usr shw rem r1 r2 r3 la];
  cbn [clock next_timer timers authToken user showTimeoutWarning
       remainingTime timeoutRef warningTimeoutRef countdownIntervalRef
       lastActivityRef] in *.

(** Evaluate [filter] on an explicit timer table, by timer ids. *)
Ltac filter_step :=
  first [ rewrite filter_nil
        | rewrite filter_cons_True by (cbn; lia)
        | rewrite filter_cons_False by (cbn; lia) ].

(** Two states are equal when their fields are, up to arithmetic. *)
Ltac same_state := repeat first [reflexivity | lia | progress f_equal].

Lemma clearTimer_timers ref c :
  timers (clearTimer ref c)
  = filter (λ tm, Some (tm_id tm) ≠ ref) (timers c).
Proof.
  destruct ref as [i|]; simpl.
  - apply list_filter_iff. intros tm. split; [congruence|].
    intros H E. apply H. by rewrite E.
  - induction (timers c) as [|tm l IH]; [done|].
    rewrite filter_cons_True by done. by rewrite <- IH.
Qed.

Lemma clear_all_tracked c :
  tracked c → clear_all c = set_timers (next_timer c) [] c.
Proof.
  intros Htr.
  assert (timers (clear_all c) = []) as Hnil.
  { unfold clear_all. rewrite !clearTimer_timers.
    apply elem_of_nil_inv. intros tm Htm.
    apply list_elem_of_filter in Htm as [H3 Htm].
    apply list_elem_of_filter in Htm as [H2 Htm].
    apply list_elem_of_filter in Htm as [H1 Htm].
    destruct (Htr tm Htm) as [[?|[?|?]] _]; done. }
  destruct c as [clk n tms tok usr shw rem r1 r2 r3 la].
  unfold clear_all, clearTimer, set_timers in *.
  destruct r1, r2, r3; simpl in *; by rewrite ?Hnil.
Qed.

Lemma resetTimeout_armed c : tracked c → resetTimeout c = armed c.
Proof.
  intros Htr. unfold resetTimeout.
  assert (tracked (set_lastActivityRef (clock c) c)) as Htr' by done.
  rewrite (clear_all_tracked _ Htr'). done.
Qed.

Lemma ceil_div_thousands (a : Z) : js_ceil_div (1000 * a) 1000 = a.
Proof.
  unfold js_ceil_div. replace (- (1000 * a)) with ((- a) * 1000) by lia.
  rewrite Z.div_mul by lia. lia.
Qed.

Lemma timeouts_eval :
  SESSION_TIMEOUT = 1800000 ∧ WARNING_BEFORE_TIMEOUT = 120000.
Proof. done. Qed.

(** One turn of [advance], by what is due. *)
Lemma advance_wait fuel t c tm :
  earliest (timers c) = Some tm → t < tm_due tm →
  advance latency fuel t c = Some (set_clock (Z.max (clock c) t) c).
Proof.
  intros He Hlt. destruct fuel; cbn [advance]; rewrite He;
    by rewrite bool_decide_eq_false_2 by lia.
Qed.

Lemma advance_fire fuel t c tm :
  earliest (timers c) = Some tm → tm_due tm ≤ t →
  advance latency (S fuel) t c = advance latency fuel t (fire latency tm c).
Proof.
  intros He Hle. cbn [advance]. rewrite He.
  by rewrite bool_decide_eq_true_2 by done.
Qed.

Lemma advance_idle fuel t c :
  timers c = [] → advance latency fuel t c = Some (set_clock (Z.max (clock c) t) c).
Proof. intros He. destruct fuel; cbn [advance]; by rewrite He. Qed.

Lemma earliest_armed c :
  earliest (timers (armed c))
  = Some {| tm_id := next_timer c;
            tm_due := clock c + (SESSION_TIMEOUT - WARNING_BEFORE_TIMEOUT);
            tm_period := None; tm_cb := WarningCb |}.
Proof.
  destruct timeouts_eval as [HS HW]. open_client c. step_state.
  by rewrite bool_decide_eq_false_2 by lia.
Qed.

(** During the countdown the tick comes before the logout, except for the
    last tick, which is due together with the logout and created later. *)
Lemma earliest_countdown c k now :
  k < 119 →
  earliest (timers (warning_phase c k now))
  = Some {| tm_id := Pos.succ (Pos.succ (next_timer c));
            tm_due := clock c + (SESSION_TIMEOUT - WARNING_BEFORE_TIMEOUT)
                      + 1000 * (k + 1);
            tm_period := Some 1000;
            tm_cb := CountdownCb (clock c + SESSION_TIMEOUT) |}.
Proof.
  destruct timeouts_eval as [HS HW]. intros Hk. open_client c. step_state.
  by rewrite bool_decide_eq_true_2 by lia.
Qed.

Lemma earliest_last_second c now :
  earliest (timers (warning_phase c 119 now))
  = Some {| tm_id := Pos.succ (next_timer c);
            tm_due := clock c + SESSION_TIMEOUT;
            tm_period := None; tm_cb := LogoutCb |}.
Proof.
  destruct timeouts_eval as [HS HW]. open_client c. step_state.
  by rewrite bool_decide_eq_false_2 by lia.
Qed.

(** Nothing is due before the warning. *)
Lemma advance_quiet c fuel t :
  clock c ≤ t < clock c + (SESSION_TIMEOUT - WARNING_BEFORE_TIMEOUT) →
  advance latency fuel t (armed c) = Some (set_clock t (armed c)).
Proof.
  intros Ht. rewrite (advance_wait _ _ _ _ (earliest_armed c)).
  - cbn [armed clock]. by rewrite Z.max_r by lia.
  - cbn [tm_due]. lia.
Qed.

(** The warning callback, fired on time. *)
Lemma fire_warning c :
  fire latency {| tm_id := next_timer c;
          tm_due := clock c + (SESSION_TIMEOUT - WARNING_BEFORE_TIMEOUT);
          tm_period := None; tm_cb := WarningCb |} (armed c)
  = warning_phase c 0
      (clock c + (SESSION_TIMEOUT - WARNING_BEFORE_TIMEOUT)).
Proof.
  destruct timeouts_eval as [HS HW]. open_client c.
  step_state.
  repeat filter_step.
  rewrite Z.max_r by lia.
  rewrite (bool_decide_eq_false_2 (_ < _)) by lia.
  same_state.
Qed.

(** A tick of the countdown before the last second. *)
Lemma fire_tick c k now :
  0 ≤ k < 119 →
  now ≤ clock c + (SESSION_TIMEOUT - WARNING_BEFORE_TIMEOUT) + 1000 * (k + 1) →
  fire latency {| tm_id := Pos.succ (Pos.succ (next_timer c));
          tm_due := clock c + (SESSION_TIMEOUT - WARNING_BEFORE_TIMEOUT)
                    + 1000 * (k + 1);
          tm_period := Some 1000;
          tm_cb := CountdownCb (clock c + SESSION_TIMEOUT) |}
       (warning_phase c k now)
  = warning_phase c (k + 1)
      (clock c + (SESSION_TIMEOUT - WARNING_BEFORE_TIMEOUT) + 1000 * (k + 1)).
Proof.
  destruct timeouts_eval as [HS HW]. intros Hk Hnow. open_client c.
  step_state.
  rewrite (bool_decide_eq_false_2 (Pos.succ _ = _)) by lia.
  rewrite (bool_decide_eq_true_2 (Pos.succ _ = _)) by done.
  rewrite !(Z.max_r now) by lia.
  replace (clk + SESSION_TIMEOUT
           - (clk + (SESSION_TIMEOUT - WARNING_BEFORE_TIMEOUT)
              + 1000 * (k + 1)))
    with (1000 * (119 - k)) by lia.
  rewrite ceil_div_thousands.
  rewrite !(Z.max_r 0) by lia.
  rewrite (bool_decide_eq_false_2 (_ ≤ 0)) by lia.
  same_state.
Qed.

(** The logout timer, fired on time in the last second of the countdown:
    the request goes out and the dialog closes. *)
Lemma fire_logout c now :
  now ≤ clock c + SESSION_TIMEOUT →
  fire latency {| tm_id := Pos.succ (next_timer c);
                  tm_due := clock c + SESSION_TIMEOUT;
                  tm_period := None; tm_cb := LogoutCb |}
       (warning_phase c 119 now)
  = logging_out latency c (clock c + SESSION_TIMEOUT).
Proof.
  intros Hnow. open_client c. step_state.
  repeat filter_step.
  rewrite Z.max_r by lia. same_state.
Qed.

(** The last tick is due with the logout timer and runs after it. *)
Lemma earliest_logging_out c now :
  earliest (timers (logging_out latency c now))
  = Some {| tm_id := Pos.succ (Pos.succ (next_timer c));
            tm_due := clock c + (SESSION_TIMEOUT - WARNING_BEFORE_TIMEOUT)
                      + 1000 * (119 + 1);
            tm_period := Some 1000;
            tm_cb := CountdownCb (clock c + SESSION_TIMEOUT) |}.
Proof.
  destruct timeouts_eval as [HS HW]. open_client c. step_state.
  by rewrite bool_decide_eq_false_2 by lia.
Qed.

Lemma fire_last_tick c now :
  now ≤ clock c + SESSION_TIMEOUT →
  fire latency
       {| tm_id := Pos.succ (Pos.succ (next_timer c));
          tm_due := clock c + (SESSION_TIMEOUT - WARNING_BEFORE_TIMEOUT)
                    + 1000 * (119 + 1);
          tm_period := Some 1000;
          tm_cb := CountdownCb (clock c + SESSION_TIMEOUT) |}
       (logging_out latency c now)
  = settling latency c (clock c + SESSION_TIMEOUT).
Proof.
  destruct timeouts_eval as [HS HW]. intros Hnow. open_client c.
  step_state.
  rewrite (bool_decide_eq_true_2 (Pos.succ _ = _)) by done.
  rewrite (bool_decide_eq_false_2 (Pos.succ _ = _)) by lia.
  rewrite !(Z.max_r now) by lia.
  replace (clk + SESSION_TIMEOUT
           - (clk + (SESSION_TIMEOUT - WARNING_BEFORE_TIMEOUT)
              + 1000 * (119 + 1)))
    with (1000 * 0) by lia.
  rewrite ceil_div_thousands.
  rewrite (bool_decide_eq_true_2 (_ ≤ 0)) by done.
  repeat filter_step.
  same_state.
Qed.

Lemma earliest_settling c now :
  earliest (timers (settling latency c now))
  = Some {| tm_id := Pos.succ (Pos.succ (Pos.succ (next_timer c)));
            tm_due := clock c + SESSION_TIMEOUT + latency;
            tm_period := None; tm_cb := LogoutDoneCb |}.
Proof. done. Qed.

(** The request settles: the rest of [logout] runs. *)
Lemma fire_logout_done c now u :
  user c = Some u →
  now ≤ clock c + SESSION_TIMEOUT + latency →
  fire latency
       {| tm_id := Pos.succ (Pos.succ (Pos.succ (next_timer c)));
          tm_due := clock c + SESSION_TIMEOUT + latency;
          tm_period := None; tm_cb := LogoutDoneCb |}
       (settling latency c now)
  = timed_out c (clock c + SESSION_TIMEOUT + latency).
Proof.
  intros Hu Hnow. open_client c. step_state.
  rewrite Hu. repeat filter_step.
  rewrite Z.max_r by lia. same_state.
Qed.

(** Between two ticks of the countdown nothing is due. *)
Lemma advance_waiting c k now fuel t :
  0 ≤ k ≤ 119 → now ≤ t → t < clock c + SESSION_TIMEOUT →
  t < clock c + (SESSION_TIMEOUT - WARNING_BEFORE_TIMEOUT) + 1000 * (k + 1) →
  advance latency fuel t (warning_phase c k now) = Some (warning_phase c k t).
Proof.
  intros Hk Hnow Ht Hlt.
  destruct (decide (k = 119)) as [->|Hne].
  - rewrite (advance_wait _ _ _ _ (earliest_last_second c now))
      by (cbn [tm_due]; lia).
    unfold warning_phase, set_clock. cbn. by rewrite Z.max_r by lia.
  - rewrite (advance_wait _ _ _ _ (earliest_countdown c k now ltac:(lia)))
      by (cbn [tm_due]; lia).
    unfold warning_phase, set_clock. cbn. by rewrite Z.max_r by lia.
Qed.

Lemma advance_tick c k now fuel t :
  0 ≤ k < 119 →
  now ≤ clock c + (SESSION_TIMEOUT - WARNING_BEFORE_TIMEOUT) + 1000 * (k + 1) →
  clock c + (SESSION_TIMEOUT - WARNING_BEFORE_TIMEOUT) + 1000 * (k + 1) ≤ t →
  advance latency (S fuel) t (warning_phase c k now)
  = advance latency fuel t
      (warning_phase c (k + 1)
         (clock c + (SESSION_TIMEOUT - WARNING_BEFORE_TIMEOUT)
          + 1000 * (k + 1))).
Proof.
  intros Hk Hnow Ht.
  rewrite (advance_fire _ _ _ _ (earliest_countdown c k now ltac:(lia)))
    by (cbn [tm_due]; lia).
  by rewrite fire_tick.
Qed.

(** The countdown up to a time before the logout. *)
Lemma advance_countdown c t (j : nat) : ∀ k now fuel,
  0 ≤ k ≤ 119 →
  now ≤ clock c + (SESSION_TIMEOUT - WARNING_BEFORE_TIMEOUT) + 1000 * (k + 1) →
  now ≤ t →
  t < clock c + SESSION_TIMEOUT →
  t < clock c + (SESSION_TIMEOUT - WARNING_BEFORE_TIMEOUT)
      + 1000 * (k + 1 + Z.of_nat j) →
  (j ≤ fuel)%nat →
  ∃ k', k ≤ k' ≤ 119
        ∧ advance latency fuel t (warning_phase c k now) = Some (warning_phase c k' t).
Proof.
  destruct timeouts_eval as [HS HW].
  induction j as [|j IH]; intros k now fuel Hk Hnow Hnt Ht Hj Hfuel.
  - exists k. split; [lia|]. apply advance_waiting; lia.
  - destruct (Z.lt_ge_cases t
                (clock c + (SESSION_TIMEOUT - WARNING_BEFORE_TIMEOUT)
                 + 1000 * (k + 1))) as [Hlt|Hge].
    + exists k. split; [lia|]. apply advance_waiting; lia.
    + destruct fuel as [|fuel]; [lia|].
      destruct (IH (k + 1)
                  (clock c + (SESSION_TIMEOUT - WARNING_BEFORE_TIMEOUT)
                   + 1000 * (k + 1)) fuel) as (k' & Hk' & Hadv); [lia..|].
      exists k'. split; [lia|].
      rewrite advance_tick by lia. done.
Qed.

(** The countdown to its end, the logout timer, the last tick, and the
    settling of the request. *)
Lemma advance_logout c u t (j : nat) : ∀ k now fuel,
  user c = Some u →
  0 ≤ k → k + Z.of_nat j = 119 →
  now ≤ clock c + (SESSION_TIMEOUT - WARNING_BEFORE_TIMEOUT) + 1000 * (k + 1) →
  clock c + SESSION_TIMEOUT ≤ t →
  ((j + 2 ≤ fuel)%nat → t < clock c + SESSION_TIMEOUT + latency →
   advance latency fuel t (warning_phase c k now)
   = Some (settling latency c t))
  ∧ ((j + 3 ≤ fuel)%nat → clock c + SESSION_TIMEOUT + latency ≤ t →
     advance latency fuel t (warning_phase c k now) = Some (timed_out c t)).
Proof.
  destruct timeouts_eval as [HS HW].
  induction j as [|j IH]; intros k now fuel Hu Hk Hkj Hnow Ht.
  - assert (k = 119) as -> by lia. split.
    + intros Hfuel Hlt.
      destruct fuel as [|[|fuel]]; [lia..|].
      rewrite (advance_fire _ _ _ _ (earliest_last_second c now))
        by (cbn [tm_due]; lia).
      rewrite (fire_logout c now) by lia.
      rewrite (advance_fire _ _ _ _ (earliest_logging_out c _))
        by (cbn [tm_due]; lia).
      rewrite fire_last_tick by lia.
      rewrite (advance_wait _ _ _ _ (earliest_settling c _))
        by (cbn [tm_due]; lia).
      unfold settling, set_clock. cbn. by rewrite Z.max_r by lia.
    + intros Hfuel Hge.
      destruct fuel as [|[|[|fuel]]]; [lia..|].
      rewrite (advance_fire _ _ _ _ (earliest_last_second c now))
        by (cbn [tm_due]; lia).
      rewrite (fire_logout c now) by lia.
      rewrite (advance_fire _ _ _ _ (earliest_logging_out c _))
        by (cbn [tm_due]; lia).
      rewrite fire_last_tick by lia.
      rewrite (advance_fire _ _ _ _ (earliest_settling c _))
        by (cbn [tm_due]; lia).
      rewrite (fire_logout_done c _ u) by (done || lia).
      rewrite advance_idle by done.
      unfold timed_out, set_clock. cbn. by rewrite Z.max_r by lia.
  - destruct (IH (k + 1)
                (clock c + (SESSION_TIMEOUT - WARNING_BEFORE_TIMEOUT)
                 + 1000 * (k + 1))) with (fuel := pred fuel)
      as [IH1 IH2]; [done|lia..|].
    split; intros Hfuel Hcmp; (destruct fuel as [|fuel]; [lia|]);
      rewrite advance_tick by lia; cbn [pred] in *;
      [apply IH1|apply IH2]; lia.
Qed.

Lemma tracked_armed_now c : tracked (armed c).
Proof.
  intros tm Htm. cbn in Htm.
  apply elem_of_cons in Htm as [->|Htm]; [cbn; split; [auto|lia]|].
  apply list_elem_of_singleton in Htm as ->. cbn. split; [auto|lia].
Qed.

Lemma tracked_armed c t : tracked (set_clock t (armed c)).
Proof.
  intros tm Htm. cbn in Htm.
  apply elem_of_cons in Htm as [->|Htm]; [cbn; split; [auto|lia]|].
  apply list_elem_of_singleton in Htm as ->. cbn. split; [auto|lia].
Qed.

Lemma tracked_warning_phase c k t : tracked (warning_phase c k t).
Proof.
  intros tm Htm. cbn in Htm.
  apply elem_of_cons in Htm as [->|Htm]; [cbn; split; [auto|lia]|].
  apply list_elem_of_singleton in Htm as ->. cbn. split; [auto|lia].
Qed.

Lemma advance_past_warning c fuel t :
  clock c + (SESSION_TIMEOUT - WARNING_BEFORE_TIMEOUT) ≤ t →
  advance latency (S fuel) t (armed c)
  = advance latency fuel t
      (warning_phase c 0
         (clock c + (SESSION_TIMEOUT - WARNING_BEFORE_TIMEOUT))).
Proof.
  intros Ht.
  rewrite (advance_fire _ _ _ _ (earliest_armed c)) by (cbn [tm_due]; lia).
  by rewrite fire_warning.
Qed.

(** An armed tracker runs the cycle. *)
Lemma armed_cycle c u :
  user c = Some u → idle_cycle latency (clock c) u (armed c).
Proof.
  destruct timeouts_eval as [HS HW]. intros Hu. split_and!.
  - intros fuel t Ht. exists (set_clock t (armed c)).
    by rewrite advance_quiet.
  - intros fuel t Hfuel Ht.
    destruct fuel as [|fuel]; [lia|].
    rewrite advance_past_warning by lia.
    destruct (advance_countdown c t 120 0
                (clock c + (SESSION_TIMEOUT - WARNING_BEFORE_TIMEOUT)) fuel)
      as (k' & _ & ->); [lia..|].
    by eexists.
  - intros fuel t Hfuel Ht.
    destruct fuel as [|fuel]; [lia|].
    rewrite advance_past_warning by lia.
    destruct (advance_logout c u t 119 0
                (clock c + (SESSION_TIMEOUT - WARNING_BEFORE_TIMEOUT)) fuel
                Hu) as [Hrun _]; [lia..|].
    rewrite Hrun by lia. by eexists.
  - intros fuel t Hfuel Ht.
    destruct fuel as [|fuel]; [lia|].
    rewrite advance_past_warning by lia.
    destruct (advance_logout c u t 119 0
                (clock c + (SESSION_TIMEOUT - WARNING_BEFORE_TIMEOUT)) fuel
                Hu) as [_ Hrun]; [lia..|].
    rewrite Hrun by lia. by eexists.
Qed.


(** ** The countdown and the extension of the session *)

Lemma advance_countdown_exact c t (j : nat) : ∀ k now fuel,
  0 ≤ k ≤ 119 →
  now ≤ clock c + (SESSION_TIMEOUT - WARNING_BEFORE_TIMEOUT) + 1000 * (k + 1) →
  now ≤ t →
  clock c + (SESSION_TIMEOUT - WARNING_BEFORE_TIMEOUT) + 1000 * k ≤ t →
  t < clock c + SESSION_TIMEOUT →
  t < clock c + (SESSION_TIMEOUT - WARNING_BEFORE_TIMEOUT)
      + 1000 * (k + 1 + Z.of_nat j) →
  (j ≤ fuel)%nat →
  advance latency fuel t (warning_phase c k now)
  = Some (warning_phase c
            ((t - (clock c + (SESSION_TIMEOUT - WARNING_BEFORE_TIMEOUT)))
               `div` 1000) t).
Proof.
  destruct timeouts_eval as [HS HW].
  assert (∀ k, clock c + (SESSION_TIMEOUT - WARNING_BEFORE_TIMEOUT)
               + 1000 * k ≤ t →
               t < clock c + (SESSION_TIMEOUT - WARNING_BEFORE_TIMEOUT)
                   + 1000 * (k + 1) →
               (t - (clock c + (SESSION_TIMEOUT - WARNING_BEFORE_TIMEOUT)))
                 `div` 1000 = k) as Hdiv.
  { intros k Hlo Hhi. symmetry.
    apply (Z.div_unique _ _ _
             (t - (clock c + (SESSION_TIMEOUT - WARNING_BEFORE_TIMEOUT))
              - 1000 * k)); lia. }
  induction j as [|j IH]; intros k now fuel Hk Hnow Hnt Hlo Ht Hj Hfuel.
  - rewrite (Hdiv k) by lia. apply advance_waiting; lia.
  - destruct (Z.lt_ge_cases t
                (clock c + (SESSION_TIMEOUT - WARNING_BEFORE_TIMEOUT)
                 + 1000 * (k + 1))) as [Hlt|Hge].
    + rewrite (Hdiv k) by lia. apply advance_waiting; lia.
    + destruct fuel as [|fuel]; [lia|].
      rewrite advance_tick by lia. apply IH; lia.
Qed.


(** X20: the button of the warning dialog.  Pressed at any time while the
    dialog is up, [extendSession] does what an activity event does: the
    dialog goes, the countdown and the pending logout are cancelled, and a
    full idle cycle starts at that time. *)
Theorem extend_session_restarts c u :
  tracked c → user c = Some u →
  ∀ fuel t,
    (121 ≤ fuel)%nat →
    clock c + (SESSION_TIMEOUT - WARNING_BEFORE_TIMEOUT) ≤ t
      < clock c + SESSION_TIMEOUT →
    ∃ c',
      advance latency fuel t (handleActivity c) = Some c'
      ∧ showTimeoutWarning c' = true
      ∧ showTimeoutWarning (extendSession c') = false
      ∧ timers (extendSession c')
        = [{| tm_id := next_timer c';
              tm_due := t + (SESSION_TIMEOUT - WARNING_BEFORE_TIMEOUT);
              tm_period := None; tm_cb := WarningCb |};
           {| tm_id := Pos.succ (next_timer c');
              tm_due := t + SESSION_TIMEOUT;
              tm_period := None; tm_cb := LogoutCb |}]
      ∧ idle_cycle latency t u (extendSession c').
Proof.
  destruct timeouts_eval as [HS HW]. intros Htr Hu fuel t Hfuel Ht.
  assert (handleActivity c = armed c) as ->.
  { unfold handleActivity. rewrite Hu. by apply resetTimeout_armed. }
  destruct fuel as [|fuel]; [lia|].
  rewrite advance_past_warning by lia.
  rewrite (advance_countdown_exact c t 120 0) by lia.
  set (k := (t - (clock c + (SESSION_TIMEOUT - WARNING_BEFORE_TIMEOUT)))
              `div` 1000).
  exists (warning_phase c k t). split; [done|]. split; [done|].
  assert (extendSession (warning_phase c k t) = armed (warning_phase c k t))
    as ->.
  { unfold extendSession.
    rewrite resetTimeout_armed; [done|].
    exact (tracked_warning_phase c k t). }
  split; [done|]. split; [done|].
  apply (armed_cycle (warning_phase c k t) u). done.
Qed.

(** ** A session that is idle from sign-in on *)

Lemma advance_nothing_pending fuel t c :
  timers c = [] →
  ∃ c', advance latency fuel t c = Some c'
        ∧ user c' = user c ∧ authToken c' = authToken c
        ∧ showTimeoutWarning c' = showTimeoutWarning c ∧ timers c' = [].
Proof.
  intros Hnil. rewrite advance_idle by done. eexists. split; [done|].
  by destruct c.
Qed.

(** C8 (the code departs from the claim): signing in leaves no timer
    pending.  On a page load with stored credentials the mount effect
    does call [resetTimeout], but the re-render for the new [user] runs
    the cleanup of the activity effect, which clears the timers just set;
    [login] sets none.  So a session in which no activity event has
    happened yet is never warned and never logged out, however long it
    stays idle. *)
Theorem idle_since_sign_in_never_times_out c t u :
  tracked c →
  ∀ c0, c0 = validateToken_ok u c ∨ c0 = client_login t u c →
    timers c0 = [] ∧ user c0 = Some u
    ∧ ∀ fuel now,
        ∃ c', advance latency fuel now c0 = Some c'
              ∧ user c' = Some u
              ∧ authToken c' = authToken c0
              ∧ showTimeoutWarning c' = showTimeoutWarning c0
              ∧ timers c' = [].
Proof.
  intros Htr c0 Hc0.
  assert (timers c0 = [] ∧ user c0 = Some u) as [Hnil Hu].
  { destruct Hc0 as [-> | ->].
    - unfold validateToken_ok, effect_cleanup.
      assert (tracked (set_credentials (authToken c) (Some u) c)) as Htr'
        by done.
      rewrite (resetTimeout_armed _ Htr').
      by rewrite (clear_all_tracked _ (tracked_armed_now _)).
    - unfold client_login, effect_cleanup.
      assert (tracked (set_credentials (Some t) (Some u) c)) as Htr' by done.
      by rewrite (clear_all_tracked _ Htr'). }
  split; [done|]. split; [done|]. intros fuel now.
  destruct (advance_nothing_pending fuel now c0 Hnil)
    as (c' & Hadv & Hu' & Htok & Hshow & Hnil').
  exists c'. rewrite Hadv, Hu', Hu. by split_and!.
Qed.

End Tracker.

(** * Examples *)

Example demo_server_by_registration :
  register "k" plain_hash empty_server 1000 "u1" "j0" "salt"
    (Some "x@y.com") (Some "password1") (Some "X") RoleAbsent
  = (demo_server,
     {| status := 201;
        body := JAuth "Registration successful" demo_user demo_token |}).
Proof. vm_compute. reflexivity. Qed.

(** One idle cycle with a logout request that takes a quarter of a
    second: when the logout timer has fired and the last tick has run the
    user is still signed in; the request settles in turn 123. *)
Example idle_cycle_needs_123_turns :
  let c := handleActivity (mounted 0 demo_token demo_user) in
  advance 250 122 SESSION_TIMEOUT c
  = Some (settling 250 (mounted 0 demo_token demo_user) SESSION_TIMEOUT)
  ∧ advance 250 122 (SESSION_TIMEOUT + 250) c = None
  ∧ advance 250 123 (SESSION_TIMEOUT + 250) c
    = Some (timed_out (mounted 0 demo_token demo_user)
              (SESSION_TIMEOUT + 250)).
Proof. vm_compute. split_and!; reflexivity. Qed.

(** The two ways to sign in on a fresh mount, and a login on it. *)
Example sign_in_sets_no_timer :
  timers (validateToken_ok demo_user
            (set_credentials (Some demo_token) None (initial 0))) = []
  ∧ client_login demo_token demo_user (initial 0)
    = mounted 0 demo_token demo_user.
Proof. vm_compute. split; reflexivity. Qed.

(** The demo server is the server after one registration. *)
Lemma demo_server_reachable :
  reachable "k" 5 plain_hash plain_compare demo_server.
Proof.
  replace demo_server
    with (handle "k" 5 plain_hash plain_compare (started [])
            (Register 1000 "u1" "j0" "salt" (Some "x@y.com")
               (Some "password1") (Some "X") RoleAbsent))
    by (vm_compute; reflexivity).
  apply reachable_step; [apply reachable_start|].
  by split_and!.
Defined.



(** C2, as the specification words it, fails: [validateSession] accepts a
    token that carries session version 2 for a principal the version
    store has never recorded, whose current version is 1 by default. *)
Lemma validation_differs_from_spec : ¬ validation_matches_spec "k".
Proof.
  intros H.
  destruct (H empty_server 0 (Jwt "k" (demo_claims 2 "j"))) as [Hacc0 _].
  destruct Hacc0 as (c & Hc & _ & Hv).
  { eexists. vm_compute. reflexivity. }
  injection Hc as <-. vm_compute in Hv. discriminate.
Qed.

(** C3, as the specification words it, fails: a token that is no JWT is
    rejected with status 403, not 401. *)
Lemma malformed_token_answers_403 : ¬ rejections_answer_401 "k".
Proof.
  intros H.
  specialize (H empty_server 0 (bearer_header (Opaque "garbage"))
                (reply 403 "Invalid or expired token")).
  assert (status (reply 403 "Invalid or expired token") = 401) as E.
  { apply H. right. vm_compute. reflexivity. }
  vm_compute in E. discriminate.
Qed.

Lemma failure_statuses_example :
  token_falsy (Some (Opaque "garbage")) = false
  ∧ validateSession "k" demo_server 5000 (bearer_header (Opaque "garbage"))
    = inl (reply 403 "Invalid or expired token")
  ∧ authenticateToken "k" 5000 (bearer_header (Opaque "garbage"))
    = inl (reply 403 "Invalid or expired token").
Proof.
  destruct (failure_statuses "k" 5 plain_compare demo_server 5000
              (bearer_header (Opaque "garbage"))) as (_ & H & _).
  split; [reflexivity|].
  exact (H (Opaque "garbage") eq_refl eq_refl).
Defined.

(** Six logins on the demo server, whose registry entry holds the token
    of the registration: the five newest remain. *)
Lemma six_logins_example :
  let run := login_run "k" 5 plain_compare demo_server demo_logins in
  Forall (λ r, status r = 200) run.2
  ∧ sessions_of run.1 "u1"
    = tokens_of "k" (sessionTokenVersions demo_server) demo_user
        (drop 1 demo_logins).
Proof.
  intros run.
  assert (Forall (λ r, status r = 200) run.2) as Hall
    by (vm_compute; repeat constructor).
  split; [exact Hall|].
  refine (proj1 (six_logins_keep_newest_five "k" 5 plain_compare demo_server
                   "x@y.com" demo_row
                   (mk_login 2000 "j1" (Some "x@y.com") (Some "password1"))
                   (mk_login 2000 "j2" (Some "x@y.com") (Some "password1"))
                   (mk_login 2000 "j3" (Some "x@y.com") (Some "password1"))
                   (mk_login 2000 "j4" (Some "x@y.com") (Some "password1"))
                   (mk_login 2000 "j5" (Some "x@y.com") (Some "password1"))
                   (mk_login 2000 "j6" (Some "x@y.com") (Some "password1"))
                   eq_refl _ _ _ _ Hall)).
  - vm_compute. reflexivity.
  - repeat constructor.
  - compute_done.
  - vm_compute. discriminate.
Defined.

(** C5, as the specification words it, fails: with 899 seconds left in
    the window the response carries [retryAfter = 15], the minutes. *)
Lemma retry_after_is_minutes :
  ¬ retry_after_in_seconds "k" 5 plain_compare.
Proof.
  intros H.
  assert (login "k" 5 plain_compare throttled_server 3000 "j"
            (Some "x@y.com") (Some "password1")
          = (throttled_server,
             {| status := 429;
                body := JRateLimit
                  "Too many login attempts. Please try again in 15 minutes."
                  15 |})) as E by (vm_compute; reflexivity).
  pose proof (H throttled_server 3000 "j" (Some "x@y.com") (Some "password1")
                "Too many login attempts. Please try again in 15 minutes."
                15) as H'.
  rewrite E in H'. specialize (H' eq_refl).
  vm_compute in H'. discriminate.
Qed.

Lemma throttle_example :
  let run :=
    login_run "k" 5 plain_compare demo_server
      [mk_login 2000 "j1" (Some "x@y.com") (Some "wrong");
       mk_login 2000 "j2" (Some "x@y.com") (Some "wrong");
       mk_login 2000 "j3" (Some "x@y.com") (Some "wrong");
       mk_login 2000 "j4" (Some "x@y.com") (Some "wrong");
       mk_login 2000 "j5" (Some "x@y.com") (Some "wrong")] in
  Forall (λ r, status r = 401) run.2
  ∧ login "k" 5 plain_compare run.1 3000 "j6" (Some "x@y.com")
      (Some "password1")
    = (run.1,
       {| status := 429;
          body := JRateLimit
            "Too many login attempts. Please try again in 15 minutes."
            15 |})
  ∧ status (login "k" 5 plain_compare run.1 902001 "j7" (Some "x@y.com")
              (Some "password1")).2 = 200.
Proof.
  intros run.
  assert (Forall (λ r, status r = 401) run.2) as Hall
    by (vm_compute; repeat constructor).
  assert (∀ a, loginAttempts demo_server !! Some "x@y.com" = Some a
               → 0 ≤ count a) as Hcount.
  { intros a H. vm_compute in H. discriminate. }
  destruct (throttle_after_five_failures "k" 5 plain_compare demo_server
              (Some "x@y.com") 2000 2000 2000 2000 2000
              "j1" "j2" "j3" "j4" "j5"
              (Some "wrong") (Some "wrong") (Some "wrong") (Some "wrong")
              (Some "wrong") Hcount)
    as [Hlimited Hafter]; [vm_compute; discriminate..|exact Hall|].
  split; [exact Hall|]. split.
  - destruct (Hlimited 3000 "j6" (Some "password1")) as [E _];
      [vm_compute; discriminate|].
    exact E.
  - refine (f_equal status
              (Hafter 902001 "j7" "x@y.com" "password1" demo_row _ eq_refl
                 _ _ _)).
    + vm_compute. reflexivity.
    + discriminate.
    + vm_compute. reflexivity.
    + vm_compute. reflexivity.
Defined.

Lemma logout_frame_example :
  jwt_verify 5000 demo_token "k" = inr (demo_claims 1 "j0")
  ∧ (logout "k" demo_server 5000 (bearer_header demo_token)).2
    = reply 200 "Logged out successfully"
  ∧ sessions_of (logout "k" demo_server 5000 (bearer_header demo_token)).1
      "u1"
    = set_delete demo_token (sessions_of demo_server "u1").
Proof.
  assert (jwt_verify 5000 demo_token "k" = inr (demo_claims 1 "j0")) as Hv
    by (vm_compute; reflexivity).
  destruct (logout_frame "k" demo_server 5000 (Opaque "Bearer") demo_token []
              (demo_claims 1 "j0") Hv) as (H1 & H2 & _).
  split; [exact Hv|]. split; [exact H1|exact H2].
Defined.

(** C7, as the specification words it, fails: the token of the
    registration, presented after its expiry (86401 s), is answered with
    403. *)
Lemma logout_rejects_expired_token : ¬ logout_always_200 "k".
Proof.
  intros H.
  specialize (H demo_server 90000000 (Opaque "Bearer") demo_token [] eq_refl).
  vm_compute in H. discriminate.
Qed.

Lemma logout_gate_example :
  token_falsy (Some (Opaque "garbage")) = false
  ∧ logout "k" demo_server 5000 (bearer_header (Opaque "garbage"))
    = (demo_server, reply 403 "Invalid or expired token").
Proof.
  split; [reflexivity|].
  exact (logout_behind_gate "k" demo_server 5000 (Opaque "Bearer")
           (Opaque "garbage") [] eq_refl).
Defined.

(** A user signs in on a fresh mount and then does nothing: a day later
    the session is as it was. *)
Lemma idle_since_sign_in_example :
  tracked (initial 0)
  ∧ ∃ c',
      advance 250 0 86400000 (client_login demo_token demo_user (initial 0))
      = Some c'
      ∧ user c' = Some demo_user
      ∧ showTimeoutWarning c' = false
      ∧ timers c' = [].
Proof.
  assert (tracked (initial 0)) as Htr.
  { intros tm H. by apply not_elem_of_nil in H. }
  split; [exact Htr|].
  destruct (idle_since_sign_in_never_times_out 250 (initial 0) demo_token
              demo_user Htr _ (or_intror eq_refl)) as (_ & _ & Hrun).
  destruct (Hrun 0%nat 86400000) as (c' & Hadv & Hu & _ & Hshow & Hnil).
  exists c'. split; [exact Hadv|]. split; [exact Hu|].
  split; [exact Hshow|exact Hnil].
Defined.


(** An administrator demoted in the [users] table keeps passing the admin
    gate with the token issued before. *)
Lemma demoted_admin_example :
  let s' := (put_user_role "k" staff_server 5000 (bearer_header admin_token)
               "a1" (Some "applicant")).1 in
  r_role <$> user_by_id (users s') "a1" = Some (Some "applicant")
  ∧ status (get_users "k" s' 6000 (bearer_header admin_token)) = 200.
Proof.
  intros s'. split; [vm_compute; reflexivity|].
  pose proof (proj1 (role_gate_reads_token_only "k" s' 6000 (Opaque "Bearer")
                       admin_token [])) as H.
  exact (proj1 H).
Defined.

(** ** Examples for the further properties *)




(** Anyone may register as an administrator: the token of the
    registration opens [GET /api/users]. *)
Lemma register_as_admin_example :
  status (register "k" plain_hash empty_server 1000 "a1" "ja" "salt"
            (Some "admin@college.edu") (Some "admin123")
            (Some "Admin User") (RoleText "admin")).2 = 201
  ∧ ∃ u tok,
      body (register "k" plain_hash empty_server 1000 "a1" "ja" "salt"
              (Some "admin@college.edu") (Some "admin123")
              (Some "Admin User") (RoleText "admin")).2
      = JAuth "Registration successful" u tok
      ∧ u_role u = Some "admin"
      ∧ status (get_users "k"
                  (register "k" plain_hash empty_server 1000 "a1" "ja" "salt"
                     (Some "admin@college.edu") (Some "admin123")
                     (Some "Admin User") (RoleText "admin")).1
                  5000 (Some [Opaque "Bearer"; tok])) = 200.
Proof.
  assert (status (register "k" plain_hash empty_server 1000 "a1" "ja" "salt"
                    (Some "admin@college.edu") (Some "admin123")
                    (Some "Admin User") (RoleText "admin")).2 = 201) as H
    by (vm_compute; reflexivity).
  split; [exact H|].
  pose proof (register_grants_requested_role "k" plain_hash empty_server 1000
                "a1" "ja" "salt" (Some "admin@college.edu") (Some "admin123")
                (Some "Admin User") (RoleText "admin") H) as Hrole.
  cbv zeta in Hrole. destruct Hrole as (u & tok & Hb & Hr & _ & _ & _ & Hg).
  exists u, tok. split; [exact Hb|]. split; [exact Hr|].
  refine (Hg 5000 (Opaque "Bearer") [] _). vm_compute. reflexivity.
Defined.

(** A body with [role: null]: the default does not apply, the [CHECK]
    lets [NULL] through, and the token carries no role. *)
Example register_null_role :
  register "k" plain_hash empty_server 1000 "u1" "j0" "salt"
    (Some "x@y.com") (Some "password1") (Some "X") RoleNull
  = ({| activeSessions :=
          {[ "u1" := [Jwt "k" {| pl_id := "u1"; pl_email := "x@y.com";
                                 pl_name := "X"; pl_role := None;
                                 pl_sessionVersion := 1; pl_iat := 1;
                                 pl_exp := 86401; pl_jti := "j0" |}] ]};
        sessionTokenVersions := {[ "u1" := 1 ]};
        loginAttempts := ∅;
        users := [{| r_id := "u1"; r_email := "x@y.com";
                     r_password_hash := "password1"; r_name := "X";
                     r_role := None; r_created_at := 1 |}] |},
     {| status := 201;
        body := JAuth "Registration successful"
                  {| u_id := "u1"; u_email := "x@y.com"; u_name := "X";
                     u_role := None |}
                  (Jwt "k" {| pl_id := "u1"; pl_email := "x@y.com";
                              pl_name := "X"; pl_role := None;
                              pl_sessionVersion := 1; pl_iat := 1;
                              pl_exp := 86401; pl_jti := "j0" |}) |}).
Proof. vm_compute. reflexivity. Qed.

Lemma register_then_login_example :
  status (register "k" plain_hash empty_server 1000 "u1" "j0" "salt"
            (Some "x@y.com") (Some "password1") (Some "X") RoleAbsent).2 = 201
  ∧ plain_compare "password1" (plain_hash "password1" "salt") = true
  ∧ count (attempt_window empty_server 2000 (Some "x@y.com")) < maxAttempts
  ∧ status (login "k" 5 plain_compare
              (register "k" plain_hash empty_server 1000 "u1" "j0" "salt"
                 (Some "x@y.com") (Some "password1") (Some "X") RoleAbsent).1
              2000 "j1" (Some "x@y.com") (Some "password1")).2 = 200.
Proof.
  assert (status (register "k" plain_hash empty_server 1000 "u1" "j0" "salt"
                    (Some "x@y.com") (Some "password1") (Some "X") RoleAbsent).2
          = 201) as H1 by (vm_compute; reflexivity).
  assert (plain_compare "password1" (plain_hash "password1" "salt") = true)
    as H2 by (vm_compute; reflexivity).
  assert (count (attempt_window empty_server 2000 (Some "x@y.com"))
          < maxAttempts) as H3 by (vm_compute; reflexivity).
  split; [exact H1|]. split; [exact H2|]. split; [exact H3|].
  pose proof (register_then_login "k" 5 plain_hash plain_compare empty_server
                1000 "u1" "j0" "salt" "x@y.com" "password1" (Some "X") RoleAbsent
                2000 "j1" H1 H2 H3) as Hlogin.
  cbv zeta in Hlogin. destruct Hlogin as (u & tok & Hl & _).
  exact (f_equal status Hl).
Defined.

Lemma registry_invariant_example :
  registry_ok 5 demo_server
  ∧ registry_ok 5 (sweep 5 demo_server)
  ∧ registry_ok 5
      (login "k" 5 plain_compare demo_server 2000 "j1" (Some "x@y.com")
         (Some "password1")).1.
Proof.
  assert (registry_ok 5 demo_server) as Hok.
  { intros id tokens H.
    change (activeSessions demo_server)
      with ({[ "u1" := [demo_token] ]} : gmap string (list token)) in H.
    apply lookup_singleton_Some in H as [_ <-].
    split; [apply NoDup_singleton|simpl; lia]. }
  destruct (registry_invariant "k" 5 plain_hash plain_compare demo_server Hok)
    as (Hlogin & _ & Hsweep & _).
  split; [exact Hok|]. split; [exact Hsweep|]. apply Hlogin. lia.
Defined.


(** A wrong password for the applicant, and the same request on a server
    that has no such account. *)
Lemma login_hides_unknown_email_example :
  loginAttempts empty_server = loginAttempts demo_server
  ∧ user_by_email (users empty_server) "x@y.com" = None
  ∧ user_by_email (users demo_server) "x@y.com" = Some demo_row
  ∧ plain_compare "wrong" (r_password_hash demo_row) = false
  ∧ (login "k" 5 plain_compare empty_server 2000 "j" (Some "x@y.com")
       (Some "wrong")).2
    = (login "k" 5 plain_compare demo_server 2000 "j" (Some "x@y.com")
         (Some "wrong")).2.
Proof.
  assert (user_by_email (users empty_server) "x@y.com" = None) as H1
    by (vm_compute; reflexivity).
  assert (user_by_email (users demo_server) "x@y.com" = Some demo_row) as H2
    by (vm_compute; reflexivity).
  assert (plain_compare "wrong" (r_password_hash demo_row) = false) as H3
    by (vm_compute; reflexivity).
  split; [reflexivity|]. split; [exact H1|]. split; [exact H2|].
  split; [exact H3|].
  exact (proj1 (login_hides_unknown_email "k" 5 plain_compare empty_server
                  demo_server 2000 "j" "x@y.com" "wrong" demo_row eq_refl
                  H1 H2 H3)).
Defined.

(** The sweep with a limit of 2 on an entry of five tokens. *)
Lemma sweep_idempotent_example :
  (∀ id tokens,
     activeSessions crowded_server !! id = Some tokens → NoDup tokens)
  ∧ sweep 2 (sweep 2 crowded_server) = sweep 2 crowded_server.
Proof.
  assert (∀ id tokens,
            activeSessions crowded_server !! id = Some tokens → NoDup tokens)
    as Hnd.
  { intros id tokens H.
    change (activeSessions crowded_server)
      with ({[ "u1" := (λ j, Jwt "k" (demo_claims 1 j))
                         <$> ["a"; "b"; "c"; "d"; "e"] ]}
            : gmap string (list token)) in H.
    apply lookup_singleton_Some in H as [_ <-]. compute_done. }
  split; [exact Hnd|].
  exact (proj1 (sweep_idempotent 2 crowded_server Hnd)).
Defined.

(** The administrator deletes the applicant; the applicant's token still
    verifies and [GET /api/auth/me] answers it 404. *)
Lemma delete_user_example :
  status (delete_user "k" staff_server 5000 (bearer_header admin_token)
            "u1").2 = 200
  ∧ user_by_id
      (users (delete_user "k" staff_server 5000 (bearer_header admin_token)
                "u1").1) "u1" = None
  ∧ auth_me "k"
      (delete_user "k" staff_server 5000 (bearer_header admin_token) "u1").1
      6000 (bearer_header demo_token)
    = reply 404 "User not found".
Proof.
  assert (status (delete_user "k" staff_server 5000
                    (bearer_header admin_token) "u1").2 = 200) as H
    by (vm_compute; reflexivity).
  split; [exact H|].
  pose proof (delete_user_keeps_tokens "k" staff_server 5000
                (bearer_header admin_token) "u1" H) as Hdel.
  cbv zeta in Hdel. destruct Hdel as (_ & Hgone & _ & _ & _ & _ & Htok).
  split; [exact Hgone|].
  assert (jwt_verify 6000 demo_token "k" = inr (demo_claims 1 "j0")) as Hv
    by (vm_compute; reflexivity).
  exact (proj1 (proj2 (Htok 6000 (Opaque "Bearer") demo_token []
                         (demo_claims 1 "j0") Hv eq_refl))).
Defined.

(** The applicant forgets the password at time 5000, resets it a second
    later to [<<], two characters that the middleware turns into eight,
    and logs in with it. *)
Lemma forgot_reset_login_example :
  user_by_email (users demo_server) (sanitizeString keep_all "x@y.com")
  = Some demo_row
  ∧ sanitizeString keep_all "x@y.com" ≠ ""
  ∧ sanitizeString keep_all "<<" = "&lt;&lt;"
  ∧ ∃ tok,
      (forgot_password "k" keep_all demo_server 5000 (Some "x@y.com")).2
      = Some tok
      ∧ status (reset_password "k" plain_hash keep_all demo_server 6000
                  "salt" (Some tok) (Some "<<")).2 = 200
      ∧ status (login "k" 5 plain_compare
                  (reset_password "k" plain_hash keep_all demo_server 6000
                     "salt" (Some tok) (Some "<<")).1
                  7000 "j" (Some "x@y.com") (Some "&lt;&lt;")).2 = 200.
Proof.
  assert (user_by_email (users demo_server)
            (sanitizeString keep_all "x@y.com") = Some demo_row) as H1
    by (vm_compute; reflexivity).
  assert (sanitizeString keep_all "x@y.com" ≠ "") as H2
    by (vm_compute; discriminate).
  split; [exact H1|]. split; [exact H2|].
  split; [vm_compute; reflexivity|].
  destruct (forgot_reset_login "k" 5 plain_hash plain_compare keep_all
              demo_server 5000 "x@y.com" demo_row H1 H2) as (tok & Hf & Hr).
  exists tok. split; [exact (f_equal snd Hf)|].
  assert (6000 `div` 1000 < 5000 `div` 1000 + 3600) as Ht
    by (vm_compute; reflexivity).
  assert (6 ≤ String.length (sanitizeString keep_all "<<"))%nat as Hlen
    by (vm_compute; lia).
  pose proof (Hr 6000 "salt" "<<" Ht Hlen) as Hreset.
  cbv zeta in Hreset.
  destruct Hreset as (H200 & _ & _ & _ & _ & _ & Hlogin).
  split; [exact H200|].
  apply (Hlogin 7000 "j"); vm_compute; reflexivity.
Defined.

(** A body with markup in one string and a slash in another. *)
Lemma sanitizeInput_example :
  sanitizeInput keep_all demo_body
  = Some (JsObj [("name", JsStr "&lt;b&gt;Al&lt;&#x2F;b&gt;");
                 ("tags", JsArr [JsStr "a&#x2F;b"; JsNum 3 1])])
  ∧ keys_of (JsObj [("name", JsStr "&lt;b&gt;Al&lt;&#x2F;b&gt;");
                    ("tags", JsArr [JsStr "a&#x2F;b"; JsNum 3 1])])
    = keys_of demo_body.
Proof.
  assert (sanitizeInput keep_all demo_body
          = Some (JsObj [("name", JsStr "&lt;b&gt;Al&lt;&#x2F;b&gt;");
                         ("tags", JsArr [JsStr "a&#x2F;b"; JsNum 3 1])]))
    as H by (vm_compute; reflexivity).
  split; [exact H|].
  destruct (sanitizeInput_result keep_all demo_body _ H) as [_ Hshape].
  refine (proj1 (proj2 (Hshape _))). compute_done.
Defined.

Lemma review_phase_example :
  determinePhase demo_profile = "review"
  ∧ 80 ≤ calculateCompletion demo_profile
  ∧ (calculateReadiness demo_profile).1 ≠ "needs_work".
Proof.
  assert (determinePhase demo_profile = "review") as H
    by (vm_compute; reflexivity).
  split; [exact H|].
  exact (proj2 (review_phase_is_complete demo_profile H)).
Defined.


Lemma extend_session_example :
  tracked (mounted 0 demo_token demo_user)
  ∧ ∃ c',
      advance 250 121 1700500 (handleActivity (mounted 0 demo_token demo_user))
      = Some c'
      ∧ showTimeoutWarning c' = true
      ∧ showTimeoutWarning (extendSession c') = false
      ∧ idle_cycle 250 1700500 demo_user (extendSession c').
Proof.
  assert (tracked (mounted 0 demo_token demo_user)) as Htr.
  { intros tm H. by apply not_elem_of_nil in H. }
  split; [exact Htr|].
  assert (clock (mounted 0 demo_token demo_user)
          + (SESSION_TIMEOUT - WARNING_BEFORE_TIMEOUT) ≤ 1700500
          < clock (mounted 0 demo_token demo_user) + SESSION_TIMEOUT) as Ht
    by (vm_compute; split; [discriminate|reflexivity]).
  destruct (extend_session_restarts 250 ltac:(lia)
              (mounted 0 demo_token demo_user) demo_user
              Htr eq_refl 121 1700500 ltac:(lia) Ht)
    as (c' & Hadv & Hon & Hoff & _ & Hcycle).
  exists c'. split; [exact Hadv|]. split; [exact Hon|]. split; [exact Hoff|].
  exact Hcycle.
Defined.
